(** * OpenWorld-MethaneMonitoring: the indexed append-only record store

    A shallow embedding of
      - [openworld_methane/models.py]                (EmissionRecord),
      - [openworld_methane/core/timeutil.py]         (parse_timestamp,
                                                      floor_to_window),
      - [openworld_methane/core/units.py]            (to_kg_per_h),
      - [openworld_methane/persistence/jsonl.py]     (JsonlStore),
      - [openworld_methane/persistence/indexed_jsonl.py] (IndexedJsonlStore),
      - [openworld_methane/persistence/store.py]     (InMemoryStore),
    followed by the properties of the store.

    Conventions of the embedding.
      - The Log is a sequence of bytes, written [string]; the store only
        ever writes ASCII to it ([json.dumps] escapes everything else), so a
        character offset is a byte offset, as [fp.tell()] reports it.  Text
        files are those of a POSIX system: a line feed is written as it is.
        A Log written by others is read faithfully when it is [plain]:
        ASCII, every carriage return followed by a line feed.  Properties
        of such Logs carry that hypothesis.
      - A file fails at [open] or not at all: it is there or not, and can
        be opened for reading, for writing, or neither.
      - Python exceptions are values of [exn]; a computation that can raise
        returns a [result].
      - Store methods run in the monad [M]: they thread the instance
        attributes, the two files and the emitted log messages, and what
        they did before raising stays done.
      - The interpreter's libraries ([json], [datetime], [float]) are not
        part of the repository: they are the fields of the classes [PyData]
        and [PyLib].  [Ref] is a small executable instance, used to run
        the model on concrete files. *)

From Stdlib Require Import List String Ascii Bool Arith Lia ZArith QArith.
From Stdlib Require Import Sorting.Sorted Sorting.Permutation.
Import ListNotations.
Local Close Scope Q_scope.
Local Open Scope string_scope.
Local Open Scope list_scope.
Local Open Scope nat_scope.

Set Implicit Arguments.

(** ** Exceptions and results *)

Inductive exn : Type :=
| JSONDecodeError | KeyError | ValueError | TypeError | AttributeError
| FileNotFoundError | PermissionError | UnpicklingError | EOFError.

Inductive result (A : Type) : Type :=
| Ok (a : A)
| Raise (e : exn).
Arguments Ok {A} a.
Arguments Raise {A} e.

Definition rbind {A B} (r : result A) (k : A -> result B) : result B :=
  match r with
  | Ok a => k a
  | Raise e => Raise e
  end.

Declare Scope result_scope.
Delimit Scope result_scope with result.
Notation "x <- r ;; k" := (rbind r (fun x => k))
  (at level 61, r at next level, right associativity) : result_scope.

(** [except (json.JSONDecodeError, KeyError)]: the handler around one line
    of [_rebuild_index]. *)
Definition caught_by_rebuild (e : exn) : bool :=
  match e with
  | JSONDecodeError | KeyError => true
  | _ => false
  end.

(** [except (json.JSONDecodeError, KeyError, ValueError)]: the handler
    around one record of [_read_records_by_offsets].  [JSONDecodeError] is
    a subclass of [ValueError]. *)
Definition caught_by_read (e : exn) : bool :=
  match e with
  | JSONDecodeError | KeyError | ValueError => true
  | _ => false
  end.

(** ** Text: [str.strip], line splitting *)

Definition LF : ascii := ascii_of_nat 10.
Definition CR : ascii := ascii_of_nat 13.

(** ASCII code points for which [str.isspace] holds. *)
Definition isspace (c : ascii) : bool :=
  let n := nat_of_ascii c in
  ((9 <=? n) && (n <=? 13)) || ((28 <=? n) && (n <=? 32)).

Definition is_newline (c : ascii) : bool :=
  Ascii.eqb c LF || Ascii.eqb c CR.

Fixpoint lstrip (s : string) : string :=
  match s with
  | String c s' => if isspace c then lstrip s' else s
  | EmptyString => EmptyString
  end.

Fixpoint rstrip (s : string) : string :=
  match s with
  | String c s' =>
      match rstrip s' with
      | EmptyString => if isspace c then EmptyString else String c EmptyString
      | t => String c t
      end
  | EmptyString => EmptyString
  end.

Definition strip (s : string) : string := rstrip (lstrip s).

Definition is_empty (s : string) : bool :=
  match s with EmptyString => true | _ => false end.

(** The physical lines of a text file, each with its terminator, as
    successive [fp.readline()] calls deliver them (universal newlines:
    a line ends at LF, at CR LF or at a lone CR).  The readers below strip
    every line before using it, so the terminator is kept as it is on disk. *)
Fixpoint split_lines (s : string) : list string :=
  match s with
  | EmptyString => []
  | String c s' =>
      if Ascii.eqb c LF then String c EmptyString :: split_lines s'
      else if Ascii.eqb c CR then
        match s' with
        | String c' s'' =>
            if Ascii.eqb c' LF
            then String c (String c' EmptyString) :: split_lines s''
            else String c EmptyString :: split_lines s'
        | EmptyString => [String c EmptyString]
        end
      else
        match split_lines s' with
        | [] => [String c EmptyString]
        | l :: ls => String c l :: ls
        end
  end.

(** [fp.tell()] before each [fp.readline()], paired with the line read.
    [tell] is taken to be the byte position.  That is what CPython returns
    on text whose carriage returns are all followed by a line feed; after a
    line ended by a lone CR it returns a number that also encodes the state
    of the decoder, which is no position.  The properties of Logs the store
    did not write are stated for [plain] text for that reason. *)
Fixpoint with_tell (pos : nat) (ls : list string) : list (nat * string) :=
  match ls with
  | [] => []
  | l :: ls' => (pos, l) :: with_tell (pos + String.length l) ls'
  end.

Fixpoint drop (n : nat) (s : string) : string :=
  match n, s with
  | 0, _ => s
  | S n', String _ s' => drop n' s'
  | S _, EmptyString => EmptyString
  end.

(** [fp.seek(offset); fp.readline()]: the empty string at or past the end. *)
Definition readline_at (content : string) (offset : nat) : string :=
  match split_lines (drop offset content) with
  | [] => EmptyString
  | l :: _ => l
  end.

Fixpoint last_char (s : string) : option ascii :=
  match s with
  | EmptyString => None
  | String c EmptyString => Some c
  | String _ s' => last_char s'
  end.

Definition endswith_char (s : string) (c : ascii) : bool :=
  match last_char s with
  | Some c' => Ascii.eqb c' c
  | None => false
  end.

(** [s[:-n]] *)
Definition drop_last (n : nat) (s : string) : string :=
  substring 0 (String.length s - n) s.

(** [s[-n:]] for [0 < n] *)
Definition take_last (n : nat) (s : string) : string :=
  drop (String.length s - n) s.

(** [s[-n]] for [0 < n <= len(s)] *)
Definition char_from_end (n : nat) (s : string) : option ascii :=
  get (String.length s - n) s.

Fixpoint is_substring (needle hay : string) : bool :=
  prefix needle hay ||
  match hay with
  | EmptyString => false
  | String _ hay' => is_substring needle hay'
  end.

(** ** The interpreter's data and libraries *)

(** The two primitive types of the interpreter the store handles: [float]
    and timezone-aware [datetime] normalised to UTC (an instant). *)
Class PyData : Type := {
  float : Type;
  datetime : Type
}.

(** What [json.loads] returns. *)
#[warnings="-register-all"]
Inductive json `{PyData} : Type :=
| JNull
| JBool (b : bool)
| JInt (z : Z)
| JFloat (f : float)
| JStr (s : string)
| JList (l : list json)
| JDict (kv : list (string * json)).

Class PyLib `{PyData} : Type := {
  (** [json.loads]; [None] stands for [json.JSONDecodeError] *)
  json_loads : string -> option json;
  (** [json.dumps] with its default arguments *)
  json_dumps : json -> string;
  (** [str(x)] for a JSON value that is not itself a [str] *)
  py_repr : json -> string;
  (** the float nearest to a rational: literals and [float(int)] *)
  float_of_Q : Q -> float;
  (** [float(s)] for a [str]; [None] stands for [ValueError] *)
  float_of_string : string -> option float;
  fadd : float -> float -> float;
  fmul : float -> float -> float;
  fdiv : float -> float -> float;
  fltb : float -> float -> bool;
  (** [datetime.strptime(v, fmt)], made aware with the default zone UTC when
      the format has no [%z], then [.astimezone(timezone.utc)]; [None]
      stands for [ValueError] *)
  strptime : string -> string -> option datetime;
  (** [datetime.fromisoformat], normalised the same way *)
  fromisoformat : string -> option datetime;
  (** [dt.astimezone(timezone.utc).isoformat()] *)
  isoformat : datetime -> string;
  (** [a < b] on aware datetimes *)
  dt_ltb : datetime -> datetime -> bool
}.

(** ** models.py *)

(** [EmissionRecord].  [__post_init__] normalises the timestamp to UTC,
    which is the identity on [datetime] as modelled. *)
Record EmissionRecord `{PyData} : Type := mkEmissionRecord {
  timestamp : datetime;
  site_id : string;
  region_id : string;
  emission_rate_kg_per_h : float;
  source : string;
  meta : option json
}.

(** [IndexEntry] of indexed_jsonl.py. *)
Record IndexEntry `{PyData} : Type := mkIndexEntry {
  ie_offset : nat;
  ie_length : nat;
  ie_timestamp : datetime;
  ie_site_id : string;
  ie_region_id : string
}.
Arguments mkEmissionRecord {_} _ _ _ _ _ _.
Arguments mkIndexEntry {_} _ _ _ _ _.

Section Decoding.
Context `{L : PyLib}.
Local Open Scope result_scope.

(** ** core/timeutil.py *)

Definition COMMON_FORMATS : list string :=
  [ "%Y-%m-%dT%H:%M:%S%z";
    "%Y-%m-%dT%H:%M:%S.%f%z";
    "%Y-%m-%d %H:%M:%S%z";
    "%Y-%m-%d %H:%M:%S";
    "%Y-%m-%dT%H:%M:%S" ].

(** The [for fmt in COMMON_FORMATS: try ... break / except: continue] loop. *)
Fixpoint first_format (v : string) (fmts : list string) : option datetime :=
  match fmts with
  | [] => None
  | fmt :: rest =>
      match strptime v fmt with
      | Some dt => Some dt
      | None => first_format v rest
      end
  end.

Definition is_char (c : ascii) (o : option ascii) : bool :=
  match o with
  | Some c' => Ascii.eqb c' c
  | None => false
  end.

Definition parse_timestamp (value : string) : result datetime :=
  let v := strip value in
  let v := if endswith_char v "Z"%char then (drop_last 1 v ++ "+0000")%string else v in
  let v :=
    if (6 <=? String.length v)
       && (is_char ":"%char (char_from_end 3 v)
           && (is_char "+"%char (char_from_end 6 v)
               || is_char "-"%char (char_from_end 6 v)))
    then (drop_last 3 v ++ take_last 2 v)%string
    else v in
  match first_format v COMMON_FORMATS with
  | Some dt => Ok dt
  | None =>
      match fromisoformat value with
      | Some dt => Ok dt
      | None => Raise ValueError
      end
  end.

(** [parse_timestamp(x)] for [x] taken out of a decoded line: anything but
    a [str] has no [strip] method. *)
Definition parse_timestamp_of (x : json) : result datetime :=
  match x with
  | JStr s => parse_timestamp s
  | _ => Raise AttributeError
  end.

(** ** core/units.py *)

Definition METHANE_DENSITY_KG_PER_M3 : float := float_of_Q (656 # 1000).

Definition to_kg_per_h (value : float) (unit : string) : result float :=
  if String.eqb unit "kg/h" then Ok value
  else if String.eqb unit "g/h" then Ok (fdiv value (float_of_Q (1000 # 1)))
  else if String.eqb unit "m3/h" then Ok (fmul value METHANE_DENSITY_KG_PER_M3)
  else Raise ValueError.

(** ** Builtins on decoded values *)

Fixpoint lookup (key : string) (kv : list (string * json)) : option json :=
  match kv with
  | [] => None
  | (k, v) :: rest => if String.eqb k key then Some v else lookup key rest
  end.

(** [obj[key]] for a [str] key. *)
Definition getitem (obj : json) (key : string) : result json :=
  match obj with
  | JDict kv =>
      match lookup key kv with
      | Some v => Ok v
      | None => Raise KeyError
      end
  | _ => Raise TypeError
  end.

(** [key in obj] for a [str] key. *)
Definition py_in (key : string) (obj : json) : result bool :=
  match obj with
  | JDict kv => Ok (match lookup key kv with Some _ => true | None => false end)
  | JList l =>
      Ok (existsb (fun x => match x with JStr s => String.eqb s key | _ => false end) l)
  | JStr s => Ok (is_substring key s)
  | _ => Raise TypeError
  end.

(** [str(x)] *)
Definition py_str (x : json) : string :=
  match x with
  | JStr s => s
  | _ => py_repr x
  end.

(** [float(x)] *)
Definition py_float (x : json) : result float :=
  match x with
  | JFloat f => Ok f
  | JInt z => Ok (float_of_Q (inject_Z z))
  | JBool b => Ok (float_of_Q (if b then 1 # 1 else 0 # 1))
  | JStr s =>
      match float_of_string s with
      | Some f => Ok f
      | None => Raise ValueError
      end
  | _ => Raise TypeError
  end.

(** ** Decoding one line *)

(** The body of the per-record [try] of [read_records] ([src = "jsonl"])
    and of [_read_records_by_offsets] ([src = "indexed_jsonl"]); the two
    copies in the source differ in the source tag only. *)
Definition record_of_line (src : string) (line : string) : result EmissionRecord :=
  match json_loads line with
  | None => Raise JSONDecodeError
  | Some obj =>
      has <- py_in "emission_rate_kg_per_h" obj ;;
      if has then
        t <- getitem obj "timestamp" ;;
        ts <- parse_timestamp_of t ;;
        s <- getitem obj "site_id" ;;
        r <- getitem obj "region_id" ;;
        e <- getitem obj "emission_rate_kg_per_h" ;;
        rate <- py_float e ;;
        Ok (mkEmissionRecord ts (py_str s) (py_str r) rate src None)
      else
        t <- getitem obj "timestamp" ;;
        ts <- parse_timestamp_of t ;;
        u <- getitem obj "unit" ;;
        let unit_str := strip (py_str u) in
        x <- getitem obj "value" ;;
        value <- py_float x ;;
        rate <- to_kg_per_h value unit_str ;;
        s <- getitem obj "site_id" ;;
        r <- getitem obj "region_id" ;;
        Ok (mkEmissionRecord ts (py_str s) (py_str r) rate src None)
  end.

(** The body of the per-line [try] of [_rebuild_index]; [line] is the
    stripped line. *)
Definition entry_of_line (line_start : nat) (line : string) : result IndexEntry :=
  match json_loads line with
  | None => Raise JSONDecodeError
  | Some obj =>
      t <- getitem obj "timestamp" ;;
      ts <- parse_timestamp_of t ;;
      s <- getitem obj "site_id" ;;
      r <- getitem obj "region_id" ;;
      Ok (mkIndexEntry line_start (String.length line) ts (py_str s) (py_str r))
  end.

(** The object [write_records] and [IndexedJsonlStore.append] serialise. *)
Definition record_obj (r : EmissionRecord) : json :=
  JDict [ ("timestamp", JStr (isoformat (timestamp r)));
          ("site_id", JStr (site_id r));
          ("region_id", JStr (region_id r));
          ("emission_rate_kg_per_h", JFloat (emission_rate_kg_per_h r)) ].

(** [json.dumps(obj) + "\n"] *)
Definition record_line (r : EmissionRecord) : string :=
  (json_dumps (record_obj r) ++ String LF EmptyString)%string.

End Decoding.

(** ** Files, store state and the store monad *)

(** A file that exists: what it holds and whether [open] is permitted for
    reading and for writing. *)
Record file (A : Type) : Type := mkFile {
  content : A;
  readable : bool;
  writable : bool
}.

(** What the sidecar holds: a pickled index, nothing (just truncated), or
    bytes [pickle.load] rejects. *)
Inductive blob `{PyData} : Type :=
| Pickled (l : list IndexEntry)
| Truncated
| Garbage.

Inductive level : Type := DEBUG | INFO | WARNING | ERROR.

(** One call on the logger: level, message, the number passed in [extra]
    (entry count, offset or record count) and the exception, if any. *)
Record event : Type := Log {
  ev_level : level;
  ev_message : string;
  ev_number : option nat;
  ev_exception : option exn
}.

(** The attributes of a store object, the two files behind it, the messages
    it has logged (oldest first) and every content the sidecar path has held
    (oldest first). *)
Record state `{PyData} : Type := mkState {
  log_file : option (file string);
  idx_file : option (file blob);
  _index : list IndexEntry;
  _index_loaded : bool;
  logged : list event;
  idx_seen : list blob
}.

Section Monad.
Context `{D : PyData}.

Definition M (A : Type) : Type := state -> result A * state.

Definition ret {A} (a : A) : M A := fun st => (Ok a, st).

Definition bind {A B} (m : M A) (k : A -> M B) : M B :=
  fun st =>
    match m st with
    | (Ok a, st') => k a st'
    | (Raise e, st') => (Raise e, st')
    end.

Definition raise {A} (e : exn) : M A := fun st => (Raise e, st).

Definition lift {A} (r : result A) : M A := fun st => (r, st).

(** [try: m / except <cls> as e: h e], [cls] given as a test on the
    exception. *)
Definition try_except {A} (m : M A) (cls : exn -> bool) (h : exn -> M A) : M A :=
  fun st =>
    match m st with
    | (Ok a, st') => (Ok a, st')
    | (Raise e, st') => if cls e then h e st' else (Raise e, st')
    end.

Definition Exception (e : exn) : bool := true.

Definition is_FileNotFoundError (e : exn) : bool :=
  match e with FileNotFoundError => true | _ => false end.

(** [try: m / finally: fin] *)
Definition try_finally {A} (m : M A) (fin : M unit) : M A :=
  fun st =>
    match m st with
    | (r, st') =>
        match fin st' with
        | (Ok _, st'') => (r, st'')
        | (Raise e, st'') => (Raise e, st'')
        end
    end.

End Monad.

Declare Scope M_scope.
Delimit Scope M_scope with M.
Notation "x <- m ;; k" := (bind m (fun x => k))
  (at level 61, m at next level, right associativity) : M_scope.
Notation "m ;; k" := (bind m (fun _ => k))
  (at level 61, right associativity) : M_scope.

Section Primitives.
Context `{D : PyData}.
Local Open Scope M_scope.

Definition get {A} (f : state -> A) : M A := fun st => (Ok (f st), st).

Definition set_index (l : list IndexEntry) : M unit :=
  fun st => (Ok tt, mkState (log_file st) (idx_file st) l (_index_loaded st)
                            (logged st) (idx_seen st)).

Definition set_index_loaded (b : bool) : M unit :=
  fun st => (Ok tt, mkState (log_file st) (idx_file st) (_index st) b
                            (logged st) (idx_seen st)).

Definition emit (ev : event) : M unit :=
  fun st => (Ok tt, mkState (log_file st) (idx_file st) (_index st)
                            (_index_loaded st) (logged st ++ [ev]) (idx_seen st)).

Definition set_log_file (f : option (file string)) : M unit :=
  fun st => (Ok tt, mkState f (idx_file st) (_index st) (_index_loaded st)
                            (logged st) (idx_seen st)).

(** Every change of the sidecar goes through here and is recorded. *)
Definition set_idx_content (f : file blob) (b : blob) : M unit :=
  fun st => (Ok tt, mkState (log_file st)
                            (Some (mkFile b (readable f) (writable f)))
                            (_index st) (_index_loaded st)
                            (logged st) (idx_seen st ++ [b])).

(** [log_error_with_context(logger, message, exception=e, ...)] *)
Definition log_error_with_context (message : string) (e : exn) (n : option nat) : M unit :=
  emit (Log ERROR message n (Some e)).

(** [self.path.exists()] *)
Definition path_exists : M bool :=
  get (fun st => match log_file st with Some _ => true | None => false end).

(** [self.path.stat().st_size], for a path that exists *)
Definition path_size : M nat :=
  get (fun st => match log_file st with
                 | Some f => String.length (content f)
                 | None => 0
                 end).

Definition index_path_exists : M bool :=
  get (fun st => match idx_file st with Some _ => true | None => false end).

Definition fresh_file {A} (a : A) : file A := mkFile a true true.

(** [self.path.open("r", encoding="utf-8")], read to the end.  The text is
    handed over as its bytes: on ASCII text decoding changes nothing and
    [str.strip] strips the bytes [isspace] names.  Bytes that are not UTF-8
    (the readers then raise [UnicodeDecodeError] from [readline]) and
    Unicode white space are outside the embedding; the properties of Logs
    the store did not write are stated for [plain] text. *)
Definition open_r : M string :=
  f <- get log_file ;;
  match f with
  | None => raise FileNotFoundError
  | Some f => if readable f then ret (content f) else raise PermissionError
  end.

(** [self.path.open("a", encoding="utf-8")]: creates the file if missing *)
Definition open_a : M unit :=
  f <- get log_file ;;
  match f with
  | None => set_log_file (Some (fresh_file EmptyString))
  | Some f => if writable f then ret tt else raise PermissionError
  end.

(** [fp.tell()] on the file opened for appending: its end *)
Definition tell : M nat := path_size.

(** [fp.write(line)] on the file opened for appending *)
Definition write (line : string) : M unit :=
  f <- get log_file ;;
  match f with
  | None => ret tt
  | Some f =>
      set_log_file (Some (mkFile (content f ++ line)%string (readable f) (writable f)))
  end.

(** [self.index_path.open("rb")] followed by [pickle.load(fp)] *)
Definition open_rb_load : M (list IndexEntry) :=
  f <- get idx_file ;;
  match f with
  | None => raise FileNotFoundError
  | Some f =>
      if readable f then
        match content f with
        | Pickled l => ret l
        | Truncated => raise EOFError
        | Garbage => raise UnpicklingError
        end
      else raise PermissionError
  end.

(** [self.index_path.open("wb")]: creates or truncates the sidecar, and
    hands back the file for the write that follows *)
Definition open_wb : M (file blob) :=
  f <- get idx_file ;;
  match f with
  | None => set_idx_content (fresh_file Truncated) Truncated ;; ret (fresh_file Truncated)
  | Some f =>
      if writable f then set_idx_content f Truncated ;; ret f
      else raise PermissionError
  end.

(** [pickle.dump(self._index, fp)] and the close of the [with] block.  In
    the embedding a save fails at [open] or not at all: a write that fails
    after the sidecar has been opened, and so truncated, is not modelled,
    and no property below speaks of it. *)
Definition pickle_dump (fp : file blob) (l : list IndexEntry) : M unit :=
  set_idx_content fp (Pickled l).

(** [for x in xs: body x] *)
Fixpoint for_each {X} (xs : list X) (body : X -> M unit) : M unit :=
  match xs with
  | [] => ret tt
  | x :: rest => body x ;; for_each rest body
  end.

(** A loop that appends to a local list: [collect xs body] runs [body] on
    each element in turn and gathers what it returns; when [body] raises,
    the loop stops and the list gathered so far stays with the exception,
    for the handler outside the loop. *)
Fixpoint collect {X Y} (xs : list X) (body : X -> M (option Y))
  : M (list Y * option exn) :=
  match xs with
  | [] => ret ([], None)
  | x :: rest =>
      fun st =>
        match body x st with
        | (Raise e, st') => (Ok ([], Some e), st')
        | (Ok o, st') =>
            match collect rest body st' with
            | (Ok (ys, err), st'') =>
                (Ok (match o with Some y => y :: ys | None => ys end, err), st'')
            | (Raise e, st'') => (Raise e, st'')
            end
        end
  end.

End Primitives.

(** ** Builtins on lists *)

Fixpoint insert_sorted (x : nat) (l : list nat) : list nat :=
  match l with
  | [] => [x]
  | y :: l' => if x <=? y then x :: l else y :: insert_sorted x l'
  end.

(** [sorted(offsets)] on a list of [int] *)
Fixpoint sorted (l : list nat) : list nat :=
  match l with
  | [] => []
  | x :: l' => insert_sorted x (sorted l')
  end.

(** [l[i:]] for an [int] [i] of either sign *)
Definition slice_from {A} (i : Z) (l : list A) : list A :=
  if (i <? 0)%Z
  then skipn (Z.to_nat (Z.of_nat (List.length l) + i)) l
  else skipn (Z.to_nat i) l.

(** [{f(x) for x in l}]: a set, kept as a list without repetition *)
Definition set_of (l : list string) : list string := nodup string_dec l.

(** The result of [summary()] *)
Record Summary `{PyData} : Type := mkSummary {
  count : nat;
  mean : float;
  min : float;
  max : float
}.
Arguments mkSummary {_} _ _ _ _.

Section Stores.
Context `{L : PyLib}.
Local Open Scope M_scope.

(** [min(vals)] and [max(vals)] of a non-empty list *)
Definition py_min (x : float) (xs : list float) : float :=
  fold_left (fun m y => if fltb y m then y else m) xs x.

Definition py_max (x : float) (xs : list float) : float :=
  fold_left (fun m y => if fltb m y then y else m) xs x.

(** [sum(vals)] *)
Definition py_sum (xs : list float) : float :=
  fold_left fadd xs (float_of_Q (0 # 1)).

Definition summary_of (records : list EmissionRecord) : Summary :=
  match map emission_rate_kg_per_h records with
  | [] => mkSummary 0 (float_of_Q (0 # 1)) (float_of_Q (0 # 1)) (float_of_Q (0 # 1))
  | v :: vs =>
      let vals := v :: vs in
      mkSummary (List.length vals)
                (fdiv (py_sum vals) (float_of_Q (inject_Z (Z.of_nat (List.length vals)))))
                (py_min v vs)
                (py_max v vs)
  end.

Definition dict_of (r : EmissionRecord) : json := record_obj r.

(** ** persistence/jsonl.py *)

(** [read_records(fp)]: nothing is caught, so the first line that fails
    ends the scan with its exception. *)
Fixpoint read_lines (ls : list string) : result (list EmissionRecord) :=
  match ls with
  | [] => Ok []
  | raw :: rest =>
      let line := strip raw in
      if is_empty line then read_lines rest
      else
        match record_of_line "jsonl" line with
        | Raise e => Raise e
        | Ok r =>
            match read_lines rest with
            | Raise e => Raise e
            | Ok rs => Ok (r :: rs)
            end
        end
  end.

Definition read_records (fp : string) : result (list EmissionRecord) :=
  read_lines (split_lines fp).

(** [write_records(fp, records)] on a file opened for appending *)
Fixpoint write_records (records : list EmissionRecord) : M nat :=
  match records with
  | [] => ret 0
  | r :: rest =>
      write (record_line r) ;;
      n <- write_records rest ;;
      ret (S n)
  end.

Definition append_file (records : list EmissionRecord) : M nat :=
  open_a ;; write_records records.

Definition read_file : M (list EmissionRecord) :=
  fp <- open_r ;; lift (read_records fp).

End Stores.

Module JsonlStore.
Section Methods.
Context `{L : PyLib}.
Local Open Scope M_scope.

(** [JsonlStore(path)]: the Log is created when missing.  A [JsonlStore]
    has no index; the other components of the state are not its own. *)
Definition init (st : state) : state :=
  mkState (match log_file st with
           | None => Some (fresh_file EmptyString)
           | Some f => Some f
           end)
          (idx_file st) (_index st) (_index_loaded st) (logged st) (idx_seen st).

Definition _all_from_disk : M (list EmissionRecord) :=
  try_except read_file is_FileNotFoundError (fun _ => ret []).

Definition append (records : list EmissionRecord) : M nat :=
  append_file records.

Definition all : M (list EmissionRecord) := _all_from_disk.

Definition tail (n : Z) : M (list EmissionRecord) :=
  rs <- _all_from_disk ;; ret (slice_from (- n) rs).

Definition summary : M Summary :=
  rs <- _all_from_disk ;; ret (summary_of rs).

Definition to_dicts : M (list json) :=
  rs <- _all_from_disk ;; ret (map dict_of rs).

Definition in_range (start end_ : option datetime) (t : datetime) : bool :=
  match start with
  | Some s => if dt_ltb t s then false else
      match end_ with
      | Some e => if negb (dt_ltb t e) then false else true
      | None => true
      end
  | None =>
      match end_ with
      | Some e => if negb (dt_ltb t e) then false else true
      | None => true
      end
  end.

Definition query_time_range (start end_ : option datetime) : M (list EmissionRecord) :=
  rs <- _all_from_disk ;;
  ret (filter (fun r => in_range start end_ (timestamp r)) rs).

End Methods.
End JsonlStore.

(** ** persistence/indexed_jsonl.py *)

Module IndexedJsonlStore.
Section Methods.
Context `{L : PyLib}.
Local Open Scope M_scope.

(** [IndexedJsonlStore(path)]: the Log is created when missing, the index
    starts empty and not loaded. *)
Definition init (st : state) : state :=
  mkState (match log_file st with
           | None => Some (fresh_file EmptyString)
           | Some f => Some f
           end)
          (idx_file st) [] false (logged st) (idx_seen st).

Definition _save_index : M unit :=
  try_except
    (fp <- open_wb ;;
     idx <- get _index ;;
     pickle_dump fp idx ;;
     emit (Log DEBUG "Saved index" (Some (List.length idx)) None))
    Exception
    (fun e => log_error_with_context "Failed to save index" e None).

(** One turn of the [while True] loop of [_rebuild_index], for the line
    [raw] read at [line_start]. *)
Definition rebuild_step (p : nat * string) : M unit :=
  let (line_start, raw) := p in
  let line := strip raw in
  if is_empty line then ret tt
  else
    try_except
      (entry <- lift (entry_of_line line_start line) ;;
       idx <- get _index ;;
       set_index (idx ++ [entry]))
      caught_by_rebuild
      (fun e => emit (Log WARNING "Skipping malformed line in JSONL"
                          (Some line_start) (Some e))).

Definition _rebuild_index : M unit :=
  set_index [] ;;
  ex <- path_exists ;;
  size <- path_size ;;
  if negb ex || (size =? 0) then ret tt
  else
    try_except
      (fp <- open_r ;;
       for_each (with_tell 0 (split_lines fp)) rebuild_step ;;
       _save_index ;;
       idx <- get _index ;;
       emit (Log INFO "Rebuilt index" (Some (List.length idx)) None))
      Exception
      (fun e =>
         log_error_with_context "Failed to rebuild index" e None ;;
         set_index []).

Definition _load_index : M unit :=
  loaded <- get _index_loaded ;;
  if loaded then ret tt
  else
    try_finally
      (try_except
         (ex <- index_path_exists ;;
          if ex then
            idx <- open_rb_load ;;
            set_index idx ;;
            emit (Log DEBUG "Loaded index" (Some (List.length idx)) None)
          else _rebuild_index)
         Exception
         (fun e =>
            log_error_with_context "Failed to load index, rebuilding" e None ;;
            _rebuild_index))
      (set_index_loaded true).

(** One turn of the loop of [_read_records_by_offsets]. *)
Definition read_step (fp : string) (offset : nat) : M (option EmissionRecord) :=
  let line := strip (readline_at fp offset) in
  if is_empty line then ret None
  else
    try_except
      (r <- lift (record_of_line "indexed_jsonl" line) ;; ret (Some r))
      caught_by_read
      (fun e => emit (Log WARNING "Skipping malformed record" (Some offset) (Some e)) ;;
                ret None).

Definition _read_records_by_offsets (offsets : list nat) : M (list EmissionRecord) :=
  match offsets with
  | [] => ret []
  | _ =>
      try_except
        (fp <- open_r ;;
         p <- collect (sorted offsets) (read_step fp) ;;
         let (records, err) := p in
         match err with
         | None => ret records
         | Some e =>
             log_error_with_context "Failed to read records by offsets" e
                                    (Some (List.length offsets)) ;;
             ret records
         end)
        Exception
        (fun e =>
           log_error_with_context "Failed to read records by offsets" e
                                  (Some (List.length offsets)) ;;
           ret [])
  end.

(** The body of the [for record in records] loop of [append]. *)
Definition append_step (record : EmissionRecord) : M IndexEntry :=
  line_start <- tell ;;
  let line := record_line record in
  write line ;;
  ret (mkIndexEntry line_start (String.length line) (timestamp record)
                    (site_id record) (region_id record)).

Fixpoint append_loop (records : list EmissionRecord) : M (list IndexEntry) :=
  match records with
  | [] => ret []
  | r :: rest =>
      e <- append_step r ;;
      es <- append_loop rest ;;
      ret (e :: es)
  end.

(** [current_size], computed before the [try], is never used and is left
    out.  In the model only [open] can fail, before any record is written,
    so the [record_count] logged by the handler is 0. *)
Definition append (records : list EmissionRecord) : M nat :=
  _load_index ;;
  try_except
    (open_a ;;
     new_entries <- append_loop records ;;
     let count := List.length new_entries in
     idx <- get _index ;;
     set_index (idx ++ new_entries) ;;
     _save_index ;;
     emit (Log INFO "Appended records" (Some count) None) ;;
     ret count)
    Exception
    (fun e =>
       log_error_with_context "Failed to append records" e (Some 0) ;;
       raise e).

Definition all : M (list EmissionRecord) :=
  try_except (fp <- open_r ;; lift (read_records fp))
             is_FileNotFoundError (fun _ => ret []).

Definition tail (n : Z) : M (list EmissionRecord) :=
  _load_index ;;
  idx <- get _index ;;
  match idx with
  | [] => ret []
  | _ =>
      let tail_entries :=
        if (n <=? Z.of_nat (List.length idx))%Z then slice_from (- n) idx else idx in
      _read_records_by_offsets (map ie_offset tail_entries)
  end.

Definition summary : M Summary :=
  records <- all ;; ret (summary_of records).

Definition to_dicts : M (list json) :=
  records <- all ;; ret (map dict_of records).

(** The filter of [query_time_range] on one entry: [false] where the loop
    says [continue]. *)
Definition in_range (start end_ : option datetime) (t : datetime) : bool :=
  match start with
  | Some s => if dt_ltb t s then false else
      match end_ with
      | Some e => if negb (dt_ltb t e) then false else true
      | None => true
      end
  | None =>
      match end_ with
      | Some e => if negb (dt_ltb t e) then false else true
      | None => true
      end
  end.

Definition query_time_range (start end_ : option datetime) : M (list EmissionRecord) :=
  _load_index ;;
  idx <- get _index ;;
  match idx with
  | [] => ret []
  | _ =>
      _read_records_by_offsets
        (map ie_offset (filter (fun e => in_range start end_ (ie_timestamp e)) idx))
  end.

Definition query_by_site (site : string) : M (list EmissionRecord) :=
  _load_index ;;
  idx <- get _index ;;
  _read_records_by_offsets
    (map ie_offset (filter (fun e => String.eqb (ie_site_id e) site) idx)).

Definition query_by_region (region : string) : M (list EmissionRecord) :=
  _load_index ;;
  idx <- get _index ;;
  _read_records_by_offsets
    (map ie_offset (filter (fun e => String.eqb (ie_region_id e) region) idx)).

Definition get_sites : M (list string) :=
  _load_index ;;
  idx <- get _index ;;
  ret (set_of (map ie_site_id idx)).

Definition get_regions : M (list string) :=
  _load_index ;;
  idx <- get _index ;;
  ret (set_of (map ie_region_id idx)).

End Methods.
End IndexedJsonlStore.

(** ** A reference runtime

    A small executable instance of [PyData] and [PyLib], to run the store on
    concrete files.  It covers ASCII JSON without exponents and without
    [\u] escapes above [ÿ], floats that are short decimals (kept as
    reduced rationals), and timestamps in the five [COMMON_FORMATS] with
    two-digit fields and a zero UTC offset; on those inputs it agrees with
    CPython, elsewhere it reports failure. *)

Module Ref.

Record dt : Type := mkDt {
  year : N; month : N; day : N;
  hour : N; minute : N; second : N; microsecond : N
}.

#[export] Instance data : PyData := {| float := Q; datetime := dt |}.

(** *** Decimal digits *)

Definition digit_char (n : N) : ascii := ascii_of_N (48 + n).

Definition is_digit (c : ascii) : bool :=
  let n := nat_of_ascii c in (48 <=? n) && (n <=? 57).

Definition digit_val (c : ascii) : N := N_of_ascii c - 48.

Fixpoint digits_fuel (fuel : nat) (n : N) (acc : string) : string :=
  match fuel with
  | 0 => acc
  | S fuel' =>
      let acc' := String (digit_char (n mod 10)) acc in
      if (n / 10 =? 0)%N then acc' else digits_fuel fuel' (n / 10)%N acc'
  end.

Definition string_of_N (n : N) : string :=
  digits_fuel (S (N.to_nat (N.log2 n))) n EmptyString.

Fixpoint zeros (k : nat) : string :=
  match k with 0 => EmptyString | S k' => String "0"%char (zeros k') end.

(** [n] on at least [w] digits *)
Definition pad (w : nat) (n : N) : string :=
  let s := string_of_N n in
  (zeros (w - String.length s) ++ s)%string.

(** Reads a run of digits; gives the value, the number of digits and the rest. *)
Fixpoint read_digits (s : string) (acc : N) (len : nat) : N * nat * string :=
  match s with
  | String c s' =>
      if is_digit c then read_digits s' (10 * acc + digit_val c)%N (S len)
      else (acc, len, s)
  | EmptyString => (acc, len, s)
  end.

(** Exactly [w] digits. *)
Fixpoint fixed_digits (w : nat) (s : string) (acc : N) : option (N * string) :=
  match w with
  | 0 => Some (acc, s)
  | S w' =>
      match s with
      | String c s' =>
          if is_digit c then fixed_digits w' s' (10 * acc + digit_val c)%N else None
      | EmptyString => None
      end
  end.

Definition expect (c : ascii) (s : string) : option string :=
  match s with
  | String c' s' => if Ascii.eqb c c' then Some s' else None
  | EmptyString => None
  end.

(** *** datetime *)

Definition is_leap (y : N) : bool :=
  (((y mod 4 =? 0) && negb (y mod 100 =? 0)) || (y mod 400 =? 0))%N.

Definition days_in_month (y m : N) : N :=
  if (m =? 2)%N then (if is_leap y then 29 else 28)%N
  else if ((m =? 4) || (m =? 6) || (m =? 9) || (m =? 11))%N then 30%N
  else 31%N.

Definition valid_dt (d : dt) : bool :=
  ((1 <=? year d) && (year d <=? 9999) && (1 <=? month d) && (month d <=? 12)
   && (1 <=? day d) && (day d <=? days_in_month (year d) (month d))
   && (hour d <? 24) && (minute d <? 60) && (second d <? 60)
   && (microsecond d <? 1000000))%N.

Definition obind {A B} (o : option A) (k : A -> option B) : option B :=
  match o with Some a => k a | None => None end.

Notation "x <-? o ; k" := (obind o (fun x => k))
  (at level 61, o at next level, right associativity).

(** [%f]: one to six digits, read as a fraction of a second. *)
Definition read_fraction (s : string) : option (N * string) :=
  match read_digits s 0 0 with
  | (v, len, rest) =>
      if (1 <=? len) && (len <=? 6)
      then Some ((v * 10 ^ N.of_nat (6 - len))%N, rest)
      else None
  end.

(** Timestamps of the shape [YYYY-MM-DD<sep>HH:MM:SS[.f][+0000]]. *)
Definition read_dt (sep : ascii) (frac zone : bool) (s : string) : option dt :=
  p <-? fixed_digits 4 s 0 ; let (y, s) := p in
  s <-? expect "-"%char s ;
  p <-? fixed_digits 2 s 0 ; let (mo, s) := p in
  s <-? expect "-"%char s ;
  p <-? fixed_digits 2 s 0 ; let (d, s) := p in
  s <-? expect sep s ;
  p <-? fixed_digits 2 s 0 ; let (h, s) := p in
  s <-? expect ":"%char s ;
  p <-? fixed_digits 2 s 0 ; let (mi, s) := p in
  s <-? expect ":"%char s ;
  p <-? fixed_digits 2 s 0 ; let (se, s) := p in
  p <-? (if frac then s <-? expect "."%char s ; read_fraction s else Some (0%N, s)) ;
  let (us, s) := p in
  s <-? (if zone
         then if String.eqb s "+0000" || String.eqb s "-0000"
              then Some EmptyString else None
         else Some s) ;
  let r := mkDt y mo d h mi se us in
  if is_empty s && valid_dt r then Some r else None.

Definition strptime (v fmt : string) : option dt :=
  if String.eqb fmt "%Y-%m-%dT%H:%M:%S%z" then read_dt "T"%char false true v
  else if String.eqb fmt "%Y-%m-%dT%H:%M:%S.%f%z" then read_dt "T"%char true true v
  else if String.eqb fmt "%Y-%m-%d %H:%M:%S%z" then read_dt " "%char false true v
  else if String.eqb fmt "%Y-%m-%d %H:%M:%S" then read_dt " "%char false false v
  else if String.eqb fmt "%Y-%m-%dT%H:%M:%S" then read_dt "T"%char false false v
  else None.

(** Of [datetime.fromisoformat], the date-only form. *)
Definition fromisoformat (s : string) : option dt :=
  p <-? fixed_digits 4 s 0 ; let (y, s) := p in
  s <-? expect "-"%char s ;
  p <-? fixed_digits 2 s 0 ; let (mo, s) := p in
  s <-? expect "-"%char s ;
  p <-? fixed_digits 2 s 0 ; let (d, s) := p in
  let r := mkDt y mo d 0 0 0 0 in
  if is_empty s && valid_dt r then Some r else None.

Definition isoformat (d : dt) : string :=
  let fraction :=
    if (microsecond d =? 0)%N then EmptyString
    else String "."%char (pad 6 (microsecond d)) in
  (pad 4 (year d) ++ "-" ++ pad 2 (month d) ++ "-" ++ pad 2 (day d) ++ "T"
   ++ pad 2 (hour d) ++ ":" ++ pad 2 (minute d) ++ ":" ++ pad 2 (second d)
   ++ fraction ++ "+00:00")%string.

Definition dt_key (d : dt) : list N :=
  [year d; month d; day d; hour d; minute d; second d; microsecond d].

Fixpoint lex_ltb (a b : list N) : bool :=
  match a, b with
  | x :: a', y :: b' => (x <? y)%N || ((x =? y)%N && lex_ltb a' b')
  | [], _ :: _ => true
  | _, [] => false
  end.

Definition dt_ltb (a b : dt) : bool := lex_ltb (dt_key a) (dt_key b).

(** *** float, as a reduced rational *)

Definition fadd (a b : Q) : Q := Qred (Qplus a b).
Definition fmul (a b : Q) : Q := Qred (Qmult a b).
Definition fdiv (a b : Q) : Q := Qred (Qdiv a b).
Definition fltb (a b : Q) : bool := negb (Qle_bool b a).
Definition float_of_Q (q : Q) : Q := Qred q.

Fixpoint fraction_digits (fuel : nat) (r d : N) : string :=
  match fuel with
  | 0 => EmptyString
  | S fuel' =>
      if (r =? 0)%N then EmptyString
      else String (digit_char ((10 * r) / d)) (fraction_digits fuel' ((10 * r) mod d)%N d)
  end.

(** [repr] of a float: sign, integer part, point, decimals. *)
Definition float_repr (q : Q) : string :=
  let q := Qred q in
  let n := Z.abs_N (Qnum q) in
  let d := Npos (Qden q) in
  let body :=
    (string_of_N (n / d) ++ "."
     ++ (if (n mod d =? 0)%N then "0" else fraction_digits 20 (n mod d) d))%string in
  if (Qnum q <? 0)%Z then String "-"%char body else body.

Definition int_repr (z : Z) : string :=
  if (z <? 0)%Z then String "-"%char (string_of_N (Z.abs_N z))
  else string_of_N (Z.abs_N z).

(** A JSON number without exponent: an [int], or a [float] when it has a
    fraction. *)
Definition read_number (s : string) : option (json * string) :=
  let (neg, s) :=
    match s with
    | String c s' => if Ascii.eqb c "-"%char then (true, s') else (false, s)
    | EmptyString => (false, s)
    end in
  match read_digits s 0 0 with
  | (i, ilen, rest) =>
      let leading_zero :=
        match s with
        | String c _ => Ascii.eqb c "0"%char && (2 <=? ilen)
        | EmptyString => false
        end in
      if (ilen =? 0) || leading_zero then None
      else
        let sign (z : Z) : Z := if neg then Z.opp z else z in
        match rest with
        | String c rest' =>
            if Ascii.eqb c "."%char then
              match read_digits rest' 0 0 with
              | (f, flen, rest'') =>
                  let exponent :=
                    match rest'' with
                    | String x _ => Ascii.eqb x "e"%char || Ascii.eqb x "E"%char
                    | EmptyString => false
                    end in
                  if (flen =? 0) || exponent then None
                  else
                    let scale := (10 ^ N.of_nat flen)%N in
                    Some (JFloat (Qred (Qmake (sign (Z.of_N (i * scale + f)))
                                              (N.succ_pos (N.pred scale)))),
                          rest'')
              end
            else if Ascii.eqb c "e"%char || Ascii.eqb c "E"%char then None
            else Some (JInt (sign (Z.of_N i)), rest)
        | EmptyString => Some (JInt (sign (Z.of_N i)), rest)
        end
  end.

(** [float(s)] *)
Definition float_of_string (s : string) : option Q :=
  match read_number (strip s) with
  | Some (JFloat q, EmptyString) => Some q
  | Some (JInt z, EmptyString) => Some (inject_Z z)
  | _ => None
  end.

(** *** json *)

Definition DQ : ascii := ascii_of_nat 34.
Definition BS : ascii := ascii_of_nat 92.

Definition hex_char (n : N) : ascii :=
  if (n <? 10)%N then ascii_of_N (48 + n) else ascii_of_N (87 + n).

Definition hex_val (c : ascii) : option N :=
  let n := N_of_ascii c in
  if ((48 <=? n) && (n <=? 57))%N then Some (n - 48)%N
  else if ((97 <=? n) && (n <=? 102))%N then Some (n - 87)%N
  else if ((65 <=? n) && (n <=? 70))%N then Some (n - 55)%N
  else None.

Definition escape_char (c : ascii) : string :=
  let n := N_of_ascii c in
  if Ascii.eqb c DQ then String BS (String DQ EmptyString)
  else if Ascii.eqb c BS then String BS (String BS EmptyString)
  else if (n =? 10)%N then String BS "n"
  else if (n =? 13)%N then String BS "r"
  else if (n =? 9)%N then String BS "t"
  else if (n =? 8)%N then String BS "b"
  else if (n =? 12)%N then String BS "f"
  else if ((n <? 32) || (127 <? n))%N
  then String BS (String "u"%char (String "0"%char (String "0"%char
         (String (hex_char (n / 16)) (String (hex_char (n mod 16)) EmptyString)))))
  else String c EmptyString.

Fixpoint escape (s : string) : string :=
  match s with
  | EmptyString => EmptyString
  | String c s' => (escape_char c ++ escape s')%string
  end.

Definition quote (s : string) : string :=
  String DQ (escape s ++ String DQ EmptyString)%string.

Fixpoint join (sep : string) (l : list string) : string :=
  match l with
  | [] => EmptyString
  | [x] => x
  | x :: rest => (x ++ sep ++ join sep rest)%string
  end.

Fixpoint json_dumps (j : json) : string :=
  match j with
  | JNull => "null"
  | JBool true => "true"
  | JBool false => "false"
  | JInt z => int_repr z
  | JFloat q => float_repr q
  | JStr s => quote s
  | JList l => ("[" ++ join ", " (map json_dumps l) ++ "]")%string
  | JDict kv =>
      ("{" ++ join ", " (map (fun p => (quote (fst p) ++ ": " ++ json_dumps (snd p))%string) kv)
       ++ "}")%string
  end.

Definition is_json_ws (c : ascii) : bool :=
  let n := nat_of_ascii c in
  (n =? 32) || (n =? 9) || (n =? 10) || (n =? 13).

Fixpoint skip_ws (s : string) : string :=
  match s with
  | String c s' => if is_json_ws c then skip_ws s' else s
  | EmptyString => EmptyString
  end.

(** The characters of a string literal after its opening quote, up to and
    without the closing quote. *)
Fixpoint read_string (fuel : nat) (s : string) : option (string * string) :=
  match fuel with
  | 0 => None
  | S fuel' =>
      match s with
      | EmptyString => None
      | String c s' =>
          if Ascii.eqb c DQ then Some (EmptyString, s')
          else if Ascii.eqb c BS then
            match s' with
            | EmptyString => None
            | String e s'' =>
                let plain (x : ascii) :=
                  p <-? read_string fuel' s'' ; Some (String x (fst p), snd p) in
                if Ascii.eqb e DQ then plain DQ
                else if Ascii.eqb e BS then plain BS
                else if Ascii.eqb e "/"%char then plain "/"%char
                else if Ascii.eqb e "n"%char then plain LF
                else if Ascii.eqb e "r"%char then plain CR
                else if Ascii.eqb e "t"%char then plain (ascii_of_nat 9)
                else if Ascii.eqb e "b"%char then plain (ascii_of_nat 8)
                else if Ascii.eqb e "f"%char then plain (ascii_of_nat 12)
                else if Ascii.eqb e "u"%char then
                  match s'' with
                  | String h1 (String h2 (String h3 (String h4 r))) =>
                      a <-? hex_val h1 ; b <-? hex_val h2 ;
                      c3 <-? hex_val h3 ; d <-? hex_val h4 ;
                      if ((a =? 0) && (b =? 0))%N then
                        p <-? read_string fuel' r ;
                        Some (String (ascii_of_N (16 * c3 + d)) (fst p), snd p)
                      else None
                  | _ => None
                  end
                else None
            end
          else if (nat_of_ascii c <? 32) || (127 <? nat_of_ascii c) then None
          else p <-? read_string fuel' s' ; Some (String c (fst p), snd p)
      end
  end.

(** [d[k] = v] on a dict kept in insertion order *)
Fixpoint dict_set (k : string) (v : json) (kv : list (string * json))
  : list (string * json) :=
  match kv with
  | [] => [(k, v)]
  | (k', v') :: rest =>
      if String.eqb k' k then (k', v) :: rest else (k', v') :: dict_set k v rest
  end.

Fixpoint read_value (fuel : nat) (s : string) : option (json * string) :=
  match fuel with
  | 0 => None
  | S fuel' =>
      match skip_ws s with
      | EmptyString => None
      | String c s' =>
          if Ascii.eqb c "{"%char then
            match skip_ws s' with
            | String c' r =>
                if Ascii.eqb c' "}"%char then Some (JDict [], r)
                else read_members fuel' (String c' r) []
            | EmptyString => None
            end
          else if Ascii.eqb c "["%char then
            match skip_ws s' with
            | String c' r =>
                if Ascii.eqb c' "]"%char then Some (JList [], r)
                else read_elements fuel' (String c' r) []
            | EmptyString => None
            end
          else if Ascii.eqb c DQ then
            p <-? read_string (S (String.length s')) s' ; Some (JStr (fst p), snd p)
          else if prefix "true" (String c s') then Some (JBool true, drop 4 (String c s'))
          else if prefix "false" (String c s') then Some (JBool false, drop 5 (String c s'))
          else if prefix "null" (String c s') then Some (JNull, drop 4 (String c s'))
          else read_number (String c s')
      end
  end
with read_elements (fuel : nat) (s : string) (acc : list json) : option (json * string) :=
  match fuel with
  | 0 => None
  | S fuel' =>
      p <-? read_value fuel' s ;
      match skip_ws (snd p) with
      | String c r =>
          if Ascii.eqb c ","%char then read_elements fuel' r (fst p :: acc)
          else if Ascii.eqb c "]"%char then Some (JList (rev (fst p :: acc)), r)
          else None
      | EmptyString => None
      end
  end
with read_members (fuel : nat) (s : string) (acc : list (string * json))
  : option (json * string) :=
  match fuel with
  | 0 => None
  | S fuel' =>
      match skip_ws s with
      | String q s1 =>
          if Ascii.eqb q DQ then
            k <-? read_string (S (String.length s1)) s1 ;
            match skip_ws (snd k) with
            | String c s2 =>
                if Ascii.eqb c ":"%char then
                  p <-? read_value fuel' s2 ;
                  let acc' := dict_set (fst k) (fst p) acc in
                  match skip_ws (snd p) with
                  | String c' r =>
                      if Ascii.eqb c' ","%char then read_members fuel' r acc'
                      else if Ascii.eqb c' "}"%char then Some (JDict acc', r)
                      else None
                  | EmptyString => None
                  end
                else None
            | EmptyString => None
            end
          else None
      | EmptyString => None
      end
  end.

Definition json_loads (s : string) : option json :=
  match read_value (S (String.length s)) s with
  | Some (j, rest) => if is_empty (skip_ws rest) then Some j else None
  | None => None
  end.

(** [str(x)] of a value that is not a [str]; for a list or a dict the
    JSON text stands in for Python's own rendering. *)
Definition py_repr (j : json) : string :=
  match j with
  | JNull => "None"
  | JBool true => "True"
  | JBool false => "False"
  | _ => json_dumps j
  end.

#[export] Instance lib : PyLib :=
  @Build_PyLib data json_loads json_dumps py_repr float_of_Q float_of_string
              fadd fmul fdiv fltb strptime fromisoformat isoformat dt_ltb.

(** Writes a JSON text with ['] for the double quote. *)
Fixpoint q (s : string) : string :=
  match s with
  | EmptyString => EmptyString
  | String c s' => String (if Ascii.eqb c "'"%char then DQ else c) (q s')
  end.

End Ref.

(** * Vocabulary of the properties *)

Fixpoint all_chars (p : ascii -> bool) (s : string) : bool :=
  match s with
  | EmptyString => true
  | String c s' => p c && all_chars p s'
  end.

Definition starts_tight (s : string) : bool :=
  match s with
  | String c _ => negb (isspace c)
  | EmptyString => false
  end.

Definition ends_tight (s : string) : bool :=
  match last_char s with
  | Some c => negb (isspace c)
  | None => false
  end.

(** A text that fills exactly one line of the Log: not empty, no line
    break inside, no white space at either end. *)
Definition one_line (s : string) : bool :=
  starts_tight s && ends_tight s && all_chars (fun c => negb (is_newline c)) s.

(** A Log that is empty or ends with a line feed. *)
Definition closed (s : string) : bool :=
  is_empty s || endswith_char s LF.

(** Plain text: ASCII, every carriage return followed by a line feed.  On
    such text reading the bytes is reading the characters, and [fp.tell()]
    is a byte position. *)
Fixpoint plain (s : string) : bool :=
  match s with
  | EmptyString => true
  | String c s' =>
      (nat_of_ascii c <? 128)
      && (if Ascii.eqb c CR
          then match s' with String c' _ => Ascii.eqb c' LF | EmptyString => false end
          else true)
      && plain s'
  end.


Definition update_log `{PyData} (st : state) (f : option (file string)) : state :=
  mkState f (idx_file st) (_index st) (_index_loaded st) (logged st) (idx_seen st).

(** A new store object on the files of [st]. *)
Definition reopen `{PyData} (st : state) : state := IndexedJsonlStore.init st.

Section Vocabulary.
Context `{L : PyLib}.

(** A record the interpreter's libraries carry through a line of the Log:
    [json.dumps] writes it on one line, [json.loads] reads that line back
    and [parse_timestamp] reads back the timestamp [isoformat] wrote. *)
Definition storable (r : EmissionRecord) : Prop :=
  one_line (json_dumps (record_obj r)) = true
  /\ json_loads (json_dumps (record_obj r)) = Some (record_obj r)
  /\ parse_timestamp (isoformat (timestamp r)) = Ok (timestamp r).

(** The record as a reader rebuilds it from its line: the four fields of
    the line, the reader's source tag, no [meta]. *)
Definition as_read (src : string) (r : EmissionRecord) : EmissionRecord :=
  mkEmissionRecord (timestamp r) (site_id r) (region_id r)
                   (emission_rate_kg_per_h r) src None.

(** The lines of a sequence of records, one after the other. *)
Fixpoint serialize (rs : list EmissionRecord) : string :=
  match rs with
  | [] => EmptyString
  | r :: rest => (record_line r ++ serialize rest)%string
  end.

(** The index entries [append] makes for records written from byte [pos] on. *)
Fixpoint entries_from (pos : nat) (rs : list EmissionRecord) : list IndexEntry :=
  match rs with
  | [] => []
  | r :: rest =>
      mkIndexEntry pos (String.length (record_line r)) (timestamp r)
                   (site_id r) (region_id r)
      :: entries_from (pos + String.length (record_line r)) rest
  end.

(** How the index decoder fares on the line read at [fst p]. *)
Definition line_entry (p : nat * string) : result IndexEntry :=
  entry_of_line (fst p) (strip (snd p)).

Definition blank (p : nat * string) : bool := is_empty (strip (snd p)).

(** How a reader fares on the line read at [fst p]; the two readers differ
    in the source tag they give the record only. *)
Definition line_record (p : nat * string) : result EmissionRecord :=
  record_of_line "jsonl" (strip (snd p)).

(** A well-formed line: not blank, and a reader decodes it into a record. *)
Definition well_formed (p : nat * string) : bool :=
  negb (blank p) && match line_record p with Ok _ => true | Raise _ => false end.

(** A line [_rebuild_index] gives an entry: not blank, and the index
    decoder accepts it.  The index decoder reads the timestamp, the site
    and the region only, so a line can be indexed and not be well-formed. *)
Definition indexed (p : nat * string) : bool :=
  negb (blank p) && match line_entry p with Ok _ => true | Raise _ => false end.

(** A line [_rebuild_index] steps over with a warning. *)
Definition skipped (p : nat * string) : bool :=
  negb (blank p)
  && match line_entry p with Ok _ => false | Raise e => caught_by_rebuild e end.

(** A line of a regular Log: blank, well-formed, or skipped by the rebuild. *)
Definition regular (p : nat * string) : bool :=
  blank p || well_formed p || skipped p.

(** A line [_rebuild_index] steps over: blank, accepted by its decoder, or
    failing with an exception its per-line handler names. *)
Definition passable (p : nat * string) : bool :=
  blank p || match line_entry p with Ok _ => true | Raise e => caught_by_rebuild e end.

Definition log_lines (fp : string) : list (nat * string) :=
  with_tell 0 (split_lines fp).

(** The byte offsets of the well-formed lines of a Log, in physical order. *)
Definition well_formed_offsets (fp : string) : list nat :=
  map fst (filter well_formed (log_lines fp)).

(** The entries [_rebuild_index] makes of the lines of a Log, in physical
    order: one for each line that is not blank and that its decoder
    accepts. *)
Fixpoint entries_of (ps : list (nat * string)) : list IndexEntry :=
  match ps with
  | [] => []
  | p :: rest =>
      if blank p then entries_of rest
      else match line_entry p with
           | Ok e => e :: entries_of rest
           | Raise _ => entries_of rest
           end
  end.

(** The index lists the well-formed lines of the Log: same offsets, same
    order, hence the same number. *)
Definition corresponds (fp : string) (idx : list IndexEntry) : Prop :=
  map ie_offset idx = well_formed_offsets fp.

(** The warnings [_rebuild_index] logs on lines it steps over. *)
Fixpoint warnings_of (ps : list (nat * string)) : list event :=
  match ps with
  | [] => []
  | p :: rest =>
      if blank p then warnings_of rest
      else match line_entry p with
           | Ok _ => warnings_of rest
           | Raise e =>
               Log WARNING "Skipping malformed line in JSONL" (Some (fst p)) (Some e)
               :: warnings_of rest
           end
  end.

(** The entry that stands for the record [r] a reader decodes from the
    line [p]: where the line starts, how long it is once stripped, and the
    timestamp, site and region of [r]. *)
Definition entry_of_record (p : nat * string) (r : EmissionRecord) : IndexEntry :=
  mkIndexEntry (fst p) (String.length (strip (snd p)))
               (timestamp r) (site_id r) (region_id r).

(** The entries of the records a reader decodes from the lines of a Log,
    in physical order. *)
Fixpoint records_index (ps : list (nat * string)) : list IndexEntry :=
  match ps with
  | [] => []
  | p :: rest =>
      if blank p then records_index rest
      else match line_record p with
           | Ok r => entry_of_record p r :: records_index rest
           | Raise _ => records_index rest
           end
  end.

(** A line no reader decodes: not blank and not well-formed. *)
Definition unread (p : nat * string) : bool := negb (blank p) && negb (well_formed p).

(** [w] is the warning of [_rebuild_index] on the line [p]. *)
Definition warns_of (w : event) (p : nat * string) : Prop :=
  exists e, caught_by_rebuild e = true
            /\ w = Log WARNING "Skipping malformed line in JSONL" (Some (fst p)) (Some e).

(** The index [_rebuild_index] leaves in memory: the entries of the lines
    its decoder accepts when the Log can be read and every line is
    passable, the empty index otherwise. *)
Definition rebuilt_index (st : state) : list IndexEntry :=
  match log_file st with
  | Some f =>
      if readable f && forallb passable (log_lines (content f))
      then entries_of (log_lines (content f))
      else []
  | None => []
  end.

Definition sidecar_writable (st : state) : bool :=
  match idx_file st with
  | Some f => writable f
  | None => true
  end.

Definition sidecar_content (st : state) : option blob :=
  match idx_file st with
  | Some f => Some (content f)
  | None => None
  end.

(** Two states that differ at most in the messages logged. *)
Definition same_but_logged (st st' : state) : Prop :=
  log_file st' = log_file st /\ idx_file st' = idx_file st
  /\ _index st' = _index st /\ _index_loaded st' = _index_loaded st
  /\ idx_seen st' = idx_seen st.

Definition log_content (st : state) : string :=
  match log_file st with
  | Some f => content f
  | None => EmptyString
  end.

(** The state [_save_index] leaves: the sidecar truncated, then holding the
    whole index, when it can be opened for writing; an error logged otherwise. *)
Definition saved (st : state) : state :=
  let idx := _index st in
  let done := Log DEBUG "Saved index" (Some (List.length idx)) None in
  match idx_file st with
  | None =>
      mkState (log_file st) (Some (mkFile (Pickled idx) true true)) idx
              (_index_loaded st) (logged st ++ [done])
              ((idx_seen st ++ [Truncated]) ++ [Pickled idx])
  | Some f =>
      if writable f then
        mkState (log_file st) (Some (mkFile (Pickled idx) (readable f) (writable f))) idx
                (_index_loaded st) (logged st ++ [done])
                ((idx_seen st ++ [Truncated]) ++ [Pickled idx])
      else
        mkState (log_file st) (idx_file st) idx (_index_loaded st)
                (logged st ++ [Log ERROR "Failed to save index" None (Some PermissionError)])
                (idx_seen st)
  end.

(** The sidecar is there, can be read and holds a pickled index. *)
Definition sidecar_pickled (st : state) : bool :=
  match idx_file st with
  | Some f => readable f && match content f with Pickled _ => true | _ => false end
  | None => false
  end.

(** [_load_index] has nothing to rebuild: the index is in memory already,
    or the sidecar gives it. *)
Definition sidecar_loads (st : state) : bool :=
  _index_loaded st || sidecar_pickled st.

(** The index a store has in memory once [_load_index] has run. *)
Definition loaded_index (st : state) : list IndexEntry :=
  if _index_loaded st then _index st
  else
    match idx_file st with
    | Some f =>
        if readable f then
          match content f with
          | Pickled l => l
          | _ => rebuilt_index st
          end
        else rebuilt_index st
    | None => rebuilt_index st
    end.

Definition log_writable (st : state) : bool :=
  match log_file st with
  | Some f => writable f
  | None => true
  end.

Definition log_readable (st : state) : bool :=
  match log_file st with
  | Some f => readable f
  | None => false
  end.

(** The Log after [records] have been appended to it. *)
Definition appended_log (st : state) (records : list EmissionRecord) : file string :=
  match log_file st with
  | Some f => mkFile (content f ++ serialize records)%string (readable f) (writable f)
  | None => mkFile (serialize records) true true
  end.

(** What [_read_records_by_offsets] keeps of one offset: the record on the
    line there, or nothing when the line is blank or its exception is one
    the per-record handler names. *)
Definition record_at (fp : string) (offset : nat) : option EmissionRecord :=
  let line := strip (readline_at fp offset) in
  if is_empty line then None
  else match record_of_line "indexed_jsonl" line with
       | Ok r => Some r
       | Raise _ => None
       end.

(** An offset whose line raises past the per-record handler. *)
Definition fatal_at (fp : string) (offset : nat) : bool :=
  let line := strip (readline_at fp offset) in
  if is_empty line then false
  else match record_of_line "indexed_jsonl" line with
       | Ok _ => false
       | Raise e => negb (caught_by_read e)
       end.

Fixpoint omap {A B} (f : A -> option B) (l : list A) : list B :=
  match l with
  | [] => []
  | x :: rest =>
      match f x with
      | Some y => y :: omap f rest
      | None => omap f rest
      end
  end.






(** The exception of [open] on a Log that cannot be read. *)
Definition open_failure (st : state) : exn :=
  match log_file st with
  | Some _ => PermissionError
  | None => FileNotFoundError
  end.

(** What [_read_records_by_offsets] logs on a Log it cannot open: nothing
    when it is asked for no offset - it does not open the Log then - and
    the error of [open] otherwise. *)
Definition failed_read (st : state) (offsets : list nat) : list event :=
  match offsets with
  | [] => []
  | _ => [Log ERROR "Failed to read records by offsets"
              (Some (List.length offsets)) (Some (open_failure st))]
  end.

(** The entries [tail(n)] reads. *)
Definition tail_entries (n : Z) (idx : list IndexEntry) : list IndexEntry :=
  if (n <=? Z.of_nat (List.length idx))%Z then slice_from (- n) idx else idx.

End Vocabulary.

(** A save no reader of the sidecar path could catch half-way: whatever
    the path holds from the start of [_save_index] on is the whole new
    index, or what was there before. *)
Definition atomic_save `{PyLib} (st : state) : Prop :=
  forall b,
    In b (skipn (List.length (idx_seen st))
                (idx_seen (snd (IndexedJsonlStore._save_index st)))) ->
    b = Pickled (_index st) \/ sidecar_content st = Some b.

(** The non-blank physical lines of a Log, in physical order. *)
Definition nonblank_lines (fp : string) : list string :=
  filter (fun l => negb (is_empty (strip l))) (split_lines fp).

(** * Concrete stores

    Files and records of the size the repository's tests use, run on the
    reference runtime. *)

Module Demo.
Import Ref.

(** A path at which neither the Log nor the sidecar exists yet. *)
Definition no_files : state := mkState None None [] false [] [].

Definition at_hour (h : N) : dt := mkDt 2023 1 1 h 0 0 0.

Definition r1 : EmissionRecord :=
  mkEmissionRecord (at_hour 12) "site-1" "region-1" (5 # 1)%Q "test" None.
Definition r2 : EmissionRecord :=
  mkEmissionRecord (at_hour 13) "site-2" "region-2" (6 # 1)%Q "test" None.
Definition r3 : EmissionRecord :=
  mkEmissionRecord (at_hour 14) "site-1" "region-3" (7 # 1)%Q "test" None.

Definition records : list EmissionRecord := [r1; r2; r3].

(** [store = IndexedJsonlStore(path); store.append(records)] *)
Definition store3 : state :=
  snd (IndexedJsonlStore.append records (IndexedJsonlStore.init no_files)).

(** [store = JsonlStore(path); store.append(records)] *)
Definition plain3 : state :=
  snd (JsonlStore.append records (JsonlStore.init no_files)).

Fixpoint text (lines : list string) : string :=
  match lines with
  | [] => EmptyString
  | l :: rest => (l ++ String LF (text rest))%string
  end.

Definition good_12 : string :=
  q "{'timestamp': '2023-01-01T12:00:00Z', 'site_id': 'site-1', 'region_id': 'region-1', 'emission_rate_kg_per_h': 5.0}".
Definition good_13 : string :=
  q "{'timestamp': '2023-01-01T13:00:00Z', 'site_id': 'site-2', 'region_id': 'region-2', 'emission_rate_kg_per_h': 6.0}".
Definition bad_timestamp : string :=
  q "{'timestamp': 'yesterday noon', 'site_id': 'site-2', 'region_id': 'region-2', 'emission_rate_kg_per_h': 6.0}".

Definition on_log (fp : string) : state :=
  mkState (Some (fresh_file fp)) None [] false [] [].

(** The Log of [test_malformed_jsonl_handling]. *)
Definition malformed : state := on_log (text [good_12; "invalid json line"; good_13]).

(** A Log whose second line is valid JSON with a timestamp no format reads. *)
Definition unparsable : state := on_log (text [good_12; bad_timestamp; good_13]).

(** [store3] after [chmod a-r] on the Log, seen from a new store object. *)
Definition unreadable : state :=
  reopen (update_log store3 (Some (mkFile (log_content store3) false true))).

Definition chmod_sidecar (w : bool) (st : state) : state :=
  mkState (log_file st)
          (match idx_file st with
           | Some f => Some (mkFile (content f) (readable f) w)
           | None => None
           end)
          (_index st) (_index_loaded st) (logged st) (idx_seen st).

(** [append([r1])], then the sidecar made read-only, then [append([r2])]
    on the same store object. *)
Definition after_failed_save : state :=
  let st1 := snd (IndexedJsonlStore.append [r1] (IndexedJsonlStore.init no_files)) in
  snd (IndexedJsonlStore.append [r2] (chmod_sidecar false st1)).


(** Two store objects on one path, used one after the other:
    [a = IndexedJsonlStore(path); a.append([r1])], then
    [b = IndexedJsonlStore(path); b.append([r2])], then [a.append([r3])]. *)
Definition first_store : state :=
  snd (IndexedJsonlStore.append [r1] (IndexedJsonlStore.init no_files)).

Definition rates (r : result (list EmissionRecord)) : list Q :=
  match r with
  | Ok rs => map emission_rate_kg_per_h rs
  | Raise _ => []
  end.

End Demo.

(** * Vocabulary of the further properties *)

(** The fields of an index entry the queries filter on. *)
Definition entry_fields `{PyData} (e : IndexEntry) : datetime * (string * string) :=
  (ie_timestamp e, (ie_site_id e, ie_region_id e)).

(** What a query uses of an index entry: where the line starts, and the
    fields it filters on.  [ie_length] is never read. *)
Definition entry_key `{PyData} (e : IndexEntry) : nat * (datetime * (string * string)) :=
  (ie_offset e, entry_fields e).

Definition record_fields `{PyData} (r : EmissionRecord) : datetime * (string * string) :=
  (timestamp r, (site_id r, region_id r)).

(** The entry [_rebuild_index] makes where [append] made [e]: the line
    measured without its line feed. *)
Definition shorten `{PyData} (e : IndexEntry) : IndexEntry :=
  mkIndexEntry (ie_offset e) (ie_length e - 1) (ie_timestamp e)
               (ie_site_id e) (ie_region_id e).

(** The list a query returned, empty when it raised. *)
Definition results {A} (r : result (list A)) : list A :=
  match r with
  | Ok l => l
  | Raise _ => []
  end.

Definition isdigit (c : ascii) : bool :=
  let n := nat_of_ascii c in (48 <=? n) && (n <=? 57).

Definition is_sign (c : ascii) : bool :=
  Ascii.eqb c "+"%char || Ascii.eqb c "-"%char.

Section FurtherVocabulary.
Context `{L : PyLib}.

(** The index lists the records [rs]: entry by entry the offset and the
    fields [append] would have given them in an empty Log. *)
Definition indexes (idx : list IndexEntry) (rs : list EmissionRecord) : Prop :=
  map entry_key idx = map entry_key (entries_from 0 rs).

(** A store that holds the storable records [rs]: its Log is their lines
    and can be read, and the index it has, or will load, lists them. *)
Definition holds (st : state) (rs : list EmissionRecord) : Prop :=
  indexes (loaded_index st) rs
  /\ log_content st = serialize rs
  /\ log_readable st = true
  /\ Forall storable rs.

(** The string [parse_timestamp] hands to [strptime]: [value] stripped,
    a final [Z] spelled [+0000], the colon of a final [+hh:mm] removed. *)
Definition normalised (value : string) : string :=
  let v := strip value in
  let v := if endswith_char v "Z"%char then (drop_last 1 v ++ "+0000")%string else v in
  if (6 <=? String.length v)
     && (is_char ":"%char (char_from_end 3 v)
         && (is_char "+"%char (char_from_end 6 v)
             || is_char "-"%char (char_from_end 6 v)))
  then (drop_last 3 v ++ take_last 2 v)%string
  else v.

End FurtherVocabulary.

Section FurtherVocabularyOfQueries.
Context `{L : PyLib}.

(** The half-open range of [query_time_range] in words: not before
    [start], and before [end_]; a bound that is [None] does not bind. *)
Definition within (start end_ : option datetime) (t : datetime) : bool :=
  match start with Some s => negb (dt_ltb t s) | None => true end
  && match end_ with Some e => dt_ltb t e | None => true end.

End FurtherVocabularyOfQueries.

(** The bytes of the Log an index entry claims: [ie_length] bytes from
    [ie_offset] on. *)
Definition span `{PyData} (fp : string) (e : IndexEntry) : string :=
  substring (ie_offset e) (ie_length e) fp.

(** [_index_loaded] set, as the [finally] of [_load_index] leaves it. *)
Definition mark_loaded `{PyData} (st : state) : state :=
  mkState (log_file st) (idx_file st) (_index st) true (logged st) (idx_seen st).

(** The sidecar is absent, or can be both read and written. *)
Definition sidecar_open `{PyData} (st : state) : bool :=
  match idx_file st with
  | Some f => readable f && writable f
  | None => true
  end.

(** * Further concrete stores *)

Module Cases.
Import Ref.

(** The files of [Demo.store3] after the sidecar has been overwritten with
    bytes that are not a pickle. *)
Definition garbled : state :=
  mkState (log_file Demo.store3) (Some (fresh_file Garbage)) [] false [] [].

(** A new store object on a Log that holds three records and has been
    made unreadable, with no sidecar. *)
Definition locked : state :=
  mkState (Some (mkFile (log_content Demo.store3) false true)) None [] false [] [].

(** The same Log, readable again. *)
Definition unlocked : option (file string) :=
  Some (fresh_file (log_content Demo.store3)).

(** A store object on a Log that cannot be opened for writing. *)
Definition read_only : state :=
  mkState (Some (mkFile (log_content Demo.store3) true false)) None [] false [] [].

(** A line whose rate is [null]: [float(None)] raises [TypeError]. *)
Definition null_rate : string :=
  q "{'timestamp': '2023-01-01T12:30:00Z', 'site_id': 'site-2', 'region_id': 'region-2', 'emission_rate_kg_per_h': null}".

Definition with_null : state :=
  Demo.on_log (Demo.text [Demo.good_12; null_rate; Demo.good_13]).

(** A line with a timestamp, a site and a region, and no rate. *)
Definition no_rate : string :=
  q "{'timestamp': '2023-01-01T12:30:00Z', 'site_id': 'site-2', 'region_id': 'region-2'}".

Definition with_no_rate : state :=
  Demo.on_log (Demo.text [Demo.good_12; no_rate; Demo.good_13]).

(** A line in the value/unit form. *)
Definition legacy : string :=
  q "{'timestamp': '2023-01-01T12:30:00Z', 'site_id': 'site-9', 'region_id': 'region-1', 'value': 2000.0, 'unit': 'g/h'}".

(** A Log nobody appended to: a line ended by CR LF, a blank line, a
    line in the value/unit form, an indented line. *)
Definition mixed : state :=
  Demo.on_log (Demo.good_12 ++ String CR (String LF EmptyString)
               ++ String LF EmptyString
               ++ legacy ++ String LF EmptyString
               ++ "  " ++ Demo.good_13 ++ String LF EmptyString).

Definition mixed_records : list EmissionRecord :=
  [ mkEmissionRecord (Demo.at_hour 12) "site-1" "region-1" (5 # 1)%Q "jsonl" None;
    mkEmissionRecord (mkDt 2023 1 1 12 30 0 0) "site-9" "region-1" (2 # 1)%Q "jsonl" None;
    mkEmissionRecord (Demo.at_hour 13) "site-2" "region-2" (6 # 1)%Q "jsonl" None ].

End Cases.

Section FurtherVocabularyOfScans.
Context `{L : PyLib}.

(** The index entry [e] stands for the record [r] of the Log [fp]: the
    line at its offset reads as [r], and its fields are those of [r]. *)
Definition reads_as (fp : string) (e : IndexEntry) (r : EmissionRecord) : Prop :=
  record_at fp (ie_offset e) = Some (as_read "indexed_jsonl" r)
  /\ fatal_at fp (ie_offset e) = false
  /\ entry_fields e = record_fields r.

End FurtherVocabularyOfScans.

(** A UTC offset as [%z] reads it, [+hhmm], and with the colon of ISO 8601,
    [+hh:mm]. *)
Definition tz_plain (s h1 h2 m1 m2 : ascii) : string :=
  String s (String h1 (String h2 (String m1 (String m2 EmptyString)))).

Definition tz_colon (s h1 h2 m1 m2 : ascii) : string :=
  String s (String h1 (String h2 (String ":"%char (String m1 (String m2 EmptyString))))).

(** * persistence/store.py *)

(** [InMemoryStore]: the attribute [_records] is the state; a method
    returns its result and the new [_records]. *)
Module InMemoryStore.
Section Methods.
Context `{L : PyLib}.

Definition init : list EmissionRecord := [].

Definition append (records : list EmissionRecord) (_records : list EmissionRecord)
  : nat * list EmissionRecord :=
  let n0 := List.length _records in
  let _records := _records ++ records in
  (List.length _records - n0, _records).

Definition all (_records : list EmissionRecord) : list EmissionRecord := _records.

Definition tail (n : Z) (_records : list EmissionRecord) : list EmissionRecord :=
  slice_from (- n) _records.

Definition summary (_records : list EmissionRecord) : Summary := summary_of _records.

(** [asdict(r)], with the timestamp replaced by its ISO text. *)
Definition to_dicts (_records : list EmissionRecord) : list json :=
  map (fun r =>
         JDict [ ("timestamp", JStr (isoformat (timestamp r)));
                 ("site_id", JStr (site_id r));
                 ("region_id", JStr (region_id r));
                 ("emission_rate_kg_per_h", JFloat (emission_rate_kg_per_h r));
                 ("source", JStr (source r));
                 ("meta", match meta r with Some m => m | None => JNull end) ])
      _records.

Definition in_range (start end_ : option datetime) (t : datetime) : bool :=
  match start with
  | Some s => if dt_ltb t s then false else
      match end_ with
      | Some e => if negb (dt_ltb t e) then false else true
      | None => true
      end
  | None =>
      match end_ with
      | Some e => if negb (dt_ltb t e) then false else true
      | None => true
      end
  end.

Definition query_time_range (start end_ : option datetime)
           (_records : list EmissionRecord) : list EmissionRecord :=
  filter (fun r => in_range start end_ (timestamp r)) _records.

End Methods.
End InMemoryStore.

Section Clients.
Context `{L : PyLib}.
Local Open Scope M_scope.

(** [[store.append(b) for b in batches]] on an [IndexedJsonlStore] *)
Fixpoint append_each (batches : list (list EmissionRecord)) : M (list nat) :=
  match batches with
  | [] => ret []
  | b :: rest =>
      n <- IndexedJsonlStore.append b ;;
      ns <- append_each rest ;;
      ret (n :: ns)
  end.

(** [[store.append(b) for b in batches]] on an [InMemoryStore] *)
Fixpoint append_each_in_memory (batches : list (list EmissionRecord))
         (_records : list EmissionRecord) : list nat * list EmissionRecord :=
  match batches with
  | [] => ([], _records)
  | b :: rest =>
      let (n, _records) := InMemoryStore.append b _records in
      let (ns, _records) := append_each_in_memory rest _records in
      (n :: ns, _records)
  end.

End Clients.

(** * core/timeutil.py: windows *)

(** The interpreter's clock: [datetime.timestamp] and
    [datetime.fromtimestamp]. *)
Class PyClock `{PyData} : Type := {
  (** [int(dt.timestamp())] of an aware [datetime]: the float of the
      seconds since the epoch, cut off towards zero *)
  epoch_of : datetime -> Z;
  (** [datetime.fromtimestamp(z, tz=timezone.utc)] for an [int]; [None]
      stands for the [ValueError], [OverflowError] or [OSError] of a
      second that falls outside the years 1 to 9999 *)
  fromtimestamp : Z -> option datetime
}.

(** What [floor_to_window] raises: [epoch % 0], and what [fromtimestamp]
    raises for a second that is no [datetime]. *)
Inductive window_exn : Type :=
| ZeroDivisionError
| OutOfRange.

Section Windows.
Context `{D : PyData} `{C : @PyClock D}.

(** [floor_to_window(dt, seconds)].  Python's [%] takes the sign of the
    divisor, as [Z.modulo] does. *)
Definition floor_to_window (dt : datetime) (seconds : Z) : datetime + window_exn :=
  let epoch := epoch_of dt in
  if (seconds =? 0)%Z then inr ZeroDivisionError
  else
    let floored := (epoch - epoch mod seconds)%Z in
    match fromtimestamp floored with
    | Some w => inl w
    | None => inr OutOfRange
    end.

End Windows.

(** The clock of the reference runtime, by the proleptic Gregorian
    calendar. *)
Module RefClock.
Import Ref.
Local Open Scope Z_scope.

Definition days_from_civil (y m d : Z) : Z :=
  let y := if m <=? 2 then y - 1 else y in
  let era := y / 400 in
  let yoe := y - era * 400 in
  let mp := (m + 9) mod 12 in
  let doy := (153 * mp + 2) / 5 + d - 1 in
  let doe := yoe * 365 + yoe / 4 - yoe / 100 + doy in
  era * 146097 + doe - 719468.

Definition civil_from_days (z : Z) : Z * Z * Z :=
  let z := z + 719468 in
  let era := z / 146097 in
  let doe := z - era * 146097 in
  let yoe := (doe - doe / 1460 + doe / 36524 - doe / 146096) / 365 in
  let y := yoe + era * 400 in
  let doy := doe - (365 * yoe + yoe / 4 - yoe / 100) in
  let mp := (5 * doy + 2) / 153 in
  let d := doy - (153 * mp + 2) / 5 + 1 in
  let m := if mp <? 10 then mp + 3 else mp - 9 in
  (if m <=? 2 then y + 1 else y, m, d).

(** [int(us / 10**6)] for a whole number of microseconds: the quotient as
    the nearest double, cut off towards zero.  The double is the next
    whole second when the quotient is nearer to it than half the step of
    the doubles below it. *)
Definition int_of_seconds (us : Z) : Z :=
  let a := Z.abs us in
  let k := a / 1000000 in
  let r := a mod 1000000 in
  let up := negb (r =? 0)
            && ((1000000 - r) * 2 ^ (54 - Z.log2_up (k + 1)) <? 1000000) in
  Z.sgn us * (if up then k + 1 else k).

Definition epoch_of (t : dt) : Z :=
  let days := days_from_civil (Z.of_N (year t)) (Z.of_N (month t)) (Z.of_N (day t)) in
  let secs := days * 86400 + Z.of_N (hour t) * 3600 + Z.of_N (minute t) * 60
              + Z.of_N (second t) in
  int_of_seconds (secs * 1000000 + Z.of_N (microsecond t)).

(** The seconds of 0001-01-01T00:00:00 and of 9999-12-31T23:59:59. *)
Definition min_second : Z := -62135596800.
Definition max_second : Z := 253402300799.

Definition fromtimestamp (z : Z) : option dt :=
  if (z <? min_second) || (max_second <? z) then None
  else
    let days := z / 86400 in
    let rest := z mod 86400 in
    let '(y, m, d) := civil_from_days days in
    Some (mkDt (Z.to_N y) (Z.to_N m) (Z.to_N d)
               (Z.to_N (rest / 3600)) (Z.to_N ((rest mod 3600) / 60))
               (Z.to_N (rest mod 60)) 0).

#[export] Instance clock : @PyClock data := @Build_PyClock data epoch_of fromtimestamp.

End RefClock.

(** * Properties *)

(** ** Text *)

Lemma string_app_assoc (a b c : string) : ((a ++ b) ++ c = a ++ (b ++ c))%string.
Proof. induction a; simpl; congruence. Qed.

Lemma string_app_nil_r (a : string) : (a ++ "")%string = a.
Proof. induction a; simpl; congruence. Qed.

Lemma length_app (a b : string) :
  String.length (a ++ b) = String.length a + String.length b.
Proof. induction a; simpl; congruence. Qed.

Lemma is_newline_LF : is_newline LF = true.
Proof. reflexivity. Qed.

Lemma isspace_newline c : is_newline c = true -> isspace c = true.
Proof.
  unfold is_newline. intros H. apply orb_true_iff in H.
  destruct H as [H | H]; apply Ascii.eqb_eq in H; subst; reflexivity.
Qed.

Lemma not_newline_cases c :
  is_newline c = false -> Ascii.eqb c LF = false /\ Ascii.eqb c CR = false.
Proof. unfold is_newline. intros H. apply orb_false_iff in H. exact H. Qed.

(** A line body followed by a line feed is the first physical line. *)
Lemma split_lines_body (body rest : string) :
  all_chars (fun c => negb (is_newline c)) body = true ->
  split_lines (body ++ String LF rest) = (body ++ String LF EmptyString)%string :: split_lines rest.
Proof.
  induction body as [| c body IH]; simpl; intros H.
  - reflexivity.
  - apply andb_true_iff in H. destruct H as [Hc Hb].
    apply negb_true_iff in Hc. destruct (not_newline_cases _ Hc) as [E1 E2].
    rewrite E1, E2, (IH Hb). reflexivity.
Qed.


Lemma closed_cons c s : s <> EmptyString -> closed (String c s) = closed s.
Proof.
  destruct s as [| c' s]; [congruence |]. intros _. reflexivity.
Qed.




Lemma split_lines_lengths (s : string) :
  Forall (fun l => 1 <= String.length l) (split_lines s).
Proof.
  remember (String.length s) as n eqn:Hn.
  revert s Hn. induction n as [n IH] using lt_wf_ind. intros s Hn.
  destruct s as [| c s]; [constructor |].
  assert (Hrec : forall t, String.length t < n ->
                           Forall (fun l => 1 <= String.length l) (split_lines t)).
  { intros t Ht. exact (IH _ Ht t eq_refl). }
  clear IH. simpl in Hn. cbn [split_lines].
  destruct (Ascii.eqb c LF).
  - constructor; [simpl; lia |]. apply Hrec. lia.
  - destruct (Ascii.eqb c CR).
    + destruct s as [| c' s]; [repeat constructor |].
      destruct (Ascii.eqb c' LF).
      * constructor; [simpl; lia |]. apply Hrec. simpl in Hn. lia.
      * constructor; [simpl; lia |]. apply (Hrec (String c' s)). lia.
    + pose proof (Hrec s ltac:(lia)) as E.
      destruct (split_lines s) as [| l ls]; [repeat constructor |].
      inversion E; subst. constructor; [simpl; lia | assumption].
Qed.

Lemma lstrip_tight (s t : string) :
  starts_tight s = true -> lstrip (s ++ t) = (s ++ t)%string.
Proof.
  destruct s as [| c s]; simpl; [discriminate |].
  intros H. apply negb_true_iff in H. rewrite H. reflexivity.
Qed.

Lemma ends_tight_cons c s :
  s <> EmptyString -> ends_tight (String c s) = ends_tight s.
Proof. destruct s; [congruence | reflexivity]. Qed.

Lemma rstrip_cons c s :
  rstrip (String c s)
  = match rstrip s with
    | EmptyString => if isspace c then EmptyString else String c EmptyString
    | t => String c t
    end.
Proof. reflexivity. Qed.

Lemma rstrip_tight (s : string) :
  ends_tight s = true -> rstrip (s ++ String LF EmptyString) = s.
Proof.
  induction s as [| c s IH]; [discriminate |].
  destruct s as [| c' s].
  - unfold ends_tight. simpl. intros H. apply negb_true_iff in H. rewrite H. reflexivity.
  - intros H. rewrite ends_tight_cons in H by discriminate.
    change (String c (String c' s) ++ String LF "")%string
      with (String c (String c' s ++ String LF "")%string).
    rewrite rstrip_cons, (IH H). reflexivity.
Qed.

(** Stripping the physical line of a one-line text gives the text back. *)
Lemma strip_one_line (s : string) :
  one_line s = true ->
  strip (s ++ String LF EmptyString) = s /\ is_empty s = false.
Proof.
  unfold one_line. intros H.
  apply andb_true_iff in H. destruct H as [H Hn].
  apply andb_true_iff in H. destruct H as [Hs He].
  split.
  - unfold strip. rewrite lstrip_tight by exact Hs. apply rstrip_tight. exact He.
  - destruct s; [discriminate | reflexivity].
Qed.

Lemma one_line_no_newline (s : string) :
  one_line s = true -> all_chars (fun c => negb (is_newline c)) s = true.
Proof.
  unfold one_line. intros H. apply andb_true_iff in H. tauto.
Qed.

Lemma closed_app_LF (s : string) : closed (s ++ String LF EmptyString) = true.
Proof.
  induction s as [| c s IH]; [reflexivity |].
  change (String c s ++ String LF "")%string with (String c (s ++ String LF "")).
  rewrite closed_cons; [exact IH | destruct s; discriminate].
Qed.

Lemma closed_app (a b : string) :
  closed a = true -> closed b = true -> closed (a ++ b) = true.
Proof.
  intros Ha Hb. destruct b as [| c b].
  - rewrite string_app_nil_r. exact Ha.
  - clear Ha. induction a as [| x a IH]; [exact Hb |].
    change (String x a ++ String c b)%string with (String x (a ++ String c b)).
    rewrite closed_cons; [exact IH | destruct a; discriminate].
Qed.


Lemma drop_app_length (a b : string) : drop (String.length a) (a ++ b) = b.
Proof. induction a; simpl; auto. Qed.

(** The offsets [fp.tell()] reports grow strictly from line to line. *)
Lemma with_tell_increasing (ls : list string) (pos : nat) :
  Forall (fun l => 1 <= String.length l) ls ->
  StronglySorted lt (map fst (with_tell pos ls))
  /\ Forall (fun o => pos <= o) (map fst (with_tell pos ls)).
Proof.
  intros H. revert pos. induction H as [| l ls Hl _ IH]; intros pos; simpl.
  - split; constructor.
  - destruct (IH (pos + String.length l)) as [Hs Hb]. split.
    + constructor; [exact Hs |].
      eapply Forall_impl; [| exact Hb]. simpl. intros; lia.
    + constructor; [lia |].
      eapply Forall_impl; [| exact Hb]. simpl. intros; lia.
Qed.

Lemma StronglySorted_filter_map {A} (f : A -> nat) (p : A -> bool) (l : list A) :
  StronglySorted lt (map f l) -> StronglySorted lt (map f (filter p l)).
Proof.
  induction l as [| x l IH]; simpl; intros H; [constructor |].
  inversion H as [| ? ? Hs Hf]; subst.
  destruct (p x); simpl; [| auto].
  constructor; [auto |].
  rewrite Forall_forall in *. intros y Hy. apply Hf.
  apply in_map_iff in Hy. destruct Hy as (z & <- & Hz).
  apply filter_In in Hz. apply in_map. tauto.
Qed.

(** ** Decoding the lines the store writes *)

Section DecodingFacts.
Context `{L : PyLib}.

Lemma record_of_line_storable (src : string) (r : EmissionRecord) :
  storable r -> record_of_line src (json_dumps (record_obj r)) = Ok (as_read src r).
Proof.
  intros (_ & Hl & Ht). unfold record_of_line. rewrite Hl.
  cbn. rewrite Ht. reflexivity.
Qed.

Lemma entry_of_line_storable (pos : nat) (r : EmissionRecord) :
  storable r ->
  entry_of_line pos (json_dumps (record_obj r))
  = Ok (mkIndexEntry pos (String.length (json_dumps (record_obj r)))
                     (timestamp r) (site_id r) (region_id r)).
Proof.
  intros (_ & Hl & Ht). unfold entry_of_line. rewrite Hl.
  cbn. rewrite Ht. reflexivity.
Qed.

Lemma entry_of_line_offset (pos : nat) (line : string) (e : IndexEntry) :
  entry_of_line pos line = Ok e -> ie_offset e = pos.
Proof.
  unfold entry_of_line, rbind. intros He.
  repeat match type of He with
         | match ?x with _ => _ end = _ => destruct x; try discriminate
         end.
  inversion He. reflexivity.
Qed.

Lemma serialize_app (rs1 rs2 : list EmissionRecord) :
  serialize (rs1 ++ rs2) = (serialize rs1 ++ serialize rs2)%string.
Proof.
  induction rs1 as [| r rs1 IH]; simpl; [reflexivity |].
  rewrite IH, string_app_assoc. reflexivity.
Qed.

Lemma closed_serialize (rs : list EmissionRecord) : closed (serialize rs) = true.
Proof.
  induction rs as [| r rs IH]; [reflexivity |].
  simpl. apply closed_app; [apply closed_app_LF | exact IH].
Qed.

Lemma split_lines_record (r : EmissionRecord) (rest : string) :
  storable r ->
  split_lines (record_line r ++ rest) = record_line r :: split_lines rest.
Proof.
  intros (Ho & _). unfold record_line. rewrite string_app_assoc. simpl.
  apply split_lines_body. apply one_line_no_newline. exact Ho.
Qed.

Lemma strip_record_line (r : EmissionRecord) :
  storable r ->
  strip (record_line r) = json_dumps (record_obj r)
  /\ is_empty (json_dumps (record_obj r)) = false.
Proof. intros (Ho & _). apply strip_one_line. exact Ho. Qed.

Ltac decode E :=
  repeat match type of E with
         | match ?x with _ => _ end = _ => destruct x; try discriminate
         end.

(** A line a reader accepts is a line [_rebuild_index] accepts, with the
    timestamp, site and region the reader gives the record. *)
Lemma record_of_line_entry (src line : string) (r : EmissionRecord) (pos : nat) :
  record_of_line src line = Ok r ->
  entry_of_line pos line
  = Ok (mkIndexEntry pos (String.length line) (timestamp r) (site_id r) (region_id r)).
Proof.
  unfold record_of_line, entry_of_line. intros E.
  destruct (json_loads line) as [obj |]; [| discriminate].
  unfold rbind in *.
  destruct (py_in "emission_rate_kg_per_h" obj) as [[|] | e]; [| | discriminate];
    cbv zeta in E; decode E; inversion E; reflexivity.
Qed.

(** The two readers decode a line alike, up to the source tag. *)
Lemma record_of_line_retag (src src' line : string) (r : EmissionRecord) :
  record_of_line src line = Ok r ->
  record_of_line src' line = Ok (as_read src' r).
Proof.
  unfold record_of_line. intros E.
  destruct (json_loads line) as [obj |]; [| discriminate].
  unfold rbind in *.
  destruct (py_in "emission_rate_kg_per_h" obj) as [[|] | e]; [| | discriminate];
    cbv zeta in *; decode E; inversion E; reflexivity.
Qed.

(** The full scan of a Log made of the lines of storable records gives the
    records back, in order, as a reader sees them. *)
Lemma read_records_serialize (rs : list EmissionRecord) :
  Forall storable rs -> read_records (serialize rs) = Ok (map (as_read "jsonl") rs).
Proof.
  unfold read_records. induction 1 as [| r rs Hr _ IH]; [reflexivity |].
  simpl serialize. rewrite split_lines_record by exact Hr.
  cbn [read_lines]. destruct (strip_record_line Hr) as [-> ->].
  rewrite record_of_line_storable by exact Hr. rewrite IH. reflexivity.
Qed.

End DecodingFacts.

(** ** Running the methods *)

Section StoreFacts.
Context `{L : PyLib}.

Ltac run :=
  unfold bind, ret, raise, lift, get, try_except, try_finally, emit, set_index,
    set_index_loaded, set_log_file, set_idx_content, log_error_with_context,
    Exception; cbn.

Local Arguments IndexedJsonlStore._save_index : simpl never.
Local Arguments IndexedJsonlStore._rebuild_index : simpl never.
Local Arguments IndexedJsonlStore._load_index : simpl never.
Local Arguments IndexedJsonlStore._read_records_by_offsets : simpl never.
Local Arguments IndexedJsonlStore.all : simpl never.
Local Arguments for_each : simpl never.
Local Arguments collect : simpl never.
Local Arguments sorted : simpl never.
Local Arguments split_lines : simpl never.
Local Arguments read_records : simpl never.

Lemma same_but_logged_refl (st : state) : same_but_logged st st.
Proof. repeat split. Qed.

Lemma same_but_logged_trans (a b c : state) :
  same_but_logged a b -> same_but_logged b c -> same_but_logged a c.
Proof.
  unfold same_but_logged. intros (?&?&?&?&?) (?&?&?&?&?).
  repeat split; congruence.
Qed.

Lemma same_but_logged_emit (st : state) (ev : event) :
  same_but_logged st (snd (emit ev st)).
Proof. repeat split. Qed.

Lemma _save_index_run (st : state) :
  IndexedJsonlStore._save_index st = (Ok tt, saved st).
Proof.
  unfold IndexedJsonlStore._save_index, saved, open_wb, pickle_dump.
  destruct st as [lf xf idx ld lg seen]. run.
  destruct xf as [[c r w] |]; cbn; [destruct w |]; reflexivity.
Qed.

Lemma saved_log_file st : log_file (saved st) = log_file st.
Proof. unfold saved. destruct (idx_file st) as [f |]; [destruct (writable f) |]; reflexivity. Qed.

Lemma saved_index st : _index (saved st) = _index st.
Proof. unfold saved. destruct (idx_file st) as [f |]; [destruct (writable f) |]; reflexivity. Qed.

Lemma saved_loaded st : _index_loaded (saved st) = _index_loaded st.
Proof. unfold saved. destruct (idx_file st) as [f |]; [destruct (writable f) |]; reflexivity. Qed.

Lemma for_each_nil {X} (body : X -> M unit) : for_each [] body = ret tt.
Proof. reflexivity. Qed.

Lemma for_each_cons {X} (x : X) (rest : list X) (body : X -> M unit) :
  for_each (x :: rest) body = bind (body x) (fun _ => for_each rest body).
Proof. reflexivity. Qed.

Lemma rebuild_step_run (p : nat * string) (st : state) :
  IndexedJsonlStore.rebuild_step p st
  = if blank p then (Ok tt, st)
    else match line_entry p with
         | Ok e => (Ok tt, mkState (log_file st) (idx_file st) (_index st ++ [e])
                                   (_index_loaded st) (logged st) (idx_seen st))
         | Raise e =>
             if caught_by_rebuild e
             then (Ok tt, mkState (log_file st) (idx_file st) (_index st)
                                  (_index_loaded st)
                                  (logged st ++ [Log WARNING "Skipping malformed line in JSONL"
                                                     (Some (fst p)) (Some e)])
                                  (idx_seen st))
             else (Raise e, st)
         end.
Proof.
  unfold IndexedJsonlStore.rebuild_step, blank, line_entry.
  destruct p as [pos raw]. cbn [fst snd].
  destruct (is_empty (strip raw)); [reflexivity |].
  run. destruct (entry_of_line pos (strip raw)) as [e | e]; cbn; [reflexivity |].
  destruct (caught_by_rebuild e); reflexivity.
Qed.

(** The loop of [_rebuild_index] on lines that are all passable: the
    entries of the well-formed lines join the index, one warning is logged
    for each other non-blank line. *)
Lemma rebuild_loop_passable (ps : list (nat * string)) (st : state) :
  forallb passable ps = true ->
  for_each ps IndexedJsonlStore.rebuild_step st
  = (Ok tt, mkState (log_file st) (idx_file st) (_index st ++ entries_of ps)
                    (_index_loaded st) (logged st ++ warnings_of ps) (idx_seen st)).
Proof.
  revert st. induction ps as [| p ps IH]; intros st Hp.
  - rewrite for_each_nil. destruct st. cbn. rewrite !app_nil_r. reflexivity.
  - cbn [forallb] in Hp. apply andb_true_iff in Hp. destruct Hp as [Hp Hps].
    rewrite for_each_cons. cbn [entries_of warnings_of]. unfold bind.
    rewrite rebuild_step_run. unfold passable in Hp.
    destruct (blank p).
    + apply IH. exact Hps.
    + cbn in Hp. destruct (line_entry p) as [e | e].
      * rewrite IH by exact Hps. cbn. rewrite <- !app_assoc. reflexivity.
      * rewrite Hp. rewrite IH by exact Hps. cbn. rewrite <- !app_assoc. reflexivity.
Qed.

(** The loop of [_rebuild_index] when some line is not passable: its
    exception leaves the loop. *)
Lemma rebuild_loop_fatal (ps : list (nat * string)) (st : state) :
  forallb passable ps = false ->
  exists e st',
    for_each ps IndexedJsonlStore.rebuild_step st = (Raise e, st')
    /\ log_file st' = log_file st /\ idx_file st' = idx_file st
    /\ _index_loaded st' = _index_loaded st /\ idx_seen st' = idx_seen st.
Proof.
  revert st. induction ps as [| p ps IH]; intros st Hp; [discriminate |].
  cbn [forallb] in Hp. rewrite for_each_cons. unfold bind.
  rewrite rebuild_step_run. unfold passable in Hp.
  destruct (blank p).
  - cbn in Hp. apply IH. exact Hp.
  - cbn in Hp. destruct (line_entry p) as [e | e].
    + cbn in Hp. 
      match goal with
      | |- context [for_each ps _ ?s] =>
          destruct (IH s Hp) as (e' & st' & -> & ?)
      end. eauto.
    + destruct (caught_by_rebuild e); cbn in Hp.
      * match goal with
        | |- context [for_each ps _ ?s] =>
            destruct (IH s Hp) as (e' & st' & -> & ?)
        end. eauto.
      * exists e, st. repeat split.
Qed.

Lemma saved_sidecar_unwritable st :
  sidecar_writable st = false ->
  idx_file (saved st) = idx_file st /\ idx_seen (saved st) = idx_seen st.
Proof.
  unfold saved, sidecar_writable.
  destruct (idx_file st) as [f |]; [| discriminate]. intros ->. split; reflexivity.
Qed.

Lemma saved_logged_unwritable st :
  sidecar_writable st = false ->
  logged (saved st)
  = logged st ++ [Log ERROR "Failed to save index" None (Some PermissionError)].
Proof.
  unfold saved, sidecar_writable.
  destruct (idx_file st) as [f |]; [| discriminate]. intros ->. reflexivity.
Qed.

Lemma saved_sidecar_writable st :
  sidecar_writable st = true ->
  sidecar_content (saved st) = Some (Pickled (_index st))
  /\ idx_seen (saved st) = idx_seen st ++ [Truncated; Pickled (_index st)].
Proof.
  unfold saved, sidecar_writable, sidecar_content.
  destruct (idx_file st) as [f |]; [intros -> |]; cbn; rewrite <- app_assoc; split; reflexivity.
Qed.

Lemma _rebuild_index_spec (st : state) :
  exists st',
    IndexedJsonlStore._rebuild_index st = (Ok tt, st')
    /\ log_file st' = log_file st
    /\ _index_loaded st' = _index_loaded st
    /\ _index st' = rebuilt_index st
    /\ (sidecar_writable st = false -> idx_file st' = idx_file st).
Proof.
  unfold IndexedJsonlStore._rebuild_index, rebuilt_index, path_exists, path_size, open_r.
  destruct st as [lf xf idx ld lg seen]. run.
  destruct lf as [f |]; cbn; [| eexists; repeat split].
  destruct (String.length (content f) =? 0) eqn:Hz; cbn.
  - eexists. repeat split. cbn.
    apply Nat.eqb_eq in Hz. destruct (content f); [| discriminate].
    cbn. destruct (readable f); reflexivity.
  - destruct (readable f); cbn; [| eexists; repeat split].
    unfold log_lines.
    destruct (forallb passable (with_tell 0 (split_lines (content f)))) eqn:Hp.
    + rewrite rebuild_loop_passable by exact Hp. cbn.
      rewrite _save_index_run. cbn.
      eexists. split; [reflexivity |].
      rewrite saved_log_file, saved_index, saved_loaded. repeat split.
      intros Hw. apply saved_sidecar_unwritable. exact Hw.
    + match goal with
      | |- context [for_each ?ps ?b ?s] =>
          destruct (rebuild_loop_fatal ps s Hp) as (e & st' & -> & E1 & E2 & E3 & E4)
      end.
      cbn in *. eexists. split; [reflexivity |]. repeat split; cbn; congruence.
Qed.

Lemma _load_index_loaded (st : state) :
  _index_loaded st = true -> IndexedJsonlStore._load_index st = (Ok tt, st).
Proof.
  intros Hl. unfold IndexedJsonlStore._load_index. run. rewrite Hl. reflexivity.
Qed.

Lemma _load_index_spec (st : state) :
  exists st',
    IndexedJsonlStore._load_index st = (Ok tt, st')
    /\ log_file st' = log_file st
    /\ _index_loaded st' = true
    /\ _index st' = loaded_index st
    /\ (sidecar_writable st = false -> idx_file st' = idx_file st)
    /\ (sidecar_loads st = true -> idx_file st' = idx_file st).
Proof.
  unfold loaded_index, sidecar_loads, sidecar_pickled.
  destruct (_index_loaded st) eqn:Hl.
  - exists st. rewrite _load_index_loaded by exact Hl. repeat split. exact Hl.
  - unfold IndexedJsonlStore._load_index, index_path_exists, open_rb_load.
    run. rewrite Hl.
    assert (Hreb : forall s, log_file s = log_file st -> idx_file s = idx_file st ->
              exists st',
                (let (r, st1) := IndexedJsonlStore._rebuild_index s in
                 (r, mkState (log_file st1) (idx_file st1) (_index st1) true
                             (logged st1) (idx_seen st1))) = (Ok tt, st')
                /\ log_file st' = log_file st /\ _index_loaded st' = true
                /\ _index st' = rebuilt_index st
                /\ (sidecar_writable st = false -> idx_file st' = idx_file st)).
    { intros s Hs Hx. destruct (_rebuild_index_spec s) as (s1 & -> & E1 & E2 & E3 & E4).
      eexists. split; [reflexivity |]. cbn. repeat split; try congruence.
      - rewrite E3. unfold rebuilt_index. rewrite Hs. reflexivity.
      - unfold sidecar_writable in *. rewrite Hx in E4. intros Hw. rewrite E4; auto. }
    destruct (idx_file st) as [f |] eqn:Hf; cbn.
    + rewrite Hf. cbn. destruct (readable f); cbn.
      * destruct (content f) as [l | |]; cbn.
        -- eexists. repeat split; intros _; exact Hf.
        -- match goal with
           | |- context [IndexedJsonlStore._rebuild_index ?s] =>
               destruct (Hreb s eq_refl Hf) as (st' & -> & E1 & E2 & E3 & E4)
           end.
           exists st'. repeat split; auto. discriminate.
        -- match goal with
           | |- context [IndexedJsonlStore._rebuild_index ?s] =>
               destruct (Hreb s eq_refl Hf) as (st' & -> & E1 & E2 & E3 & E4)
           end.
           exists st'. repeat split; auto. discriminate.
      * match goal with
        | |- context [IndexedJsonlStore._rebuild_index ?s] =>
            destruct (Hreb s eq_refl Hf) as (st' & -> & E1 & E2 & E3 & E4)
        end.
        exists st'. repeat split; auto. discriminate.
    + destruct (_rebuild_index_spec st) as (s1 & E & E1 & E2 & E3 & E4).
      rewrite E. cbn. eexists. split; [reflexivity |]. cbn.
      unfold sidecar_writable in *. rewrite Hf in *.
      repeat split; auto; discriminate.
Qed.

(** The first [_load_index] of a store object whose sidecar gives no
    index: [_rebuild_index] runs, after an error has been logged when the
    sidecar was there. *)
Lemma _load_index_rebuilds (st : state) :
  _index_loaded st = false ->
  sidecar_pickled st = false ->
  exists s0,
    same_but_logged st s0
    /\ IndexedJsonlStore._load_index st
       = (Ok tt, mark_loaded (snd (IndexedJsonlStore._rebuild_index s0))).
Proof.
  intros Hl Hp. unfold sidecar_pickled in Hp.
  unfold IndexedJsonlStore._load_index, index_path_exists, open_rb_load. run.
  rewrite Hl.
  assert (Hreb : forall s,
             (let (r, st1) := IndexedJsonlStore._rebuild_index s in
              (r, mkState (log_file st1) (idx_file st1) (_index st1) true
                          (logged st1) (idx_seen st1)))
             = (Ok tt, mark_loaded (snd (IndexedJsonlStore._rebuild_index s)))).
  { intros s. destruct (_rebuild_index_spec s) as (s1 & -> & _). reflexivity. }
  destruct (idx_file st) as [f |] eqn:Hf; cbn.
  - rewrite Hf. cbn. destruct (readable f); cbn.
    + destruct (content f) as [l | |]; cbn; [discriminate | |];
        (eexists; split; [| apply Hreb]; repeat split; cbn; congruence).
    + eexists. split; [| apply Hreb]. repeat split; cbn; congruence.
  - destruct (_rebuild_index_spec st) as (s1 & E & _). rewrite E. cbn.
    exists st. split; [apply same_but_logged_refl |]. rewrite E. reflexivity.
Qed.

(** *** [sorted] *)

Lemma insert_sorted_perm (x : nat) (l : list nat) :
  Permutation (insert_sorted x l) (x :: l).
Proof.
  induction l as [| y l IH]; simpl; [reflexivity |].
  destruct (x <=? y); [reflexivity |].
  rewrite IH. apply perm_swap.
Qed.

Lemma sorted_perm (l : list nat) : Permutation (sorted l) l.
Proof.
  induction l as [| x l IH]; [reflexivity |].
  change (sorted (x :: l)) with (insert_sorted x (sorted l)).
  rewrite insert_sorted_perm, IH. reflexivity.
Qed.



(** [sorted] leaves an ascending list as it is. *)
Lemma sorted_id (l : list nat) : StronglySorted le l -> sorted l = l.
Proof.
  induction 1 as [| x l Hs IH Hf]; [reflexivity |].
  change (sorted (x :: l)) with (insert_sorted x (sorted l)).
  rewrite IH. destruct l as [| y l]; [reflexivity |].
  simpl. inversion Hf; subst.
  destruct (x <=? y) eqn:E; [reflexivity |].
  apply Nat.leb_gt in E. lia.
Qed.

Lemma StronglySorted_lt_le (l : list nat) :
  StronglySorted lt l -> StronglySorted le l.
Proof.
  induction 1 as [| x l Hs IH Hf]; constructor; [exact IH |].
  eapply Forall_impl; [| exact Hf]. simpl. intros; lia.
Qed.

(** *** [_read_records_by_offsets] *)

Lemma collect_nil {X Y} (body : X -> M (option Y)) : collect [] body = ret ([], None).
Proof. reflexivity. Qed.

Lemma collect_cons {X Y} (x : X) (rest : list X) (body : X -> M (option Y)) (st : state) :
  collect (x :: rest) body st
  = match body x st with
    | (Raise e, st') => (Ok ([], Some e), st')
    | (Ok o, st') =>
        match collect rest body st' with
        | (Ok (ys, err), st'') =>
            (Ok (match o with Some y => y :: ys | None => ys end, err), st'')
        | (Raise e, st'') => (Raise e, st'')
        end
    end.
Proof. reflexivity. Qed.

Lemma read_step_run (fp : string) (offset : nat) (st : state) :
  IndexedJsonlStore.read_step fp offset st
  = let line := strip (readline_at fp offset) in
    if is_empty line then (Ok None, st)
    else match record_of_line "indexed_jsonl" line with
         | Ok r => (Ok (Some r), st)
         | Raise e =>
             if caught_by_read e
             then (Ok None, mkState (log_file st) (idx_file st) (_index st)
                                    (_index_loaded st)
                                    (logged st ++ [Log WARNING "Skipping malformed record"
                                                       (Some offset) (Some e)])
                                    (idx_seen st))
             else (Raise e, st)
         end.
Proof.
  unfold IndexedJsonlStore.read_step. cbn zeta.
  destruct (is_empty (strip (readline_at fp offset))); [reflexivity |].
  run. destruct (record_of_line "indexed_jsonl" (strip (readline_at fp offset))) as [r | e];
    cbn; [reflexivity |].
  destruct (caught_by_read e); reflexivity.
Qed.

(** The loop of [_read_records_by_offsets] never raises and touches
    nothing but the messages logged; without a fatal offset it keeps, in
    the order it is given them, the records of the offsets. *)
Lemma collect_read (fp : string) (offsets : list nat) (st : state) :
  exists rs err st',
    collect offsets (IndexedJsonlStore.read_step fp) st = (Ok (rs, err), st')
    /\ same_but_logged st st'
    /\ (forallb (fun o => negb (fatal_at fp o)) offsets = true ->
        rs = omap (record_at fp) offsets /\ err = None).
Proof.
  revert st. induction offsets as [| o offsets IH]; intros st.
  - exists [], None, st. rewrite collect_nil. repeat split.
  - rewrite collect_cons, read_step_run. cbn zeta.
    cbn [forallb omap]. unfold fatal_at, record_at.
    destruct (is_empty (strip (readline_at fp o))).
    + destruct (IH st) as (rs & err & st' & -> & Hs & Hr).
      exists rs, err, st'. repeat split; try apply Hs; apply Hr; assumption.
    + destruct (record_of_line "indexed_jsonl" (strip (readline_at fp o))) as [r | e].
      * destruct (IH st) as (rs & err & st' & -> & Hs & Hr).
        exists (r :: rs), err, st'. split; [reflexivity |]. split; [exact Hs |].
        cbn. intros Hf. destruct (Hr Hf) as [-> ->]. split; reflexivity.
      * destruct (caught_by_read e).
        -- match goal with
           | |- context [collect offsets _ ?s] =>
               destruct (IH s) as (rs & err & st' & -> & Hs & Hr)
           end.
           exists rs, err, st'. split; [reflexivity |].
           split; [| cbn; exact Hr].
           destruct Hs as (?&?&?&?&?). repeat split; assumption.
        -- exists [], (Some e), st. split; [reflexivity |].
           split; [apply same_but_logged_refl |]. cbn. discriminate.
Qed.

Lemma forallb_perm {A} (p : A -> bool) (l l' : list A) :
  Permutation l l' -> forallb p l = forallb p l'.
Proof.
  induction 1; cbn; try congruence.
  - destruct (p x), (p y); reflexivity.
Qed.

Lemma _read_records_by_offsets_spec (offsets : list nat) (st : state) :
  exists rs st',
    IndexedJsonlStore._read_records_by_offsets offsets st = (Ok rs, st')
    /\ same_but_logged st st'
    /\ (log_readable st = true ->
        forallb (fun o => negb (fatal_at (log_content st) o)) offsets = true ->
        rs = omap (record_at (log_content st)) (sorted offsets))
    /\ (log_readable st = false -> rs = []).
Proof.
  unfold IndexedJsonlStore._read_records_by_offsets.
  destruct offsets as [| o offsets].
  - exists [], st. repeat split; auto.
  - set (offs := o :: offsets). unfold open_r, log_readable, log_content. run.
    destruct (log_file st) as [f |] eqn:Hf; cbn.
    + destruct (readable f) eqn:Hr; cbn.
      * destruct (collect_read (content f) (sorted offs) st)
          as (rs & err & st' & -> & Hs & Hrs).
        destruct err as [e |]; cbn.
        -- eexists _, _. split; [reflexivity |]. split.
           ++ destruct Hs as (?&?&?&?&?). repeat split; assumption.
           ++ split; [| discriminate]. intros _ Hfat.
              rewrite (forallb_perm _ (sorted_perm offs)) in Hrs.
              destruct (Hrs Hfat) as [_ ?]. discriminate.
        -- eexists _, _. split; [reflexivity |]. split; [exact Hs |].
           split; [| discriminate]. intros _ Hfat.
           rewrite (forallb_perm _ (sorted_perm offs)) in Hrs.
           destruct (Hrs Hfat) as [-> _]. reflexivity.
      * eexists _, _. split; [reflexivity |]. repeat split; auto; discriminate.
    + eexists _, _. split; [reflexivity |]. repeat split; auto; discriminate.
Qed.



(** [_read_records_by_offsets] on a Log it cannot open. *)
Lemma _read_records_by_offsets_denied (offsets : list nat) (st : state) :
  log_readable st = false ->
  exists st',
    IndexedJsonlStore._read_records_by_offsets offsets st = (Ok [], st')
    /\ same_but_logged st st'
    /\ logged st' = logged st ++ failed_read st offsets.
Proof.
  intros Hr. unfold IndexedJsonlStore._read_records_by_offsets, failed_read, open_failure.
  destruct offsets as [| o offsets].
  - exists st. cbn. rewrite app_nil_r. repeat split.
  - set (offs := o :: offsets). unfold open_r, log_readable in *. run.
    destruct (log_file st) as [f |] eqn:Hf; cbn.
    + rewrite Hr. cbn. eexists. split; [reflexivity |]. repeat split.
    + eexists. split; [reflexivity |]. repeat split.
Qed.

(** [_rebuild_index] on a Log that is there, is not empty and cannot be
    opened: the error is logged, the index is left empty, nothing is saved. *)
Lemma _rebuild_index_denied (st : state) (f : file string) :
  log_file st = Some f ->
  readable f = false ->
  content f <> EmptyString ->
  IndexedJsonlStore._rebuild_index st
  = (Ok tt, mkState (log_file st) (idx_file st) [] (_index_loaded st)
                    (logged st ++ [Log ERROR "Failed to rebuild index" None
                                       (Some PermissionError)])
                    (idx_seen st)).
Proof.
  intros Hf Hr Hne.
  unfold IndexedJsonlStore._rebuild_index, path_exists, path_size, open_r.
  destruct st as [lf xf idx ld lg seen]. cbn in Hf. subst lf. run.
  destruct (String.length (content f) =? 0) eqn:Hz.
  { apply Nat.eqb_eq in Hz. destruct (content f); [congruence | discriminate]. }
  cbn. rewrite Hr. reflexivity.
Qed.

(** *** [append] *)

Lemma append_loop_run (rs : list EmissionRecord) (st : state) (f : file string) :
  log_file st = Some f ->
  IndexedJsonlStore.append_loop rs st
  = (Ok (entries_from (String.length (content f)) rs),
     update_log st (Some (mkFile (content f ++ serialize rs)%string
                                 (readable f) (writable f)))).
Proof.
  revert st f. induction rs as [| r rs IH]; intros st f Hf.
  - unfold update_log. destruct st as [lf xf idx ld lg seen]. cbn in *. subst lf.
    destruct f as [c r w]. cbn. rewrite string_app_nil_r. reflexivity.
  - cbn [IndexedJsonlStore.append_loop entries_from serialize].
    unfold IndexedJsonlStore.append_step, tell, path_size, write. run. rewrite Hf. cbn.
    erewrite IH by reflexivity. cbn. rewrite length_app, string_app_assoc.
    unfold update_log. reflexivity.
Qed.

Lemma entries_from_length (pos : nat) (rs : list EmissionRecord) :
  List.length (entries_from pos rs) = List.length rs.
Proof. revert pos. induction rs; intros; simpl; auto. Qed.

(** [append] on a Log that can be opened for writing: it returns the
    number of records, the Log gains their lines, the index their entries. *)
Lemma append_run (rs : list EmissionRecord) (st : state) :
  log_writable st = true ->
  exists st',
    IndexedJsonlStore.append rs st = (Ok (List.length rs), st')
    /\ log_file st' = Some (appended_log st rs)
    /\ _index st' = loaded_index st ++ entries_from (String.length (log_content st)) rs
    /\ _index_loaded st' = true
    /\ (sidecar_writable st = false -> idx_file st' = idx_file st).
Proof.
  intros Hw. unfold IndexedJsonlStore.append, bind at 1.
  destruct (_load_index_spec st) as (st1 & -> & E1 & E2 & E3 & E4 & _).
  unfold log_writable, appended_log, log_content in *. rewrite <- E1 in *.
  unfold open_a. run.
  assert (Hside : forall s, idx_file s = idx_file st1 -> sidecar_writable st = false ->
                             idx_file (saved s) = idx_file st).
  { intros s Hs Hsw. rewrite <- (E4 Hsw), <- Hs. apply saved_sidecar_unwritable.
    unfold sidecar_writable in *. rewrite Hs, (E4 Hsw). exact Hsw. }
  destruct (log_file st1) as [f |] eqn:Hf; cbn.
  - rewrite Hw. cbn. rewrite (append_loop_run rs st1 Hf). cbn.
    rewrite _save_index_run. cbn. rewrite entries_from_length.
    eexists. split; [reflexivity |]. cbn.
    rewrite saved_log_file, saved_index, saved_loaded. cbn.
    repeat split; try congruence. apply Hside. reflexivity.
  - erewrite append_loop_run by reflexivity. cbn.
    rewrite _save_index_run. cbn. rewrite entries_from_length.
    eexists. split; [reflexivity |]. cbn.
    rewrite saved_log_file, saved_index, saved_loaded. cbn.
    repeat split; try congruence. apply Hside. reflexivity.
Qed.

(** [append], step by step, on a Log that can be opened for writing: the
    index is loaded, the lines are written, the entries join the index,
    the index is saved and the count is logged. *)
Lemma append_steps (rs : list EmissionRecord) (st : state) :
  log_writable st = true ->
  exists st1,
    IndexedJsonlStore._load_index st = (Ok tt, st1)
    /\ IndexedJsonlStore.append rs st
       = (Ok (List.length rs),
          snd (emit (Log INFO "Appended records" (Some (List.length rs)) None)
                    (saved (mkState (Some (appended_log st rs)) (idx_file st1)
                                    (_index st1
                                     ++ entries_from (String.length (log_content st)) rs)
                                    true (logged st1) (idx_seen st1))))).
Proof.
  intros Hw. unfold IndexedJsonlStore.append, bind at 1.
  destruct (_load_index_spec st) as (st1 & E & E1 & E2 & _). rewrite E.
  exists st1. split; [reflexivity |].
  unfold log_writable, appended_log, log_content in *. rewrite <- E1 in *.
  unfold open_a. run.
  destruct (log_file st1) as [f |] eqn:Hf; cbn.
  - rewrite Hw. cbn. rewrite (append_loop_run rs st1 Hf). cbn.
    rewrite _save_index_run. cbn. rewrite entries_from_length, E2, ?Hw. reflexivity.
  - erewrite append_loop_run by reflexivity. cbn.
    rewrite _save_index_run. cbn. rewrite entries_from_length, E2. reflexivity.
Qed.

End StoreFacts.

(** ** The full scan *)

Section ScanFacts.
Context `{L : PyLib}.

Local Arguments split_lines : simpl never.

Ltac run :=
  unfold bind, ret, raise, lift, get, try_except, try_finally, emit, set_index,
    set_index_loaded, set_log_file, set_idx_content, log_error_with_context,
    Exception; cbn.

Lemma getitem_exn (obj : json) (key : string) (e : exn) :
  getitem obj key = Raise e -> is_FileNotFoundError e = false.
Proof.
  unfold getitem. destruct obj; try (intros He; inversion He; reflexivity).
  destruct (lookup key kv); intros He; inversion He; reflexivity.
Qed.

Lemma py_in_exn (key : string) (obj : json) (e : exn) :
  py_in key obj = Raise e -> is_FileNotFoundError e = false.
Proof. destruct obj; cbn; intros He; inversion He; reflexivity. Qed.

Lemma parse_timestamp_of_exn (x : json) (e : exn) :
  parse_timestamp_of x = Raise e -> is_FileNotFoundError e = false.
Proof.
  destruct x; cbn; try (intros He; inversion He; reflexivity).
  unfold parse_timestamp.
  match goal with |- context [first_format ?v ?fs] => destruct (first_format v fs) end;
    [discriminate |].
  destruct (fromisoformat s); intros He; inversion He; reflexivity.
Qed.

Lemma py_float_exn (x : json) (e : exn) :
  py_float x = Raise e -> is_FileNotFoundError e = false.
Proof.
  destruct x; cbn; try (intros He; inversion He; reflexivity).
  destruct (float_of_string s); intros He; inversion He; reflexivity.
Qed.

Lemma to_kg_per_h_exn (v : float) (u : string) (e : exn) :
  to_kg_per_h v u = Raise e -> is_FileNotFoundError e = false.
Proof.
  unfold to_kg_per_h.
  repeat match goal with |- context [String.eqb ?a ?b] => destruct (String.eqb a b) end;
    intros He; inversion He; reflexivity.
Qed.

Lemma rbind_exn {A B} (r : result A) (k : A -> result B) :
  (forall e, r = Raise e -> is_FileNotFoundError e = false) ->
  (forall a e, k a = Raise e -> is_FileNotFoundError e = false) ->
  forall e, rbind r k = Raise e -> is_FileNotFoundError e = false.
Proof.
  intros Hr Hk e. destruct r as [a | e']; cbn; [apply Hk |].
  intros He. inversion He; subst. apply Hr. reflexivity.
Qed.

(** No line of the Log makes the decoder raise [FileNotFoundError]. *)
Lemma record_of_line_exn (src line : string) (e : exn) :
  record_of_line src line = Raise e -> is_FileNotFoundError e = false.
Proof.
  unfold record_of_line.
  destruct (json_loads line) as [obj |]; [| intros He; inversion He; reflexivity].
  revert e. apply rbind_exn; [intros e; apply py_in_exn |].
  intros has; destruct has; cbn zeta;
    repeat (apply rbind_exn;
            [ intros e;
              first [ apply getitem_exn | apply parse_timestamp_of_exn
                    | apply py_float_exn | apply to_kg_per_h_exn ]
            | intros ? ]);
    discriminate.
Qed.

Lemma read_lines_exn (ls : list string) (e : exn) :
  read_lines ls = Raise e -> is_FileNotFoundError e = false.
Proof.
  induction ls as [| l ls IH]; cbn; [discriminate |].
  destruct (is_empty (strip l)); [exact IH |].
  destruct (record_of_line "jsonl" (strip l)) as [r | e'] eqn:E.
  - destruct (read_lines ls) as [rs | e'']; [discriminate |].
    intros He. inversion He; subst. apply IH. reflexivity.
  - intros He. inversion He; subst. eapply record_of_line_exn. exact E.
Qed.

Lemma all_run (st : state) (f : file string) :
  log_file st = Some f -> readable f = true ->
  IndexedJsonlStore.all st = (read_records (content f), st).
Proof.
  intros Hf Hr. unfold IndexedJsonlStore.all, open_r. run. rewrite Hf. cbn. rewrite Hr. cbn.
  destruct (read_records (content f)) as [rs | e] eqn:E; [reflexivity |].
  unfold read_records in E. rewrite (read_lines_exn _ E). reflexivity.
Qed.

Lemma all_missing (st : state) :
  log_file st = None -> IndexedJsonlStore.all st = (Ok [], st).
Proof.
  intros Hf. unfold IndexedJsonlStore.all, open_r. run. rewrite Hf. reflexivity.
Qed.

Lemma all_unreadable (st : state) (f : file string) :
  log_file st = Some f -> readable f = false ->
  IndexedJsonlStore.all st = (Raise PermissionError, st).
Proof.
  intros Hf Hr. unfold IndexedJsonlStore.all, open_r. run. rewrite Hf. cbn. rewrite Hr.
  reflexivity.
Qed.

Lemma JsonlStore_all_eq : JsonlStore.all = IndexedJsonlStore.all.
Proof. reflexivity. Qed.

(** When every non-blank line decodes, the scan returns the records of
    the lines in their order. *)
Lemma read_lines_ok (ls : list string) (rs : list EmissionRecord) :
  Forall2 (fun l r => record_of_line "jsonl" (strip l) = Ok r)
          (filter (fun l => negb (is_empty (strip l))) ls) rs ->
  read_lines ls = Ok rs.
Proof.
  revert rs. induction ls as [| l ls IH]; intros rs Hd; cbn in *.
  - inversion Hd. reflexivity.
  - destruct (is_empty (strip l)); cbn in Hd; [auto |].
    inversion Hd as [| ? r ? rs' Hr Hrest]; subst.
    rewrite Hr, (IH _ Hrest). reflexivity.
Qed.

(** The first non-blank line that does not decode ends the scan with its
    exception. *)
Lemma read_lines_fail (ls pre post : list string) (bad : string)
      (rs : list EmissionRecord) (e : exn) :
  filter (fun l => negb (is_empty (strip l))) ls = pre ++ bad :: post ->
  Forall2 (fun l r => record_of_line "jsonl" (strip l) = Ok r) pre rs ->
  record_of_line "jsonl" (strip bad) = Raise e ->
  read_lines ls = Raise e.
Proof.
  revert pre rs. induction ls as [| l ls IH]; intros pre rs Hf Hd Hb; cbn in *.
  - destruct pre; discriminate.
  - destruct (is_empty (strip l)); cbn in Hf; [eauto |].
    destruct pre as [| p pre]; cbn in Hf; inversion Hf; subst.
    + rewrite Hb. reflexivity.
    + inversion Hd as [| ? r ? rs' Hr Hrest]; subst.
      rewrite Hr. erewrite IH; eauto.
Qed.

Lemma write_records_run (rs : list EmissionRecord) (st : state) (f : file string) :
  log_file st = Some f ->
  write_records rs st
  = (Ok (List.length rs),
     update_log st (Some (mkFile (content f ++ serialize rs)%string
                                 (readable f) (writable f)))).
Proof.
  revert st f. induction rs as [| r rs IH]; intros st f Hf.
  - unfold update_log. destruct st as [lf xf idx ld lg seen]. cbn in *. subst lf.
    destruct f as [c r w]. cbn. rewrite string_app_nil_r. reflexivity.
  - cbn [write_records serialize List.length]. unfold write. run. rewrite Hf. cbn.
    erewrite IH by reflexivity. cbn. rewrite string_app_assoc.
    unfold update_log. reflexivity.
Qed.

Lemma JsonlStore_append_run (rs : list EmissionRecord) (st : state) :
  log_writable st = true ->
  JsonlStore.append rs st
  = (Ok (List.length rs), update_log st (Some (appended_log st rs))).
Proof.
  intros Hw. unfold JsonlStore.append, append_file, open_a, log_writable, appended_log in *. run.
  destruct (log_file st) as [f |] eqn:Hf; cbn.
  - rewrite Hw. cbn. rewrite (write_records_run rs st Hf), ?Hw. reflexivity.
  - erewrite write_records_run by reflexivity. cbn. unfold update_log. reflexivity.
Qed.

Lemma appended_log_facts (st : state) (rs : list EmissionRecord) :
  log_readable st = true ->
  content (appended_log st rs) = (log_content st ++ serialize rs)%string
  /\ readable (appended_log st rs) = true.
Proof.
  unfold log_readable, appended_log, log_content.
  destruct (log_file st) as [f |]; [| discriminate]. intros ->. split; reflexivity.
Qed.

End ScanFacts.

(** ** Round trip, full scan, reads by offset *)

Section ReadClaims.
Context `{L : PyLib}.

(** C1, as the code has it.  On a Log that holds the lines of storable
    records [rs0] (none, for a new store) and can be read and written,
    [append(rs)] of storable records returns [len(rs)], and [all()] then
    returns one record per record appended so far, in the order of
    appending, each with the timestamp, site, region and rate it was
    appended with, the source tag ["jsonl"] and no [meta]; this for
    [IndexedJsonlStore] and for [JsonlStore]. *)
Theorem append_then_all (st : state) (rs0 rs : list EmissionRecord) :
  log_readable st = true ->
  log_writable st = true ->
  log_content st = serialize rs0 ->
  Forall storable (rs0 ++ rs) ->
  (exists st',
      IndexedJsonlStore.append rs st = (Ok (List.length rs), st')
      /\ fst (IndexedJsonlStore.all st') = Ok (map (as_read "jsonl") (rs0 ++ rs)))
  /\ (exists st',
         JsonlStore.append rs st = (Ok (List.length rs), st')
         /\ fst (JsonlStore.all st') = Ok (map (as_read "jsonl") (rs0 ++ rs))).
Proof.
  intros Hr Hw Hc Hs.
  destruct (appended_log_facts st rs Hr) as [Ec Er].
  rewrite Hc, <- serialize_app in Ec.
  split.
  - destruct (append_run rs st Hw) as (st' & E & Hf & _).
    exists st'. split; [exact E |].
    rewrite (all_run st' Hf Er). cbn. rewrite Ec.
    apply read_records_serialize. exact Hs.
  - rewrite (JsonlStore_append_run rs st Hw). eexists. split; [reflexivity |].
    rewrite JsonlStore_all_eq.
    erewrite all_run; [| reflexivity | exact Er]. cbn. rewrite Ec.
    apply read_records_serialize. exact Hs.
Qed.

(** What the full scan behind [all()] does: it steps over blank lines
    only.  On a Log that can be read, when every non-blank line decodes,
    [all()] returns the records of the lines in physical order; otherwise
    the first non-blank line that fails to decode ends the scan and
    [all()] raises that line's exception.  The store is left as it was. *)
Lemma all_is_a_strict_scan (st : state) (f : file string) :
  log_file st = Some f ->
  readable f = true ->
  (forall rs,
      Forall2 (fun l r => record_of_line "jsonl" (strip l) = Ok r)
              (nonblank_lines (content f)) rs ->
      IndexedJsonlStore.all st = (Ok rs, st))
  /\ (forall pre bad post rs e,
         nonblank_lines (content f) = pre ++ bad :: post ->
         Forall2 (fun l r => record_of_line "jsonl" (strip l) = Ok r) pre rs ->
         record_of_line "jsonl" (strip bad) = Raise e ->
         IndexedJsonlStore.all st = (Raise e, st)).
Proof.
  intros Hf Hr. rewrite (all_run st Hf Hr). unfold read_records, nonblank_lines. split.
  - intros rs Hd. rewrite (read_lines_ok _ Hd). reflexivity.
  - intros pre bad post rs e Hn Hd Hb.
    erewrite read_lines_fail; [reflexivity | exact Hn | exact Hd | exact Hb].
Qed.



End ReadClaims.

(** ** The index and the Log *)

Section IndexClaims.
Context `{L : PyLib}.

Local Arguments split_lines : simpl never.

Lemma entries_of_offsets (ps : list (nat * string)) :
  map ie_offset (entries_of ps) = map fst (filter indexed ps).
Proof.
  induction ps as [| p ps IH]; [reflexivity |].
  cbn [entries_of filter]. unfold indexed.
  destruct (blank p); cbn [negb andb]; [exact IH |].
  destruct (line_entry p) as [e | e] eqn:E; [| exact IH].
  cbn [map]. rewrite IH. f_equal.
  unfold line_entry in E. eapply entry_of_line_offset. exact E.
Qed.


(** On a regular line the rebuild and the readers agree: the rebuild
    passes it, and gives it an entry exactly when it is well-formed. *)
Lemma regular_facts (p : nat * string) :
  regular p = true -> passable p = true /\ indexed p = well_formed p.
Proof.
  unfold regular, passable, indexed, well_formed, skipped, line_entry, line_record.
  destruct (blank p); cbn [negb andb orb]; [intros _; split; reflexivity |].
  destruct (record_of_line "jsonl" (strip (snd p))) as [r | e] eqn:Hr.
  - rewrite (@record_of_line_entry _ _ _ _ _ (fst p) Hr). intros _. split; reflexivity.
  - destruct (entry_of_line (fst p) (strip (snd p))) as [x | e'] eqn:He.
    + discriminate.
    + cbn [orb]. intros ->. split; reflexivity.
Qed.

Lemma regular_lines (ps : list (nat * string)) :
  forallb regular ps = true ->
  forallb passable ps = true /\ filter indexed ps = filter well_formed ps.
Proof.
  induction ps as [| p ps IH]; [split; reflexivity |].
  cbn [forallb filter]. intros Hr. apply andb_true_iff in Hr. destruct Hr as [Hp Hps].
  destruct (regular_facts p Hp) as [-> ->]. destruct (IH Hps) as [-> ->].
  split; reflexivity.
Qed.




Lemma log_content_appended (st : state) (rs : list EmissionRecord) :
  content (appended_log st rs) = (log_content st ++ serialize rs)%string.
Proof.
  unfold appended_log, log_content. destruct (log_file st); reflexivity.
Qed.


End IndexClaims.

(** ** Queries through the index *)

Section QueryFacts.
Context `{L : PyLib}.

Local Arguments IndexedJsonlStore._load_index : simpl never.
Local Arguments IndexedJsonlStore._read_records_by_offsets : simpl never.
Local Arguments split_lines : simpl never.
Local Arguments sorted : simpl never.

(** A query that loads the index and then only reads: it never raises,
    leaves the Log as it is, leaves the sidecar as it is when there was
    nothing to rebuild, and finds nothing in a Log it cannot read. *)
Lemma load_then_read {A} (k : list IndexEntry -> M (list A)) (st : state) :
  (forall idx s, exists rs s',
      k idx s = (Ok rs, s') /\ same_but_logged s s' /\ (log_readable s = false -> rs = [])) ->
  exists rs st',
    bind IndexedJsonlStore._load_index (fun _ => bind (get _index) k) st = (Ok rs, st')
    /\ log_file st' = log_file st
    /\ (sidecar_loads st = true -> idx_file st' = idx_file st)
    /\ (log_readable st = false -> rs = []).
Proof.
  intros Hk. unfold bind at 1.
  destruct (_load_index_spec st) as (st1 & -> & E1 & E2 & E3 & E4 & E5).
  unfold bind, get.
  destruct (Hk (_index st1) st1) as (rs & s' & -> & (F1 & F2 & F3 & F4 & F5) & Hrs).
  exists rs, s'. split; [reflexivity |]. repeat split.
  - congruence.
  - intros Hl. rewrite F2. auto.
  - intros Hr. apply Hrs. unfold log_readable in *. rewrite E1. exact Hr.
Qed.

Lemma read_is_harmless (g : list IndexEntry -> list nat) (idx : list IndexEntry) (s : state) :
  exists rs s',
    IndexedJsonlStore._read_records_by_offsets (g idx) s = (Ok rs, s')
    /\ same_but_logged s s' /\ (log_readable s = false -> rs = []).
Proof.
  destruct (_read_records_by_offsets_spec (g idx) s) as (rs & s' & E & Hs & _ & Hr).
  exists rs, s'. auto.
Qed.

Lemma guarded_read_is_harmless (g : list IndexEntry -> list nat)
      (idx : list IndexEntry) (s : state) :
  exists rs s',
    match idx with
    | [] => ret []
    | _ => IndexedJsonlStore._read_records_by_offsets (g idx)
    end s = (Ok rs, s')
    /\ same_but_logged s s' /\ (log_readable s = false -> rs = []).
Proof.
  destruct idx as [| e idx]; [| apply read_is_harmless].
  exists [], s. repeat split.
Qed.

Lemma tail_spec (n : Z) (st : state) :
  exists rs st',
    IndexedJsonlStore.tail n st = (Ok rs, st')
    /\ log_file st' = log_file st
    /\ (sidecar_loads st = true -> idx_file st' = idx_file st)
    /\ (log_readable st = false -> rs = []).
Proof.
  apply (load_then_read
           (fun idx => match idx with
                       | [] => ret []
                       | _ => IndexedJsonlStore._read_records_by_offsets
                                (map ie_offset
                                     (if (n <=? Z.of_nat (List.length idx))%Z
                                      then slice_from (- n) idx else idx))
                       end)).
  intros idx s.
  apply (guarded_read_is_harmless
           (fun idx => map ie_offset (if (n <=? Z.of_nat (List.length idx))%Z
                                      then slice_from (- n) idx else idx))).
Qed.

Lemma query_time_range_spec (start end_ : option datetime) (st : state) :
  exists rs st',
    IndexedJsonlStore.query_time_range start end_ st = (Ok rs, st')
    /\ log_file st' = log_file st
    /\ (sidecar_loads st = true -> idx_file st' = idx_file st)
    /\ (log_readable st = false -> rs = []).
Proof.
  apply (load_then_read
           (fun idx => match idx with
                       | [] => ret []
                       | _ => IndexedJsonlStore._read_records_by_offsets
                                (map ie_offset
                                     (filter (fun e => IndexedJsonlStore.in_range
                                                         start end_ (ie_timestamp e)) idx))
                       end)).
  intros idx s.
  apply (guarded_read_is_harmless
           (fun idx => map ie_offset
                           (filter (fun e => IndexedJsonlStore.in_range
                                               start end_ (ie_timestamp e)) idx))).
Qed.

Lemma query_by_site_spec (site : string) (st : state) :
  exists rs st',
    IndexedJsonlStore.query_by_site site st = (Ok rs, st')
    /\ log_file st' = log_file st
    /\ (sidecar_loads st = true -> idx_file st' = idx_file st)
    /\ (log_readable st = false -> rs = []).
Proof.
  apply (load_then_read
           (fun idx => IndexedJsonlStore._read_records_by_offsets
                         (map ie_offset
                              (filter (fun e => String.eqb (ie_site_id e) site) idx)))).
  intros idx s.
  apply (read_is_harmless
           (fun idx => map ie_offset (filter (fun e => String.eqb (ie_site_id e) site) idx))).
Qed.

Lemma query_by_region_spec (region : string) (st : state) :
  exists rs st',
    IndexedJsonlStore.query_by_region region st = (Ok rs, st')
    /\ log_file st' = log_file st
    /\ (sidecar_loads st = true -> idx_file st' = idx_file st)
    /\ (log_readable st = false -> rs = []).
Proof.
  apply (load_then_read
           (fun idx => IndexedJsonlStore._read_records_by_offsets
                         (map ie_offset
                              (filter (fun e => String.eqb (ie_region_id e) region) idx)))).
  intros idx s.
  apply (read_is_harmless
           (fun idx => map ie_offset
                           (filter (fun e => String.eqb (ie_region_id e) region) idx))).
Qed.

Lemma get_sites_spec (st : state) :
  exists l st',
    IndexedJsonlStore.get_sites st = (Ok l, st')
    /\ log_file st' = log_file st
    /\ (sidecar_loads st = true -> idx_file st' = idx_file st).
Proof.
  unfold IndexedJsonlStore.get_sites, bind, get, ret.
  destruct (_load_index_spec st) as (st1 & -> & E1 & _ & _ & _ & E5).
  eexists _, _. split; [reflexivity |]. split; assumption.
Qed.

Lemma get_regions_spec (st : state) :
  exists l st',
    IndexedJsonlStore.get_regions st = (Ok l, st')
    /\ log_file st' = log_file st
    /\ (sidecar_loads st = true -> idx_file st' = idx_file st).
Proof.
  unfold IndexedJsonlStore.get_regions, bind, get, ret.
  destruct (_load_index_spec st) as (st1 & -> & E1 & _ & _ & _ & E5).
  eexists _, _. split; [reflexivity |]. split; assumption.
Qed.

(** The queries by full scan leave the whole state as it is. *)
Lemma all_state (st : state) : snd (IndexedJsonlStore.all st) = st.
Proof.
  unfold IndexedJsonlStore.all, try_except, bind, open_r, get, lift, raise, ret.
  cbn. destruct (log_file st) as [f |]; cbn; [| reflexivity].
  destruct (readable f); cbn; [| reflexivity].
  destruct (read_records (content f)) as [rs | e]; cbn; [reflexivity |].
  destruct (is_FileNotFoundError e); reflexivity.
Qed.

Lemma summary_run (st : state) :
  IndexedJsonlStore.summary st
  = (match fst (IndexedJsonlStore.all st) with
     | Ok rs => Ok (summary_of rs)
     | Raise e => Raise e
     end, st).
Proof.
  unfold IndexedJsonlStore.summary, bind, ret.
  pose proof (all_state st) as Hs.
  destruct (IndexedJsonlStore.all st) as [[rs | e] st']; cbn in *; subst; reflexivity.
Qed.

Lemma to_dicts_run (st : state) :
  IndexedJsonlStore.to_dicts st
  = (match fst (IndexedJsonlStore.all st) with
     | Ok rs => Ok (map dict_of rs)
     | Raise e => Raise e
     end, st).
Proof.
  unfold IndexedJsonlStore.to_dicts, bind, ret.
  pose proof (all_state st) as Hs.
  destruct (IndexedJsonlStore.all st) as [[rs | e] st']; cbn in *; subst; reflexivity.
Qed.

End QueryFacts.

(** ** Failures, the sidecar, and what queries leave alone *)

Section EffectClaims.
Context `{L : PyLib}.

Local Arguments IndexedJsonlStore._load_index : simpl never.
Local Arguments IndexedJsonlStore._rebuild_index : simpl never.
Local Arguments IndexedJsonlStore._save_index : simpl never.
Local Arguments split_lines : simpl never.

Lemma rebuilt_index_corresponds (st : state) :
  log_readable st = true ->
  forallb regular (log_lines (log_content st)) = true ->
  corresponds (log_content st) (rebuilt_index st).
Proof.
  unfold corresponds, well_formed_offsets, rebuilt_index, log_readable, log_content.
  destruct (log_file st) as [f |]; [| discriminate].
  intros -> Hreg. destruct (regular_lines _ Hreg) as [-> <-]. cbn. apply entries_of_offsets.
Qed.

(** One line [_rebuild_index] cannot pass costs the whole index, however
    many well-formed lines the Log has. *)
Lemma rebuild_stops_at_an_impassable_line (st : state) :
  forallb passable (log_lines (log_content st)) = false ->
  fst (IndexedJsonlStore._rebuild_index st) = Ok tt
  /\ _index (snd (IndexedJsonlStore._rebuild_index st)) = [].
Proof.
  intros Hp. destruct (_rebuild_index_spec st) as (st' & -> & _ & _ & Hi & _).
  split; [reflexivity |]. cbn [snd]. rewrite Hi.
  unfold rebuilt_index, log_content in *.
  destruct (log_file st) as [f |]; [| reflexivity].
  rewrite Hp, andb_false_r. reflexivity.
Qed.

Lemma append_unwritable (rs : list EmissionRecord) (st : state) :
  log_writable st = false ->
  fst (IndexedJsonlStore.append rs st) = Raise PermissionError.
Proof.
  intros Hw. unfold IndexedJsonlStore.append, bind at 1.
  destruct (_load_index_spec st) as (st1 & -> & E1 & _).
  unfold log_writable in Hw. rewrite <- E1 in Hw.
  unfold try_except, bind, open_a, get, raise, log_error_with_context, emit, Exception.
  cbn. destruct (log_file st1) as [f |]; [| discriminate].
  rewrite Hw. reflexivity.
Qed.

(** [append] on a Log that cannot be opened for writing, in full. *)
Lemma append_denied (rs : list EmissionRecord) (st : state) :
  log_writable st = false ->
  exists st1,
    IndexedJsonlStore._load_index st = (Ok tt, st1)
    /\ IndexedJsonlStore.append rs st
       = (Raise PermissionError,
          mkState (log_file st1) (idx_file st1) (_index st1) (_index_loaded st1)
                  (logged st1 ++ [Log ERROR "Failed to append records" (Some 0)
                                      (Some PermissionError)])
                  (idx_seen st1)).
Proof.
  intros Hw. unfold IndexedJsonlStore.append, bind at 1.
  destruct (_load_index_spec st) as (st1 & -> & E1 & _).
  exists st1. split; [reflexivity |].
  unfold log_writable in Hw. rewrite <- E1 in Hw.
  unfold try_except, bind, open_a, get, raise, log_error_with_context, emit, Exception.
  cbn. destruct (log_file st1) as [f |] eqn:Hf; [| discriminate].
  rewrite Hw. cbn. rewrite ?Hf. reflexivity.
Qed.

(** A query that loads the index and reads the offsets [g] selects, on a
    Log that cannot be opened: the empty list, and the error of [open]
    logged when there was an offset to read. *)
Lemma load_then_denied (g : list IndexEntry -> list nat) (st : state) :
  log_readable st = false ->
  exists st',
    bind IndexedJsonlStore._load_index
         (fun _ => bind (get _index)
                     (fun idx => IndexedJsonlStore._read_records_by_offsets (g idx))) st
    = (Ok [], st')
    /\ logged st'
       = logged (snd (IndexedJsonlStore._load_index st))
         ++ failed_read st (g (_index (snd (IndexedJsonlStore._load_index st)))).
Proof.
  intros Hr. unfold bind at 1.
  destruct (_load_index_spec st) as (st1 & -> & E1 & _). cbn [snd]. unfold bind, get.
  destruct (_read_records_by_offsets_denied (g (_index st1)) st1) as (st' & -> & _ & Hl).
  { unfold log_readable in *. rewrite E1. exact Hr. }
  exists st'. split; [reflexivity |].
  rewrite Hl. unfold failed_read, open_failure. rewrite E1. reflexivity.
Qed.

(** The same behind the guard [if not self._index: return []]. *)
Lemma load_then_denied_guarded (g : list IndexEntry -> list nat) (st : state) :
  g [] = [] ->
  log_readable st = false ->
  exists st',
    bind IndexedJsonlStore._load_index
         (fun _ => bind (get _index)
                     (fun idx =>
                        match idx with
                        | [] => ret []
                        | _ => IndexedJsonlStore._read_records_by_offsets (g idx)
                        end)) st
    = (Ok [], st')
    /\ logged st'
       = logged (snd (IndexedJsonlStore._load_index st))
         ++ failed_read st (g (_index (snd (IndexedJsonlStore._load_index st)))).
Proof.
  intros Hg Hr. unfold bind at 1.
  destruct (_load_index_spec st) as (st1 & -> & E1 & _). cbn [snd]. unfold bind, get.
  destruct (_index st1) as [| e idx] eqn:Hi.
  - exists st1. split; [reflexivity |]. rewrite Hg. cbn. rewrite app_nil_r. reflexivity.
  - destruct (_read_records_by_offsets_denied (g (e :: idx)) st1) as (st' & -> & _ & Hl).
    { unfold log_readable in *. rewrite E1. exact Hr. }
    exists st'. split; [reflexivity |].
    rewrite Hl. unfold failed_read, open_failure. rewrite E1. reflexivity.
Qed.

Lemma tail_entries_nil (n : Z) : map ie_offset (tail_entries n []) = [].
Proof.
  unfold tail_entries, slice_from. cbn [List.length].
  destruct (n <=? Z.of_nat 0)%Z; [| reflexivity].
  destruct (- n <? 0)%Z; rewrite skipn_nil; reflexivity.
Qed.

(** C6, as the code has it.  A failure is an [open] that is refused.  A
    Log that cannot be opened for writing makes [append] raise, after the
    error has been logged and with the Log as it was; a Log that exists
    and cannot be opened for reading makes [all], [summary] and [to_dicts]
    raise.  The queries through the index never raise.  On a Log they
    cannot open, [tail], [query_time_range], [query_by_site] and
    [query_by_region] return the empty list; they log the error of [open]
    when the index gave them an entry to read, and nothing when it gave
    them none, for then the Log is not opened.  [get_sites] and
    [get_regions] never open the Log: they answer from the index, whatever
    the state of the Log.  Loading, rebuilding and saving the index never
    raise: a sidecar that gives no index makes the load rebuild, a rebuild
    that cannot open a Log that is not empty logs the error and leaves the
    index empty, a save that cannot open the sidecar logs the error and
    leaves the sidecar as it was, and [append] returns its count whatever
    the state of the sidecar.  A Log that does not exist is an empty
    store. *)
Theorem what_io_failures_reach_the_caller
        (st : state) (rs : list EmissionRecord) (n : Z)
        (start end_ : option datetime) (key : string) :
  (log_writable st = false ->
   fst (IndexedJsonlStore.append rs st) = Raise PermissionError
   /\ log_file (snd (IndexedJsonlStore.append rs st)) = log_file st
   /\ logged (snd (IndexedJsonlStore.append rs st))
      = logged (snd (IndexedJsonlStore._load_index st))
        ++ [Log ERROR "Failed to append records" (Some 0) (Some PermissionError)])
  /\ (log_file st <> None -> log_readable st = false ->
      fst (IndexedJsonlStore.all st) = Raise PermissionError
      /\ fst (IndexedJsonlStore.summary st) = Raise PermissionError
      /\ fst (IndexedJsonlStore.to_dicts st) = Raise PermissionError)
  /\ ((exists l, fst (IndexedJsonlStore.tail n st) = Ok l)
      /\ (exists l, fst (IndexedJsonlStore.query_time_range start end_ st) = Ok l)
      /\ (exists l, fst (IndexedJsonlStore.query_by_site key st) = Ok l)
      /\ (exists l, fst (IndexedJsonlStore.query_by_region key st) = Ok l)
      /\ (exists l, fst (IndexedJsonlStore.get_sites st) = Ok l)
      /\ (exists l, fst (IndexedJsonlStore.get_regions st) = Ok l))
  /\ (log_readable st = false ->
      let idx := _index (snd (IndexedJsonlStore._load_index st)) in
      let loaded := logged (snd (IndexedJsonlStore._load_index st)) in
      (fst (IndexedJsonlStore.tail n st) = Ok []
       /\ logged (snd (IndexedJsonlStore.tail n st))
          = loaded ++ failed_read st (map ie_offset (tail_entries n idx)))
      /\ (fst (IndexedJsonlStore.query_time_range start end_ st) = Ok []
          /\ logged (snd (IndexedJsonlStore.query_time_range start end_ st))
             = loaded
               ++ failed_read st
                    (map ie_offset
                         (filter (fun e => IndexedJsonlStore.in_range
                                             start end_ (ie_timestamp e)) idx)))
      /\ (fst (IndexedJsonlStore.query_by_site key st) = Ok []
          /\ logged (snd (IndexedJsonlStore.query_by_site key st))
             = loaded
               ++ failed_read st
                    (map ie_offset
                         (filter (fun e => String.eqb (ie_site_id e) key) idx)))
      /\ (fst (IndexedJsonlStore.query_by_region key st) = Ok []
          /\ logged (snd (IndexedJsonlStore.query_by_region key st))
             = loaded
               ++ failed_read st
                    (map ie_offset
                         (filter (fun e => String.eqb (ie_region_id e) key) idx))))
  /\ (let st1 := snd (IndexedJsonlStore._load_index st) in
      IndexedJsonlStore.get_sites st = (Ok (set_of (map ie_site_id (_index st1))), st1)
      /\ IndexedJsonlStore.get_regions st = (Ok (set_of (map ie_region_id (_index st1))), st1))
  /\ (fst (IndexedJsonlStore._load_index st) = Ok tt
      /\ (_index_loaded st = false -> sidecar_pickled st = false ->
          exists s0,
            same_but_logged st s0
            /\ IndexedJsonlStore._load_index st
               = (Ok tt, mark_loaded (snd (IndexedJsonlStore._rebuild_index s0))))
      /\ fst (IndexedJsonlStore._rebuild_index st) = Ok tt
      /\ (log_readable st = false ->
          _index (snd (IndexedJsonlStore._rebuild_index st)) = [])
      /\ (forall f, log_file st = Some f -> readable f = false ->
                    content f <> EmptyString ->
                    logged (snd (IndexedJsonlStore._rebuild_index st))
                    = logged st ++ [Log ERROR "Failed to rebuild index" None
                                        (Some PermissionError)])
      /\ fst (IndexedJsonlStore._save_index st) = Ok tt
      /\ (sidecar_writable st = false ->
          idx_file (snd (IndexedJsonlStore._save_index st)) = idx_file st
          /\ logged (snd (IndexedJsonlStore._save_index st))
             = logged st ++ [Log ERROR "Failed to save index" None (Some PermissionError)])
      /\ (log_writable st = true ->
          fst (IndexedJsonlStore.append rs st) = Ok (List.length rs)))
  /\ (log_file st = None ->
      fst (IndexedJsonlStore.all st) = Ok []
      /\ fst (IndexedJsonlStore.summary st) = Ok (summary_of [])
      /\ fst (IndexedJsonlStore.to_dicts st) = Ok []
      /\ fst (IndexedJsonlStore.append rs st) = Ok (List.length rs)).
Proof.
  split.
  { intros Hw. destruct (append_denied rs st Hw) as (st1 & E1 & ->).
    rewrite E1. cbn [fst snd log_file logged].
    destruct (_load_index_spec st) as (s1 & E1' & F1 & _).
    rewrite E1 in E1'. inversion E1'; subst s1. repeat split. exact F1. }
  split.
  { intros Hex Hr. unfold log_readable in Hr.
    destruct (log_file st) as [f |] eqn:Hf; [| congruence].
    rewrite summary_run, to_dicts_run, (all_unreadable st Hf Hr). repeat split. }
  split.
  { destruct (tail_spec n st) as (r1 & s1 & E1 & _).
    destruct (query_time_range_spec start end_ st) as (r2 & s2 & E2 & _).
    destruct (query_by_site_spec key st) as (r3 & s3 & E3 & _).
    destruct (query_by_region_spec key st) as (r4 & s4 & E4 & _).
    destruct (get_sites_spec st) as (r5 & s5 & E5 & _).
    destruct (get_regions_spec st) as (r6 & s6 & E6 & _).
    rewrite E1, E2, E3, E4, E5, E6. repeat split; eexists; reflexivity. }
  split.
  { intros Hr. cbn zeta.
    destruct (load_then_denied_guarded
                (fun idx => map ie_offset (tail_entries n idx)) st (tail_entries_nil n) Hr)
      as (t1 & T1 & L1).
    destruct (load_then_denied_guarded
                (fun idx => map ie_offset
                              (filter (fun e => IndexedJsonlStore.in_range
                                                  start end_ (ie_timestamp e)) idx))
                st eq_refl Hr) as (t2 & T2 & L2).
    destruct (load_then_denied
                (fun idx => map ie_offset
                              (filter (fun e => String.eqb (ie_site_id e) key) idx))
                st Hr) as (t3 & T3 & L3).
    destruct (load_then_denied
                (fun idx => map ie_offset
                              (filter (fun e => String.eqb (ie_region_id e) key) idx))
                st Hr) as (t4 & T4 & L4).
    assert (E1 : IndexedJsonlStore.tail n st = (Ok [], t1)) by exact T1.
    assert (E2 : IndexedJsonlStore.query_time_range start end_ st = (Ok [], t2)) by exact T2.
    assert (E3 : IndexedJsonlStore.query_by_site key st = (Ok [], t3)) by exact T3.
    assert (E4 : IndexedJsonlStore.query_by_region key st = (Ok [], t4)) by exact T4.
    rewrite E1, E2, E3, E4. cbn [fst snd]. repeat split; assumption. }
  split.
  { cbn zeta. unfold IndexedJsonlStore.get_sites, IndexedJsonlStore.get_regions, bind, get, ret.
    destruct (_load_index_spec st) as (s1 & -> & _). split; reflexivity. }
  split.
  { destruct (_load_index_spec st) as (s & El & _).
    destruct (_rebuild_index_spec st) as (s' & Er & _ & _ & Hri & _).
    rewrite _save_index_run. rewrite El, Er. cbn [fst snd].
    split; [reflexivity |]. split.
    { intros Hl Hp. rewrite <- El. apply _load_index_rebuilds; assumption. }
    split; [reflexivity |]. split.
    { intros Hr. rewrite Hri. unfold rebuilt_index, log_readable in *.
      destruct (log_file st) as [f |]; [| reflexivity]. rewrite Hr. reflexivity. }
    split.
    { intros f Hf Hr Hne. rewrite (_rebuild_index_denied st Hf Hr Hne) in Er.
      inversion Er. reflexivity. }
    split; [reflexivity |]. split.
    { intros Hw. split; [apply saved_sidecar_unwritable; exact Hw
                        | apply saved_logged_unwritable; exact Hw]. }
    intros Hw. destruct (append_run rs st Hw) as (s'' & -> & _). reflexivity. }
  intros Hf. rewrite summary_run, to_dicts_run, (all_missing st Hf). repeat split.
  assert (Hw : log_writable st = true) by (unfold log_writable; rewrite Hf; reflexivity).
  destruct (append_run rs st Hw) as (s' & -> & _). reflexivity.
Qed.

(** C7, as the code has it.  [_save_index] never raises and leaves the Log
    and the index in memory as they are.  When the sidecar can be opened
    for writing, the save rewrites it in place: the sidecar path first
    holds the truncated, empty file, then the whole pickled index, which is
    what it holds in the end.  When it cannot, the sidecar stays as it was
    and the failure is logged as an error. *)
Theorem save_rewrites_sidecar_in_place (st : state) :
  let st' := snd (IndexedJsonlStore._save_index st) in
  fst (IndexedJsonlStore._save_index st) = Ok tt
  /\ log_file st' = log_file st
  /\ _index st' = _index st
  /\ (sidecar_writable st = true ->
      sidecar_content st' = Some (Pickled (_index st))
      /\ idx_seen st' = idx_seen st ++ [Truncated; Pickled (_index st)])
  /\ (sidecar_writable st = false ->
      idx_file st' = idx_file st
      /\ idx_seen st' = idx_seen st
      /\ logged st'
         = logged st ++ [Log ERROR "Failed to save index" None (Some PermissionError)]).
Proof.
  cbn zeta. rewrite _save_index_run. cbn [fst snd].
  split; [reflexivity |]. split; [apply saved_log_file |]. split; [apply saved_index |].
  split; [apply saved_sidecar_writable |].
  intros Hw. destruct (saved_sidecar_unwritable st Hw) as [E1 E2].
  split; [exact E1 |]. split; [exact E2 |]. apply saved_logged_unwritable. exact Hw.
Qed.

Lemma reopen_facts (st : state) (f : file string) :
  log_file st = Some f ->
  log_file (reopen st) = Some f /\ idx_file (reopen st) = idx_file st
  /\ _index_loaded (reopen st) = false.
Proof. intros Hf. unfold reopen, IndexedJsonlStore.init. cbn. rewrite Hf. repeat split. Qed.

(** C8, as the code has it.  When the Log can be written and the sidecar
    cannot be opened for writing, [append] still returns the number of
    records, the Log has gained their lines, the failure of the save is
    logged and the sidecar is as it was before.  A new store object then
    takes its index from that sidecar when it still holds a readable
    pickled index - the one saved before these records, without a
    rebuild - and rebuilds it otherwise; the rebuilt index corresponds to
    the Log when the Log can be read, is plain text and is regular. *)
Theorem append_outlives_failed_save (st : state) (rs : list EmissionRecord) :
  log_writable st = true ->
  sidecar_writable st = false ->
  let st' := snd (IndexedJsonlStore.append rs st) in
  let st'' := snd (IndexedJsonlStore._load_index (reopen st')) in
  fst (IndexedJsonlStore.append rs st) = Ok (List.length rs)
  /\ log_content st' = (log_content st ++ serialize rs)%string
  /\ idx_file st' = idx_file st
  /\ (exists before,
        logged st'
        = before ++ [Log ERROR "Failed to save index" None (Some PermissionError);
                     Log INFO "Appended records" (Some (List.length rs)) None])
  /\ (forall f l, idx_file st = Some f -> readable f = true -> content f = Pickled l ->
                  _index st'' = l)
  /\ (sidecar_pickled st = false ->
      log_readable st' = true ->
      plain (log_content st') = true ->
      forallb regular (log_lines (log_content st')) = true ->
      corresponds (log_content st'') (_index st'')).
Proof.
  intros Hw Hs. cbn zeta.
  assert (Hlog : exists before,
             logged (snd (IndexedJsonlStore.append rs st))
             = before ++ [Log ERROR "Failed to save index" None (Some PermissionError);
                          Log INFO "Appended records" (Some (List.length rs)) None]).
  { destruct (append_steps rs st Hw) as (st1 & E1 & ->).
    destruct (_load_index_spec st) as (s1 & E1' & _ & _ & _ & Hx1 & _).
    rewrite E1 in E1'. inversion E1'; subst s1.
    unfold emit. cbn [snd logged].
    rewrite saved_logged_unwritable.
    - cbn [logged]. exists (logged st1). rewrite <- app_assoc. reflexivity.
    - unfold sidecar_writable in *. cbn [idx_file]. rewrite (Hx1 Hs). exact Hs. }
  destruct (append_run rs st Hw) as (st' & E & Hf & _ & _ & Hx). rewrite E in *. cbn [fst snd] in *.
  specialize (Hx Hs).
  destruct (reopen_facts st' Hf) as (R1 & R2 & R3).
  destruct (_load_index_spec (reopen st')) as (st'' & E' & L1 & _ & L3 & _).
  rewrite E'. cbn [snd].
  assert (Hc : log_content st' = (log_content st ++ serialize rs)%string).
  { unfold log_content at 1. rewrite Hf.
    unfold appended_log, log_content. destruct (log_file st); reflexivity. }
  split; [reflexivity |]. split; [exact Hc |]. split; [exact Hx |].
  split; [exact Hlog |].
  unfold loaded_index in L3. rewrite R3, R2, Hx in L3.
  split.
  - intros f l Hf' Hr Hp. rewrite L3, Hf', Hr, Hp. reflexivity.
  - intros Hp Hr _ Hpass.
    assert (Hreb : _index st'' = rebuilt_index st').
    { rewrite L3. unfold sidecar_pickled in Hp.
      assert (Hri : rebuilt_index (reopen st') = rebuilt_index st').
      { unfold rebuilt_index. rewrite R1, Hf. reflexivity. }
      rewrite Hri.
      destruct (idx_file st) as [f |]; [| reflexivity].
      destruct (readable f); [| reflexivity].
      destruct (content f); [discriminate | reflexivity | reflexivity]. }
    assert (Hlc : log_content st'' = log_content st').
    { unfold log_content. rewrite L1, R1, Hf. reflexivity. }
    rewrite Hreb, Hlc. apply rebuilt_index_corresponds; assumption.
Qed.

(** C10.  No query of [IndexedJsonlStore] changes the Log file: after
    [all], [tail], [summary], [to_dicts], [query_time_range],
    [query_by_site], [query_by_region], [get_sites] and [get_regions] the
    Log is the file it was.  The sidecar is the file it was, too, unless
    the query had to rebuild the index on its first load (index not yet in
    memory, and no readable pickled sidecar). *)
Theorem queries_leave_the_log_alone
        (st : state) (n : Z) (start end_ : option datetime) (key : string) :
  let untouched (st' : state) :=
    log_file st' = log_file st
    /\ (sidecar_loads st = true -> idx_file st' = idx_file st) in
  untouched (snd (IndexedJsonlStore.all st))
  /\ untouched (snd (IndexedJsonlStore.tail n st))
  /\ untouched (snd (IndexedJsonlStore.summary st))
  /\ untouched (snd (IndexedJsonlStore.to_dicts st))
  /\ untouched (snd (IndexedJsonlStore.query_time_range start end_ st))
  /\ untouched (snd (IndexedJsonlStore.query_by_site key st))
  /\ untouched (snd (IndexedJsonlStore.query_by_region key st))
  /\ untouched (snd (IndexedJsonlStore.get_sites st))
  /\ untouched (snd (IndexedJsonlStore.get_regions st)).
Proof.
  cbn zeta.
  destruct (tail_spec n st) as (r1 & s1 & E1 & A1 & B1 & _).
  destruct (query_time_range_spec start end_ st) as (r2 & s2 & E2 & A2 & B2 & _).
  destruct (query_by_site_spec key st) as (r3 & s3 & E3 & A3 & B3 & _).
  destruct (query_by_region_spec key st) as (r4 & s4 & E4 & A4 & B4 & _).
  destruct (get_sites_spec st) as (r5 & s5 & E5 & A5 & B5).
  destruct (get_regions_spec st) as (r6 & s6 & E6 & A6 & B6).
  rewrite E1, E2, E3, E4, E5, E6, summary_run, to_dicts_run, all_state. cbn [snd].
  repeat split; auto.
Qed.

End EffectClaims.

(** ** [tail] on a store that wrote its own Log *)

Section TailFacts.
Context `{L : PyLib}.

Local Arguments IndexedJsonlStore._load_index : simpl never.
Local Arguments IndexedJsonlStore._read_records_by_offsets : simpl never.
Local Arguments split_lines : simpl never.
Local Arguments sorted : simpl never.

Lemma record_line_length (r : EmissionRecord) : 1 <= String.length (record_line r).
Proof. unfold record_line. rewrite length_app. simpl. lia. Qed.

Lemma entries_from_increasing (rs : list EmissionRecord) (pos : nat) :
  StronglySorted lt (map ie_offset (entries_from pos rs))
  /\ Forall (fun o => pos <= o) (map ie_offset (entries_from pos rs)).
Proof.
  revert pos. induction rs as [| r rs IH]; intros pos; cbn.
  - split; constructor.
  - destruct (IH (pos + String.length (record_line r))) as [Hs Hb].
    pose proof (record_line_length r).
    split; constructor; try lia; try assumption;
      eapply Forall_impl; try exact Hb; cbn; intros; lia.
Qed.

Lemma skipn_entries_from (j : nat) (rs : list EmissionRecord) (pos : nat) :
  skipn j (entries_from pos rs)
  = entries_from (pos + String.length (serialize (firstn j rs))) (skipn j rs).
Proof.
  revert rs pos. induction j as [| j IH]; intros rs pos.
  - cbn. f_equal. lia.
  - destruct rs as [| r rs]; cbn.
    + reflexivity.
    + rewrite IH, length_app. f_equal. lia.
Qed.

Lemma serialize_firstn_skipn (j : nat) (rs : list EmissionRecord) :
  serialize rs = (serialize (firstn j rs) ++ serialize (skipn j rs))%string.
Proof. rewrite <- serialize_app, firstn_skipn. reflexivity. Qed.

(** Reading at the offset of a record's line finds the record. *)
Lemma record_at_line (pre rest : string) (r : EmissionRecord) :
  storable r ->
  record_at (pre ++ record_line r ++ rest) (String.length pre)
  = Some (as_read "indexed_jsonl" r)
  /\ fatal_at (pre ++ record_line r ++ rest) (String.length pre) = false.
Proof.
  intros Hr. unfold record_at, fatal_at, readline_at.
  rewrite drop_app_length, split_lines_record by exact Hr.
  destruct (strip_record_line Hr) as [-> ->].
  rewrite record_of_line_storable by exact Hr. split; reflexivity.
Qed.

Lemma read_entries_from (rs : list EmissionRecord) (pre : string) :
  Forall storable rs ->
  omap (record_at (pre ++ serialize rs))
       (map ie_offset (entries_from (String.length pre) rs))
  = map (as_read "indexed_jsonl") rs
  /\ forallb (fun o => negb (fatal_at (pre ++ serialize rs) o))
             (map ie_offset (entries_from (String.length pre) rs)) = true.
Proof.
  intros Hs. revert pre. induction Hs as [| r rs Hr _ IH]; intros pre.
  - split; reflexivity.
  - cbn [serialize entries_from map omap forallb ie_offset].
    destruct (record_at_line pre (serialize rs) Hr) as [-> ->].
    specialize (IH (pre ++ record_line r)%string).
    rewrite length_app, string_app_assoc in IH.
    destruct IH as [-> ->]. split; reflexivity.
Qed.

Lemma Forall_skipn_suffix {A} (P : A -> Prop) (j : nat) (l : list A) :
  Forall P l -> Forall P (skipn j l).
Proof.
  intros Hl. rewrite <- (firstn_skipn j l) in Hl.
  apply Forall_app in Hl. tauto.
Qed.

Lemma slice_from_skipn {A B} (i : Z) (l : list A) (l' : list B) :
  List.length l = List.length l' ->
  exists j, slice_from i l = skipn j l /\ slice_from i l' = skipn j l'.
Proof.
  intros Hl. unfold slice_from. rewrite Hl.
  destruct (i <? 0)%Z; eexists; split; reflexivity.
Qed.

(** [tail(n)] on a store whose index is in memory and was made by its own
    appends of storable records [rs]: the slice [rs[-n:]] when
    [n <= len(rs)], all of [rs] otherwise, each record as read back. *)
Lemma tail_run (st : state) (rs : list EmissionRecord) (n : Z) :
  _index_loaded st = true ->
  _index st = entries_from 0 rs ->
  log_content st = serialize rs ->
  log_readable st = true ->
  Forall storable rs ->
  fst (IndexedJsonlStore.tail n st)
  = Ok (map (as_read "indexed_jsonl")
            (if (n <=? Z.of_nat (List.length rs))%Z then slice_from (- n) rs else rs)).
Proof.
  intros Hl Hi Hc Hr Hs.
  unfold IndexedJsonlStore.tail, bind at 1.
  rewrite (_load_index_loaded st Hl). unfold bind, get. rewrite Hi.
  destruct rs as [| r0 rs0] eqn:Hrs.
  { cbn. destruct (n <=? 0)%Z; [| reflexivity].
    unfold slice_from. destruct (- n <? 0)%Z; rewrite skipn_nil; reflexivity. }
  rewrite <- Hrs in *.
  assert (Hnil : rs <> []) by (rewrite Hrs; discriminate).
  clear Hrs r0 rs0.
  assert (Hne : entries_from 0 rs <> []).
  { intros E. apply (f_equal (@List.length _)) in E.
    rewrite entries_from_length in E. destruct rs; [congruence | discriminate]. }
  destruct (entries_from 0 rs) as [| e0 es] eqn:He; [congruence |].
  cbv beta iota. rewrite <- He in *. clear Hne He e0 es.
  rewrite entries_from_length.
  assert (Hsuffix : forall j,
             exists st',
               IndexedJsonlStore._read_records_by_offsets
                 (map ie_offset (skipn j (entries_from 0 rs))) st
               = (Ok (map (as_read "indexed_jsonl") (skipn j rs)), st')).
  { intros j.
    rewrite skipn_entries_from. cbn [plus].
    destruct (read_entries_from (serialize (firstn j rs))
                                (Forall_skipn_suffix j Hs)) as [Hrec Hfat].
    rewrite <- serialize_firstn_skipn, <- Hc in Hrec, Hfat.
    match goal with
    | |- context [IndexedJsonlStore._read_records_by_offsets ?offs st] =>
        destruct (_read_records_by_offsets_spec offs st) as (rs' & st' & E & _ & Hok & _);
        exists st'; rewrite E, (Hok Hr Hfat);
        rewrite (sorted_id (l := offs)), Hrec;
        [reflexivity | apply StronglySorted_lt_le, entries_from_increasing]
    end. }
  destruct (n <=? Z.of_nat (List.length rs))%Z.
  - destruct (slice_from_skipn (- n) (entries_from 0 rs) rs (entries_from_length 0 rs))
      as (j & -> & ->).
    destruct (Hsuffix j) as (st' & ->). reflexivity.
  - destruct (Hsuffix 0) as (st' & E). cbn [skipn] in E. rewrite E. reflexivity.
Qed.

Lemma JsonlStore_tail_run (st : state) (rs : list EmissionRecord) (n : Z) :
  log_content st = serialize rs ->
  log_readable st = true ->
  Forall storable rs ->
  JsonlStore.tail n st = (Ok (slice_from (- n) (map (as_read "jsonl") rs)), st).
Proof.
  intros Hc Hr Hs. unfold JsonlStore.tail, bind.
  change JsonlStore._all_from_disk with IndexedJsonlStore.all.
  unfold log_readable, log_content in *.
  destruct (log_file st) as [f |] eqn:Hf; [| discriminate].
  rewrite (all_run st Hf Hr), Hc, (read_records_serialize Hs). reflexivity.
Qed.

(** C2, where the code departs from it.  On a store that holds the
    storable records [rs], [tail(0)] returns every record - the slice
    [self._index[-0:]] is the whole index - and not the empty list;
    [JsonlStore.tail(0)] does the same. *)
Theorem tail_zero_returns_every_record (st : state) (rs : list EmissionRecord) :
  _index_loaded st = true ->
  _index st = entries_from 0 rs ->
  log_content st = serialize rs ->
  log_readable st = true ->
  Forall storable rs ->
  fst (IndexedJsonlStore.tail 0 st) = Ok (map (as_read "indexed_jsonl") rs)
  /\ fst (JsonlStore.tail 0 st) = Ok (map (as_read "jsonl") rs).
Proof.
  intros Hl Hi Hc Hr Hs. split.
  - rewrite (tail_run st 0 Hl Hi Hc Hr Hs).
    replace (0 <=? Z.of_nat (List.length rs))%Z with true
      by (symmetry; apply Z.leb_le; lia).
    reflexivity.
  - rewrite (JsonlStore_tail_run st 0 Hc Hr Hs). reflexivity.
Qed.

(** The rest of C2 holds: [tail(k)] for [0 < k < len(rs)] returns the last
    [k] records, and [tail(n)] for [n >= len(rs)] returns them all, in the
    order of appending. *)
Lemma tail_positive (st : state) (rs : list EmissionRecord) (k : nat) :
  _index_loaded st = true ->
  _index st = entries_from 0 rs ->
  log_content st = serialize rs ->
  log_readable st = true ->
  Forall storable rs ->
  0 < k ->
  fst (IndexedJsonlStore.tail (Z.of_nat k) st)
  = Ok (map (as_read "indexed_jsonl") (skipn (List.length rs - k) rs)).
Proof.
  intros Hl Hi Hc Hr Hs Hk.
  rewrite (tail_run st (Z.of_nat k) Hl Hi Hc Hr Hs).
  destruct (Z.of_nat k <=? Z.of_nat (List.length rs))%Z eqn:E.
  - apply Z.leb_le in E. unfold slice_from.
    replace (- Z.of_nat k <? 0)%Z with true by (symmetry; apply Z.ltb_lt; lia).
    do 3 f_equal. lia.
  - apply Z.leb_gt in E.
    replace (List.length rs - k) with 0 by lia. reflexivity.
Qed.

End TailFacts.

(** ** Reading through an index that lists the records of the Log *)

Section IndexedReads.
Context `{L : PyLib}.

Local Arguments IndexedJsonlStore._load_index : simpl never.
Local Arguments IndexedJsonlStore._read_records_by_offsets : simpl never.
Local Arguments split_lines : simpl never.
Local Arguments sorted : simpl never.

Lemma offsets_of_keys (l : list IndexEntry) :
  map ie_offset l = map fst (map entry_key l).
Proof. rewrite map_map. reflexivity. Qed.

Lemma filter_by_fields (p : datetime * (string * string) -> bool) (l : list IndexEntry) :
  map entry_key (filter (fun e => p (entry_fields e)) l)
  = filter (fun k => p (snd k)) (map entry_key l).
Proof.
  induction l as [| e l IH]; [reflexivity |].
  cbn [filter map]. cbn [entry_key snd].
  destruct (p (entry_fields e)); cbn [map]; rewrite IH; reflexivity.
Qed.

Lemma indexes_length (idx : list IndexEntry) (rs : list EmissionRecord) :
  indexes idx rs -> List.length idx = List.length rs.
Proof.
  intros Hi. apply (f_equal (@List.length _)) in Hi.
  rewrite !length_map, entries_from_length in Hi. exact Hi.
Qed.

(** What a filter on the fields selects from an index that lists [rs] is
    what it selects from the entries [append] makes for [rs]. *)
Lemma selected_offsets (p : datetime * (string * string) -> bool)
      (idx : list IndexEntry) (rs : list EmissionRecord) :
  indexes idx rs ->
  map ie_offset (filter (fun e => p (entry_fields e)) idx)
  = map ie_offset (filter (fun e => p (entry_fields e)) (entries_from 0 rs)).
Proof.
  intros Hi. rewrite !offsets_of_keys, !filter_by_fields, Hi. reflexivity.
Qed.

Lemma skipped_offsets (j : nat) (idx : list IndexEntry) (rs : list EmissionRecord) :
  indexes idx rs ->
  map ie_offset (skipn j idx) = map ie_offset (skipn j (entries_from 0 rs)).
Proof.
  intros Hi. rewrite !offsets_of_keys, <- !skipn_map, Hi. reflexivity.
Qed.

(** Reading at the offsets a filter selects finds the records the same
    filter selects, in the order of the Log. *)
Lemma read_selected_entries (p : datetime * (string * string) -> bool)
      (rs : list EmissionRecord) (pre : string) :
  Forall storable rs ->
  omap (record_at (pre ++ serialize rs))
       (map ie_offset (filter (fun e => p (entry_fields e))
                              (entries_from (String.length pre) rs)))
  = map (as_read "indexed_jsonl") (filter (fun r => p (record_fields r)) rs)
  /\ forallb (fun o => negb (fatal_at (pre ++ serialize rs) o))
             (map ie_offset (filter (fun e => p (entry_fields e))
                                    (entries_from (String.length pre) rs))) = true.
Proof.
  intros Hs. revert pre. induction Hs as [| r rs Hr _ IH]; intros pre.
  - split; reflexivity.
  - cbn [serialize entries_from filter].
    change (entry_fields (mkIndexEntry (String.length pre) (String.length (record_line r))
                                       (timestamp r) (site_id r) (region_id r)))
      with (record_fields r).
    specialize (IH (pre ++ record_line r)%string).
    rewrite length_app, string_app_assoc in IH. destruct IH as [IH1 IH2].
    destruct (p (record_fields r)).
    + cbn [map omap forallb ie_offset].
      destruct (record_at_line pre (serialize rs) Hr) as [-> ->].
      rewrite IH1, IH2. split; reflexivity.
    + rewrite IH1, IH2. split; reflexivity.
Qed.

(** [_read_records_by_offsets] on increasing offsets none of which is
    fatal: the records found there, and nothing changed but the messages
    logged. *)
Lemma read_increasing_offsets (offsets : list nat) (st : state) :
  log_readable st = true ->
  StronglySorted lt offsets ->
  forallb (fun o => negb (fatal_at (log_content st) o)) offsets = true ->
  exists st',
    IndexedJsonlStore._read_records_by_offsets offsets st
    = (Ok (omap (record_at (log_content st)) offsets), st')
    /\ same_but_logged st st'.
Proof.
  intros Hr Hsorted Hfat.
  destruct (_read_records_by_offsets_spec offsets st) as (rs & st' & E & Hsame & Hok & _).
  exists st'. rewrite E, (Hok Hr Hfat), sorted_id by (apply StronglySorted_lt_le; exact Hsorted).
  split; [reflexivity | exact Hsame].
Qed.

Lemma same_but_logged_content (s s' : state) :
  same_but_logged s s' ->
  log_content s' = log_content s /\ log_readable s' = log_readable s
  /\ loaded_index s' = loaded_index s.
Proof.
  intros (E1 & E2 & E3 & E4 & E5).
  unfold log_content, log_readable, loaded_index, rebuilt_index.
  rewrite E1, E2, E3, E4. repeat split.
Qed.

(** Loading the index of a store that holds [rs] leaves a store that holds
    [rs] with the index in memory. *)
Lemma holds_load (st : state) (rs : list EmissionRecord) :
  holds st rs ->
  exists st1,
    IndexedJsonlStore._load_index st = (Ok tt, st1)
    /\ _index_loaded st1 = true
    /\ indexes (_index st1) rs
    /\ log_content st1 = serialize rs
    /\ log_readable st1 = true.
Proof.
  intros (Hi & Hc & Hr & _).
  destruct (_load_index_spec st) as (st1 & E & E1 & E2 & E3 & _).
  exists st1. unfold log_content, log_readable in *. rewrite E1, E3.
  repeat split; assumption.
Qed.

Lemma holds_after_read (st1 s' : state) (rs : list EmissionRecord) :
  _index_loaded st1 = true ->
  indexes (_index st1) rs ->
  log_content st1 = serialize rs ->
  log_readable st1 = true ->
  Forall storable rs ->
  same_but_logged st1 s' ->
  holds s' rs.
Proof.
  intros Hl Hi Hc Hr Hs Hsame.
  destruct (same_but_logged_content Hsame) as (F1 & F2 & F3).
  unfold holds. rewrite F1, F2, F3. unfold loaded_index. rewrite Hl.
  repeat split; assumption.
Qed.

(** Reading, with the index in memory, the entries a filter on the fields
    selects: the records of [rs] the filter selects, in the order of [rs]. *)
Lemma select_loaded (p : datetime * (string * string) -> bool)
      (st1 : state) (rs : list EmissionRecord) :
  indexes (_index st1) rs ->
  log_content st1 = serialize rs ->
  log_readable st1 = true ->
  Forall storable rs ->
  exists st',
    IndexedJsonlStore._read_records_by_offsets
      (map ie_offset (filter (fun e => p (entry_fields e)) (_index st1))) st1
    = (Ok (map (as_read "indexed_jsonl") (filter (fun r => p (record_fields r)) rs)), st')
    /\ same_but_logged st1 st'.
Proof.
  intros Hi Hc Hr Hs.
  rewrite (selected_offsets p Hi).
  destruct (read_selected_entries p EmptyString Hs) as [Hrec Hfat].
  cbn [String.length append] in Hrec, Hfat. rewrite <- Hc in Hrec, Hfat.
  match goal with
  | |- context [IndexedJsonlStore._read_records_by_offsets ?offs st1] =>
      destruct (read_increasing_offsets (offsets := offs) st1 Hr) as (st' & E' & Hsame);
      [apply StronglySorted_filter_map, entries_from_increasing | exact Hfat |]
  end.
  exists st'. rewrite E', Hrec. split; [reflexivity | exact Hsame].
Qed.

(** Reading, with the index in memory, the entries from the [j]-th on:
    the records of [rs] from the [j]-th on. *)
Lemma suffix_loaded (j : nat) (st1 : state) (rs : list EmissionRecord) :
  indexes (_index st1) rs ->
  log_content st1 = serialize rs ->
  log_readable st1 = true ->
  Forall storable rs ->
  exists st',
    IndexedJsonlStore._read_records_by_offsets
      (map ie_offset (skipn j (_index st1))) st1
    = (Ok (map (as_read "indexed_jsonl") (skipn j rs)), st')
    /\ same_but_logged st1 st'.
Proof.
  intros Hi Hc Hr Hs.
  rewrite (skipped_offsets j Hi), skipn_entries_from. cbn [plus].
  destruct (read_entries_from (serialize (firstn j rs))
                              (Forall_skipn_suffix j Hs)) as [Hrec Hfat].
  rewrite <- serialize_firstn_skipn, <- Hc in Hrec, Hfat.
  match goal with
  | |- context [IndexedJsonlStore._read_records_by_offsets ?offs st1] =>
      destruct (read_increasing_offsets (offsets := offs) st1 Hr) as (st' & E' & Hsame);
      [apply entries_from_increasing | exact Hfat |]
  end.
  exists st'. rewrite E', Hrec. split; [reflexivity | exact Hsame].
Qed.

(** A query that keeps the entries a filter on the fields selects, on a
    store that holds [rs]: it returns the records of [rs] the filter
    selects, in the order of [rs], and leaves a store that holds [rs]. *)
Lemma select_run (p : datetime * (string * string) -> bool)
      (st : state) (rs : list EmissionRecord) :
  holds st rs ->
  exists st',
    bind IndexedJsonlStore._load_index
         (fun _ => bind (get _index)
                     (fun idx => IndexedJsonlStore._read_records_by_offsets
                                   (map ie_offset (filter (fun e => p (entry_fields e)) idx))))
         st
    = (Ok (map (as_read "indexed_jsonl") (filter (fun r => p (record_fields r)) rs)), st')
    /\ holds st' rs.
Proof.
  intros Hh. destruct (holds_load Hh) as (st1 & E & Hl & Hi & Hc & Hr).
  destruct Hh as (_ & _ & _ & Hs).
  unfold bind at 1. rewrite E. unfold bind, get.
  destruct (select_loaded p st1 Hi Hc Hr Hs) as (st' & -> & Hsame).
  exists st'. split; [reflexivity |].
  exact (holds_after_read Hl Hi Hc Hr Hs Hsame).
Qed.

(** The same behind the guard [if not self._index: return []]. *)
Lemma guarded_select_run (p : datetime * (string * string) -> bool)
      (st : state) (rs : list EmissionRecord) :
  holds st rs ->
  exists st',
    bind IndexedJsonlStore._load_index
         (fun _ => bind (get _index)
                     (fun idx =>
                        match idx with
                        | [] => ret []
                        | _ => IndexedJsonlStore._read_records_by_offsets
                                 (map ie_offset (filter (fun e => p (entry_fields e)) idx))
                        end))
         st
    = (Ok (map (as_read "indexed_jsonl") (filter (fun r => p (record_fields r)) rs)), st')
    /\ holds st' rs.
Proof.
  intros Hh. destruct (holds_load Hh) as (st1 & E & Hl & Hi & Hc & Hr).
  destruct Hh as (_ & _ & _ & Hs).
  unfold bind at 1. rewrite E. unfold bind, get.
  destruct (_index st1) as [| e0 idx0] eqn:Hidx.
  - pose proof (indexes_length Hi) as Hlen. destruct rs; [| discriminate].
    exists st1. split; [reflexivity |].
    rewrite <- Hidx in Hi.
    exact (holds_after_read Hl Hi Hc Hr Hs (same_but_logged_refl st1)).
  - rewrite <- Hidx in *.
    destruct (select_loaded p st1 Hi Hc Hr Hs) as (st' & -> & Hsame).
    exists st'. split; [reflexivity |].
    exact (holds_after_read Hl Hi Hc Hr Hs Hsame).
Qed.

(** [l[-n:]] when [n] exceeds the length: the whole list, which is what
    the guard of [tail] returns without slicing. *)
Lemma slice_from_all {A} (n : Z) (l : list A) :
  (Z.of_nat (List.length l) < n)%Z -> slice_from (- n) l = l.
Proof.
  intros Hn. unfold slice_from.
  replace (- n <? 0)%Z with true by (symmetry; apply Z.ltb_lt; lia).
  replace (Z.to_nat (Z.of_nat (List.length l) + - n)) with 0 by lia.
  reflexivity.
Qed.

(** [tail] on a store that holds [rs]. *)
Lemma tail_holds (n : Z) (st : state) (rs : list EmissionRecord) :
  holds st rs ->
  exists st',
    IndexedJsonlStore.tail n st
    = (Ok (map (as_read "indexed_jsonl") (slice_from (- n) rs)), st')
    /\ holds st' rs.
Proof.
  intros Hh. destruct (holds_load Hh) as (st1 & E & Hl & Hi & Hc & Hr).
  destruct Hh as (_ & _ & _ & Hs).
  unfold IndexedJsonlStore.tail, bind at 1. rewrite E. unfold bind, get.
  pose proof (indexes_length Hi) as Hlen.
  destruct (_index st1) as [| e0 idx0] eqn:Hidx.
  - destruct rs; [| discriminate].
    exists st1. split.
    + unfold slice_from. destruct (- n <? 0)%Z; rewrite skipn_nil; reflexivity.
    + rewrite <- Hidx in Hi.
      exact (holds_after_read Hl Hi Hc Hr Hs (same_but_logged_refl st1)).
  - rewrite <- Hidx in *. clear Hidx e0 idx0. rewrite Hlen.
    destruct (n <=? Z.of_nat (List.length rs))%Z eqn:Hn.
    + destruct (slice_from_skipn (- n) (_index st1) rs Hlen) as (j & -> & ->).
      destruct (suffix_loaded j st1 Hi Hc Hr Hs) as (st' & -> & Hsame).
      exists st'. split; [reflexivity |].
      exact (holds_after_read Hl Hi Hc Hr Hs Hsame).
    + apply Z.leb_gt in Hn. rewrite (slice_from_all _ Hn).
      destruct (suffix_loaded 0 st1 Hi Hc Hr Hs) as (st' & E' & Hsame).
      cbn [skipn] in E'. rewrite E'.
      exists st'. split; [reflexivity |].
      exact (holds_after_read Hl Hi Hc Hr Hs Hsame).
Qed.

End IndexedReads.

(** ** What the index-backed queries return *)

Section QueryResults.
Context `{L : PyLib}.

Local Arguments IndexedJsonlStore._load_index : simpl never.
Local Arguments IndexedJsonlStore._read_records_by_offsets : simpl never.
Local Arguments split_lines : simpl never.
Local Arguments sorted : simpl never.

Lemma in_range_within (start end_ : option datetime) (t : datetime) :
  IndexedJsonlStore.in_range start end_ t = within start end_ t
  /\ JsonlStore.in_range start end_ t = within start end_ t.
Proof.
  unfold IndexedJsonlStore.in_range, JsonlStore.in_range, within.
  destruct start as [s |], end_ as [e |]; cbn;
    try destruct (dt_ltb t s); try destruct (dt_ltb t e); split; reflexivity.
Qed.

Lemma filter_as_read (src : string) (p : datetime * (string * string) -> bool)
      (rs : list EmissionRecord) :
  filter (fun r => p (record_fields r)) (map (as_read src) rs)
  = map (as_read src) (filter (fun r => p (record_fields r)) rs).
Proof.
  induction rs as [| r rs IH]; [reflexivity |].
  cbn [map filter].
  change (record_fields (as_read src r)) with (record_fields r).
  destruct (p (record_fields r)); cbn [map]; rewrite IH; reflexivity.
Qed.

(** The full scan of a store that holds [rs]. *)
Lemma all_holds (st : state) (rs : list EmissionRecord) :
  holds st rs ->
  IndexedJsonlStore.all st = (Ok (map (as_read "jsonl") rs), st).
Proof.
  intros (_ & Hc & Hr & Hs). unfold log_readable, log_content in *.
  destruct (log_file st) as [f |] eqn:Hf; [| discriminate].
  rewrite (all_run st Hf Hr), Hc, (read_records_serialize Hs). reflexivity.
Qed.

(** X1.  [query_by_site] on a store that holds the storable records [rs]
    (its Log is their lines, and the index it has or will load lists them):
    it returns exactly the records of [rs] whose [site_id] is the one asked
    for, in the order of appending, each as a reader rebuilds it; the store
    still holds [rs] afterwards. *)
Theorem query_by_site_returns_the_records_of_the_site
        (st : state) (rs : list EmissionRecord) (site : string) :
  holds st rs ->
  fst (IndexedJsonlStore.query_by_site site st)
  = Ok (map (as_read "indexed_jsonl") (filter (fun r => String.eqb (site_id r) site) rs))
  /\ holds (snd (IndexedJsonlStore.query_by_site site st)) rs.
Proof.
  intros Hh.
  destruct (select_run (fun f => String.eqb (fst (snd f)) site) Hh) as (st' & E & Hh').
  assert (E' : IndexedJsonlStore.query_by_site site st
               = (Ok (map (as_read "indexed_jsonl")
                          (filter (fun r => String.eqb (site_id r) site) rs)), st'))
    by exact E.
  rewrite E'. split; [reflexivity | exact Hh'].
Qed.

(** X2.  [query_by_region] on a store that holds the storable records
    [rs]: exactly the records of [rs] whose [region_id] is the one asked
    for, in the order of appending; the store still holds [rs]. *)
Theorem query_by_region_returns_the_records_of_the_region
        (st : state) (rs : list EmissionRecord) (region : string) :
  holds st rs ->
  fst (IndexedJsonlStore.query_by_region region st)
  = Ok (map (as_read "indexed_jsonl") (filter (fun r => String.eqb (region_id r) region) rs))
  /\ holds (snd (IndexedJsonlStore.query_by_region region st)) rs.
Proof.
  intros Hh.
  destruct (select_run (fun f => String.eqb (snd (snd f)) region) Hh) as (st' & E & Hh').
  assert (E' : IndexedJsonlStore.query_by_region region st
               = (Ok (map (as_read "indexed_jsonl")
                          (filter (fun r => String.eqb (region_id r) region) rs)), st'))
    by exact E.
  rewrite E'. split; [reflexivity | exact Hh'].
Qed.

(** X3.  [query_time_range] on a store that holds the storable records
    [rs]: exactly the records of [rs] whose timestamp is not before [start]
    and is before [end_] (a bound that is [None] does not bind), in the
    order of appending.  [JsonlStore.query_time_range], which scans the
    whole Log, returns the same records under its own source tag. *)
Theorem query_time_range_is_half_open
        (st : state) (rs : list EmissionRecord) (start end_ : option datetime) :
  holds st rs ->
  fst (IndexedJsonlStore.query_time_range start end_ st)
  = Ok (map (as_read "indexed_jsonl")
            (filter (fun r => within start end_ (timestamp r)) rs))
  /\ fst (JsonlStore.query_time_range start end_ st)
     = Ok (map (as_read "jsonl")
               (filter (fun r => within start end_ (timestamp r)) rs)).
Proof.
  intros Hh. split.
  - destruct (guarded_select_run (fun f => IndexedJsonlStore.in_range start end_ (fst f)) Hh)
      as (st' & E & _).
    assert (E' : IndexedJsonlStore.query_time_range start end_ st
                 = (Ok (map (as_read "indexed_jsonl")
                            (filter (fun r => IndexedJsonlStore.in_range start end_ (timestamp r))
                                    rs)), st'))
      by exact E.
    rewrite E'. cbn [fst]. do 2 f_equal. apply filter_ext.
    intros r. apply in_range_within.
  - unfold JsonlStore.query_time_range, bind.
    change JsonlStore._all_from_disk with IndexedJsonlStore.all.
    rewrite (all_holds Hh). cbn [fst ret].
    rewrite (filter_as_read "jsonl" (fun f => JsonlStore.in_range start end_ (fst f))).
    do 2 f_equal. apply filter_ext. intros r. apply in_range_within.
Qed.

(** X4.  [tail(n)] for every integer [n], on a store that holds the
    storable records [rs]: the Python slice [rs[-n:]] - the last [n]
    records for [0 < n < len(rs)], all of them for [n >= len(rs)] and for
    [n = 0], the records from the [-n]-th on for [n < 0] - so that the
    guard [len(self._index) >= n] changes nothing, and [JsonlStore.tail]
    returns the same records under its own source tag. *)
Theorem tail_is_the_slice_of_the_records
        (st : state) (rs : list EmissionRecord) (n : Z) :
  holds st rs ->
  fst (IndexedJsonlStore.tail n st)
  = Ok (map (as_read "indexed_jsonl") (slice_from (- n) rs))
  /\ fst (JsonlStore.tail n st)
     = Ok (map (as_read "jsonl") (slice_from (- n) rs))
  /\ holds (snd (IndexedJsonlStore.tail n st)) rs.
Proof.
  intros Hh. destruct (tail_holds n Hh) as (st' & E & Hh').
  rewrite E. split; [reflexivity |]. split; [| exact Hh'].
  destruct Hh as (_ & Hc & Hr & Hs).
  rewrite (JsonlStore_tail_run st n Hc Hr Hs). cbn [fst]. f_equal.
  unfold slice_from. rewrite length_map.
  destruct (- n <? 0)%Z; rewrite skipn_map; reflexivity.
Qed.

End QueryResults.

(** ** The sites and regions of a store *)

Section SitesAndRegions.
Context `{L : PyLib}.

Local Arguments IndexedJsonlStore._load_index : simpl never.
Local Arguments IndexedJsonlStore._read_records_by_offsets : simpl never.
Local Arguments split_lines : simpl never.
Local Arguments sorted : simpl never.

Lemma fields_of_entries_from (pos : nat) (rs : list EmissionRecord) :
  map entry_fields (entries_from pos rs) = map record_fields rs.
Proof.
  revert pos. induction rs as [| r rs IH]; intros pos; [reflexivity |].
  cbn [entries_from map]. rewrite IH. reflexivity.
Qed.

Lemma indexes_fields (idx : list IndexEntry) (rs : list EmissionRecord) :
  indexes idx rs -> map entry_fields idx = map record_fields rs.
Proof.
  intros Hi. rewrite <- (fields_of_entries_from 0 rs).
  apply (f_equal (map snd)) in Hi. rewrite !map_map in Hi. exact Hi.
Qed.

Lemma indexes_sites (idx : list IndexEntry) (rs : list EmissionRecord) :
  indexes idx rs ->
  map ie_site_id idx = map site_id rs /\ map ie_region_id idx = map region_id rs.
Proof.
  intros Hi. apply indexes_fields in Hi. split.
  - apply (f_equal (map (fun f => fst (snd f)))) in Hi. rewrite !map_map in Hi. exact Hi.
  - apply (f_equal (map (fun f => snd (snd f)))) in Hi. rewrite !map_map in Hi. exact Hi.
Qed.

(** Filtering a list by each key of a duplicate-free list of keys that
    covers it cuts the list into pieces that together are the list. *)
Lemma filter_split_perm {A} (p : A -> bool) (l : list A) :
  Permutation (filter p l ++ filter (fun x => negb (p x)) l) l.
Proof.
  induction l as [| x l IH]; [constructor |].
  cbn [filter]. destruct (p x); cbn [negb app].
  - constructor. exact IH.
  - apply Permutation_sym, Permutation_cons_app, Permutation_sym. exact IH.
Qed.

Lemma flat_map_pointwise {A B} (f g : A -> list B) (l : list A) :
  (forall a, In a l -> f a = g a) -> flat_map f l = flat_map g l.
Proof.
  induction l as [| a l IH]; intros Hfg; [reflexivity |].
  cbn [flat_map]. rewrite (Hfg a (or_introl eq_refl)), IH; [reflexivity |].
  intros b Hb. apply Hfg. right. exact Hb.
Qed.

Lemma partition_by_key {A} (key : A -> string) (ks : list string) (l : list A) :
  NoDup ks ->
  (forall x, In x l -> In (key x) ks) ->
  Permutation (flat_map (fun k => filter (fun x => String.eqb (key x) k) l) ks) l.
Proof.
  intros Hnd. revert l. induction Hnd as [| k ks Hk _ IH]; intros l Hin.
  - destruct l as [| x l]; [constructor |]. destruct (Hin x (or_introl eq_refl)).
  - cbn [flat_map].
    eapply Permutation_trans; [| apply (filter_split_perm (fun x => String.eqb (key x) k))].
    apply Permutation_app_head.
    rewrite (flat_map_pointwise
               (fun k' => filter (fun x => String.eqb (key x) k') l)
               (fun k' => filter (fun x => String.eqb (key x) k')
                                 (filter (fun x => negb (String.eqb (key x) k)) l))).
    + apply IH. intros x Hx. apply filter_In in Hx. destruct Hx as [Hx Hne].
      destruct (Hin x Hx) as [E | Hi]; [| exact Hi].
      subst k. rewrite String.eqb_refl in Hne. discriminate.
    + intros k' Hk'. 
      induction l as [| x l IHl]; [reflexivity |].
      cbn [filter].
      destruct (String.eqb (key x) k') eqn:E1.
      * apply String.eqb_eq in E1.
        assert (E2 : String.eqb (key x) k = false).
        { apply String.eqb_neq. intros E. apply Hk. congruence. }
        rewrite E2. cbn [negb filter].
        apply String.eqb_eq in E1. rewrite E1. f_equal.
        apply IHl. intros y Hy. apply Hin. right. exact Hy.
      * destruct (negb (String.eqb (key x) k)); cbn [filter]; rewrite ?E1;
          apply IHl; intros y Hy; apply Hin; right; exact Hy.
Qed.

Lemma set_of_spec (l : list string) :
  NoDup (set_of l) /\ forall s, In s (set_of l) <-> In s l.
Proof.
  unfold set_of. split; [apply NoDup_nodup |]. intros s. apply nodup_In.
Qed.

Lemma get_sites_holds (st : state) (rs : list EmissionRecord) :
  holds st rs ->
  exists st',
    IndexedJsonlStore.get_sites st = (Ok (set_of (map site_id rs)), st')
    /\ holds st' rs.
Proof.
  intros Hh. destruct (holds_load Hh) as (st1 & E & Hl & Hi & Hc & Hr).
  destruct Hh as (_ & _ & _ & Hs).
  unfold IndexedJsonlStore.get_sites, bind at 1. rewrite E. unfold bind, get, ret.
  destruct (indexes_sites Hi) as [-> _].
  exists st1. split; [reflexivity |].
  exact (holds_after_read Hl Hi Hc Hr Hs (same_but_logged_refl st1)).
Qed.

Lemma get_regions_holds (st : state) (rs : list EmissionRecord) :
  holds st rs ->
  exists st',
    IndexedJsonlStore.get_regions st = (Ok (set_of (map region_id rs)), st')
    /\ holds st' rs.
Proof.
  intros Hh. destruct (holds_load Hh) as (st1 & E & Hl & Hi & Hc & Hr).
  destruct Hh as (_ & _ & _ & Hs).
  unfold IndexedJsonlStore.get_regions, bind at 1. rewrite E. unfold bind, get, ret.
  destruct (indexes_sites Hi) as [_ ->].
  exists st1. split; [reflexivity |].
  exact (holds_after_read Hl Hi Hc Hr Hs (same_but_logged_refl st1)).
Qed.

(** X5.  [get_sites] and [get_regions] on a store that holds the storable
    records [rs]: each returns a collection without repetition whose
    members are exactly the [site_id]s, respectively the [region_id]s, of
    the records of [rs]. *)
Theorem get_sites_and_regions_list_each_id_once (st : state) (rs : list EmissionRecord) :
  holds st rs ->
  exists sites regions,
    fst (IndexedJsonlStore.get_sites st) = Ok sites
    /\ fst (IndexedJsonlStore.get_regions st) = Ok regions
    /\ NoDup sites /\ NoDup regions
    /\ (forall s, In s sites <-> exists r, In r rs /\ site_id r = s)
    /\ (forall g, In g regions <-> exists r, In r rs /\ region_id r = g).
Proof.
  intros Hh.
  destruct (get_sites_holds Hh) as (s1 & E1 & _).
  destruct (get_regions_holds Hh) as (s2 & E2 & _).
  exists (set_of (map site_id rs)), (set_of (map region_id rs)).
  rewrite E1, E2.
  destruct (set_of_spec (map site_id rs)) as [N1 M1].
  destruct (set_of_spec (map region_id rs)) as [N2 M2].
  repeat split; try assumption.
  - intros Hin. apply M1, in_map_iff in Hin. destruct Hin as (r & E & Hr). eauto.
  - intros (r & Hr & E). apply M1, in_map_iff. eauto.
  - intros Hin. apply M2, in_map_iff in Hin. destruct Hin as (r & E & Hr). eauto.
  - intros (r & Hr & E). apply M2, in_map_iff. eauto.
Qed.

(** X6.  The sites cut the store into pieces: on a store that holds the
    storable records [rs], the answers of [query_by_site] for the sites
    [get_sites] returns, put together, are the records of [rs] as read
    back, each exactly once. *)
Theorem queries_by_site_partition_the_store
        (st : state) (rs : list EmissionRecord) :
  holds st rs ->
  Permutation
    (flat_map (fun s => results (fst (IndexedJsonlStore.query_by_site s st)))
              (results (fst (IndexedJsonlStore.get_sites st))))
    (map (as_read "indexed_jsonl") rs).
Proof.
  intros Hh.
  destruct (get_sites_holds Hh) as (s1 & E1 & _). rewrite E1. cbn [fst results].
  rewrite (flat_map_pointwise
             (fun s => results (fst (IndexedJsonlStore.query_by_site s st)))
             (fun s => filter (fun x => String.eqb (site_id x) s)
                              (map (as_read "indexed_jsonl") rs))).
  - destruct (set_of_spec (map site_id rs)) as [N1 M1].
    apply partition_by_key; [exact N1 |].
    intros x Hx. apply M1. apply in_map_iff in Hx. destruct Hx as (r & <- & Hr).
    apply in_map_iff. exists r. split; [reflexivity | exact Hr].
  - intros s _.
    destruct (select_run (fun f => String.eqb (fst (snd f)) s) Hh) as (st' & E & _).
    assert (E' : IndexedJsonlStore.query_by_site s st
                 = (Ok (map (as_read "indexed_jsonl")
                            (filter (fun r => String.eqb (site_id r) s) rs)), st'))
      by exact E.
    rewrite E'. cbn [fst results].
    symmetry.
    exact (filter_as_read "indexed_jsonl" (fun f => String.eqb (fst (snd f)) s) rs).
Qed.

End SitesAndRegions.

(** ** Rebuilding the index of a Log the store wrote *)

Section RebuildFacts.
Context `{L : PyLib}.

Ltac run :=
  unfold bind, ret, raise, lift, get, try_except, try_finally, emit, set_index,
    set_index_loaded, set_log_file, set_idx_content, log_error_with_context,
    Exception; cbn.

Local Arguments IndexedJsonlStore._save_index : simpl never.
Local Arguments IndexedJsonlStore._rebuild_index : simpl never.
Local Arguments IndexedJsonlStore._load_index : simpl never.
Local Arguments IndexedJsonlStore._read_records_by_offsets : simpl never.
Local Arguments for_each : simpl never.
Local Arguments split_lines : simpl never.
Local Arguments sorted : simpl never.

Lemma entries_from_app (pos : nat) (rs1 rs2 : list EmissionRecord) :
  entries_from pos (rs1 ++ rs2)
  = entries_from pos rs1 ++ entries_from (pos + String.length (serialize rs1)) rs2.
Proof.
  revert pos. induction rs1 as [| r rs1 IH]; intros pos.
  - cbn. rewrite Nat.add_0_r. reflexivity.
  - cbn [app entries_from serialize]. rewrite IH, length_app, Nat.add_assoc. reflexivity.
Qed.

Lemma record_line_measure (r : EmissionRecord) :
  String.length (record_line r) = S (String.length (json_dumps (record_obj r))).
Proof. unfold record_line. rewrite length_app. cbn. lia. Qed.

(** The lines of storable records, as [_rebuild_index] meets them: all
    well-formed, none earning a warning, each giving the entry [append]
    gave it but for the line feed, which is not counted. *)
Lemma rebuild_lines_serialize (rs : list EmissionRecord) (pos : nat) :
  Forall storable rs ->
  forallb passable (with_tell pos (split_lines (serialize rs))) = true
  /\ entries_of (with_tell pos (split_lines (serialize rs)))
     = map shorten (entries_from pos rs)
  /\ warnings_of (with_tell pos (split_lines (serialize rs))) = [].
Proof.
  intros Hs. revert pos. induction Hs as [| r rs Hr _ IH]; intros pos.
  - repeat split.
  - cbn [serialize]. rewrite split_lines_record by exact Hr.
    cbn [with_tell forallb entries_of warnings_of entries_from map].
    destruct (IH (pos + String.length (record_line r))) as (-> & -> & ->).
    unfold passable, blank, line_entry. cbn [fst snd].
    destruct (strip_record_line Hr) as [-> ->].
    rewrite (entry_of_line_storable pos Hr).
    cbn [orb andb]. split; [reflexivity |]. split; [| reflexivity].
    f_equal. unfold shorten.
    cbn [ie_offset ie_length ie_timestamp ie_site_id ie_region_id].
    rewrite record_line_measure. f_equal. lia.
Qed.

Lemma rebuilt_index_serialize (st : state) (rs : list EmissionRecord) :
  log_content st = serialize rs ->
  log_readable st = true ->
  Forall storable rs ->
  rebuilt_index st = map shorten (entries_from 0 rs).
Proof.
  unfold log_content, log_readable, rebuilt_index, log_lines.
  destruct (log_file st) as [f |]; [| discriminate].
  intros -> -> Hs.
  destruct (rebuild_lines_serialize 0 Hs) as (-> & -> & _). reflexivity.
Qed.

Lemma indexes_shorten (rs : list EmissionRecord) :
  indexes (map shorten (entries_from 0 rs)) rs.
Proof. unfold indexes. rewrite map_map. reflexivity. Qed.

Lemma indexes_app (idx : list IndexEntry) (rs rs' : list EmissionRecord) :
  indexes idx rs ->
  indexes (idx ++ entries_from (String.length (serialize rs)) rs') (rs ++ rs').
Proof.
  unfold indexes. intros Hi. rewrite entries_from_app, !map_app, Hi. reflexivity.
Qed.

(** [_rebuild_index], step by step, on a Log that is not empty, can be
    read and has passable lines only. *)
Lemma _rebuild_index_run (st : state) (f : file string) :
  log_file st = Some f ->
  readable f = true ->
  content f <> EmptyString ->
  forallb passable (log_lines (content f)) = true ->
  IndexedJsonlStore._rebuild_index st
  = emit (Log INFO "Rebuilt index"
              (Some (List.length (entries_of (log_lines (content f))))) None)
         (saved (mkState (log_file st) (idx_file st) (entries_of (log_lines (content f)))
                         (_index_loaded st)
                         (logged st ++ warnings_of (log_lines (content f)))
                         (idx_seen st))).
Proof.
  intros Hf Hr Hne Hp.
  unfold IndexedJsonlStore._rebuild_index, path_exists, path_size, open_r.
  destruct st as [lf xf idx ld lg seen]. cbn in Hf. subst lf. run.
  destruct (String.length (content f) =? 0) eqn:Hz.
  { apply Nat.eqb_eq in Hz. destruct (content f); [congruence | discriminate]. }
  cbn. rewrite Hr. cbn. unfold log_lines in Hp.
  rewrite rebuild_loop_passable by exact Hp. cbn.
  rewrite _save_index_run. unfold emit, log_lines. cbn.
  rewrite !saved_index. reflexivity.
Qed.

(** X7.  Rebuilding reproduces the index [append] built.  On a store
    whose index was made by its own appends of the storable records [rs]
    to an empty Log, [_rebuild_index] scans the Log without a warning and
    leaves an index with the same entries in the same order - same offset,
    timestamp, site and region - except that each [length] is one less:
    [append] counts the line feed, the rebuild measures the stripped line. *)
Theorem rebuild_reproduces_the_index_of_append (st : state) (rs : list EmissionRecord) :
  _index st = entries_from 0 rs ->
  log_content st = serialize rs ->
  log_readable st = true ->
  Forall storable rs ->
  let st' := snd (IndexedJsonlStore._rebuild_index st) in
  fst (IndexedJsonlStore._rebuild_index st) = Ok tt
  /\ _index st' = map shorten (_index st)
  /\ map entry_key (_index st') = map entry_key (_index st)
  /\ filter (fun ev => match ev_level ev with WARNING => true | _ => false end)
            (skipn (List.length (logged st)) (logged st')) = [].
Proof.
  intros Hi Hc Hr Hs. cbn zeta.
  assert (Hidx : _index (snd (IndexedJsonlStore._rebuild_index st))
                 = map shorten (_index st)).
  { destruct (_rebuild_index_spec st) as (st' & E & _ & _ & E3 & _).
    rewrite E. cbn [snd]. rewrite E3, Hi. apply rebuilt_index_serialize; assumption. }
  split; [destruct (_rebuild_index_spec st) as (st' & -> & _); reflexivity |].
  split; [exact Hidx |].
  split; [rewrite Hidx, map_map; reflexivity |].
  unfold log_content, log_readable in *.
  destruct (log_file st) as [f |] eqn:Hf; [| discriminate].
  destruct (string_dec (content f) EmptyString) as [He | Hne].
  - unfold IndexedJsonlStore._rebuild_index, path_exists, path_size. run.
    rewrite Hf, He. cbn. rewrite skipn_all. reflexivity.
  - destruct (rebuild_lines_serialize 0 Hs) as (Hp & He & Hw).
    rewrite <- Hc in Hp, He, Hw.
    rewrite (_rebuild_index_run st Hf Hr Hne Hp).
    unfold log_lines. rewrite Hw, app_nil_r. unfold emit, saved. cbn.
    destruct (idx_file st) as [x |]; [destruct (writable x) |]; cbn;
      rewrite <- app_assoc, skipn_app, skipn_all, Nat.sub_diag; reflexivity.
Qed.

End RebuildFacts.

(** ** What [append] leaves behind *)

Section AppendFacts.
Context `{L : PyLib}.

Ltac run :=
  unfold bind, ret, raise, lift, get, try_except, try_finally, emit, set_index,
    set_index_loaded, set_log_file, set_idx_content, log_error_with_context,
    Exception; cbn.

Local Arguments IndexedJsonlStore._save_index : simpl never.
Local Arguments IndexedJsonlStore._rebuild_index : simpl never.
Local Arguments IndexedJsonlStore._load_index : simpl never.
Local Arguments IndexedJsonlStore._read_records_by_offsets : simpl never.
Local Arguments for_each : simpl never.
Local Arguments split_lines : simpl never.
Local Arguments sorted : simpl never.

(** [append] on a Log that cannot be opened for writing: the exception of
    [open] reaches the caller, the Log is as it was and the index is the
    loaded one. *)
Lemma append_refused (rs : list EmissionRecord) (st : state) :
  log_writable st = false ->
  exists st',
    IndexedJsonlStore.append rs st = (Raise PermissionError, st')
    /\ log_file st' = log_file st
    /\ _index st' = loaded_index st.
Proof.
  intros Hw. unfold IndexedJsonlStore.append, bind at 1.
  destruct (_load_index_spec st) as (st1 & -> & E1 & _ & E3 & _).
  unfold log_writable in Hw. rewrite <- E1 in *. unfold open_a. run.
  destruct (log_file st1) as [f |] eqn:Hf; [| discriminate].
  rewrite Hw. cbn. eexists. split; [reflexivity |]. cbn.
  split; [congruence | exact E3].
Qed.

Lemma append_holds (st : state) (rs rs' : list EmissionRecord) :
  holds st rs ->
  log_writable st = true ->
  Forall storable rs' ->
  exists st',
    IndexedJsonlStore.append rs' st = (Ok (List.length rs'), st')
    /\ holds st' (rs ++ rs').
Proof.
  intros (Hi & Hc & Hr & Hs) Hw Hs'.
  destruct (append_run rs' st Hw) as (st' & E & Hf & Hidx & Hl & _).
  exists st'. split; [exact E |].
  destruct (appended_log_facts st rs' Hr) as [Hac Har].
  unfold holds, loaded_index, log_content, log_readable. rewrite Hl, Hf, Hidx, Hac, Har, Hc.
  repeat split.
  - apply indexes_app. exact Hi.
  - symmetry. apply serialize_app.
  - apply Forall_app. split; assumption.
Qed.

Lemma substring_prefix (b c : string) :
  substring 0 (String.length b) (b ++ c) = b.
Proof.
  induction b as [| x b IH]; cbn.
  - destruct c; reflexivity.
  - rewrite IH. reflexivity.
Qed.

Lemma substring_app_mid (a b c : string) :
  substring (String.length a) (String.length b) (a ++ b ++ c) = b.
Proof. induction a as [| x a IH]; [exact (substring_prefix b c) | exact IH]. Qed.

Lemma spans_entries_from (rs : list EmissionRecord) (pre : string) :
  Forall2 (fun e r => span (pre ++ serialize rs) e = record_line r)
          (entries_from (String.length pre) rs) rs.
Proof.
  revert pre. induction rs as [| r rs IH]; intros pre; [constructor |].
  cbn [entries_from serialize]. constructor.
  - unfold span. cbn [ie_offset ie_length]. apply substring_app_mid.
  - specialize (IH (pre ++ record_line r)%string).
    rewrite length_app, string_app_assoc in IH. exact IH.
Qed.

Lemma skipn_app_length {A} (l l' : list A) : skipn (List.length l) (l ++ l') = l'.
Proof. induction l; [reflexivity | assumption]. Qed.

(** X8.  [append] only ever extends the Log.  When the Log can be opened
    for writing, [append] returns the number of records, the Log is what
    it was followed by one line per record, the entries the index had stay
    in front and one entry per record follows them.  When it cannot,
    [append] raises, the Log is as it was and the index gains nothing. *)
Theorem append_only_extends_the_log (st : state) (rs : list EmissionRecord) :
  let st' := snd (IndexedJsonlStore.append rs st) in
  (log_writable st = true ->
   fst (IndexedJsonlStore.append rs st) = Ok (List.length rs)
   /\ log_content st' = (log_content st ++ serialize rs)%string
   /\ firstn (List.length (loaded_index st)) (_index st') = loaded_index st
   /\ List.length (_index st') = List.length (loaded_index st) + List.length rs)
  /\ (log_writable st = false ->
      fst (IndexedJsonlStore.append rs st) = Raise PermissionError
      /\ log_file st' = log_file st
      /\ _index st' = loaded_index st).
Proof.
  cbn zeta. split; intros Hw.
  - destruct (append_run rs st Hw) as (st' & -> & Hf & Hidx & _). cbn [fst snd].
    split; [reflexivity |]. split.
    + unfold log_content at 1. rewrite Hf. apply log_content_appended.
    + rewrite Hidx. split.
      * rewrite firstn_app, Nat.sub_diag, firstn_all. cbn. apply app_nil_r.
      * rewrite List.length_app, entries_from_length. reflexivity.
  - destruct (append_refused rs st Hw) as (st' & -> & Hf & Hidx). cbn [fst snd].
    repeat split; assumption.
Qed.

(** X9.  The entries [append] adds to the index point at the lines it
    wrote: for each appended record, in order, the [length] bytes of the
    Log from [offset] on are exactly the record's line, line feed
    included. *)
Theorem appended_entries_span_their_lines (st : state) (rs : list EmissionRecord) :
  log_writable st = true ->
  let st' := snd (IndexedJsonlStore.append rs st) in
  Forall2 (fun e r => span (log_content st') e = record_line r)
          (skipn (List.length (loaded_index st)) (_index st')) rs.
Proof.
  intros Hw. cbn zeta.
  destruct (append_run rs st Hw) as (st' & -> & Hf & Hidx & _). cbn [snd].
  unfold log_content at 1. rewrite Hf, log_content_appended, Hidx, skipn_app_length.
  apply spans_entries_from.
Qed.

End AppendFacts.

(** ** Loading the index: from the sidecar, or from the Log *)

Section LoadFacts.
Context `{L : PyLib}.

Ltac run :=
  unfold bind, ret, raise, lift, get, try_except, try_finally, emit, set_index,
    set_index_loaded, set_log_file, set_idx_content, log_error_with_context,
    Exception; cbn.

Local Arguments IndexedJsonlStore._save_index : simpl never.
Local Arguments IndexedJsonlStore._rebuild_index : simpl never.
Local Arguments IndexedJsonlStore._load_index : simpl never.
Local Arguments IndexedJsonlStore._read_records_by_offsets : simpl never.
Local Arguments for_each : simpl never.
Local Arguments split_lines : simpl never.
Local Arguments sorted : simpl never.

(** The first [_load_index] of a store object whose sidecar can be read
    and holds a pickled index: the index is taken as it is, and neither
    file is touched. *)
Lemma _load_index_pickled (st : state) (f : file blob) (l : list IndexEntry) :
  _index_loaded st = false ->
  idx_file st = Some f ->
  readable f = true ->
  content f = Pickled l ->
  IndexedJsonlStore._load_index st
  = (Ok tt, mkState (log_file st) (idx_file st) l true
                    (logged st ++ [Log DEBUG "Loaded index" (Some (List.length l)) None])
                    (idx_seen st)).
Proof.
  intros Hl Hf Hr Hc.
  unfold IndexedJsonlStore._load_index, index_path_exists, open_rb_load. run.
  rewrite Hl, Hf. cbn. rewrite Hf. cbn. rewrite Hr, Hc. cbn. rewrite ?Hf. reflexivity.
Qed.

Lemma saved_sidecar_open (s : state) :
  sidecar_open s = true ->
  exists f, idx_file (saved s) = Some f
            /\ content f = Pickled (_index s) /\ readable f = true /\ writable f = true.
Proof.
  unfold sidecar_open, saved.
  destruct (idx_file s) as [f |].
  - intros Ho. apply andb_true_iff in Ho. destruct Ho as [Hr Hw]. rewrite Hw.
    eexists. split; [reflexivity |]. cbn. repeat split; assumption.
  - intros _. eexists. split; [reflexivity |]. repeat split.
Qed.

Lemma _rebuild_index_sidecar_open (st : state) :
  sidecar_open st = true ->
  sidecar_open (snd (IndexedJsonlStore._rebuild_index st)) = true.
Proof.
  intros Ho.
  unfold IndexedJsonlStore._rebuild_index, path_exists, path_size, open_r.
  destruct st as [lf xf idx ld lg seen]. run.
  destruct lf as [f |]; cbn; [| exact Ho].
  destruct (String.length (content f) =? 0); cbn; [exact Ho |].
  destruct (readable f); cbn; [| exact Ho].
  destruct (forallb passable (with_tell 0 (split_lines (content f)))) eqn:Hp.
  - rewrite rebuild_loop_passable by exact Hp. cbn.
    rewrite _save_index_run. cbn.
    match goal with
    | |- context [saved ?s] =>
        destruct (saved_sidecar_open s Ho) as (x & Hx & _ & Hr & Hw)
    end.
    unfold sidecar_open. cbn. rewrite Hx, Hr, Hw. reflexivity.
  - match goal with
    | |- context [for_each ?ps ?b ?s] =>
        destruct (rebuild_loop_fatal ps s Hp) as (e & st' & -> & _ & E2 & _)
    end.
    cbn in *. unfold sidecar_open in *. cbn in *. rewrite E2. exact Ho.
Qed.

Lemma same_but_logged_sidecar_open (s s' : state) :
  same_but_logged s s' -> sidecar_open s' = sidecar_open s.
Proof. intros (_ & E & _). unfold sidecar_open. rewrite E. reflexivity. Qed.

Lemma _load_index_sidecar_open (st : state) :
  sidecar_open st = true ->
  sidecar_open (snd (IndexedJsonlStore._load_index st)) = true.
Proof.
  intros Ho. destruct (_index_loaded st) eqn:Hl.
  - rewrite (_load_index_loaded st Hl). exact Ho.
  - destruct (sidecar_pickled st) eqn:Hp.
    + destruct (_load_index_spec st) as (st1 & -> & _ & _ & _ & _ & E5). cbn [snd].
      unfold sidecar_open in *. rewrite E5; [exact Ho |].
      unfold sidecar_loads. rewrite Hp. apply orb_true_r.
    + destruct (_load_index_rebuilds st Hl Hp) as (s0 & Hs & ->). cbn [snd].
      change (sidecar_open (mark_loaded (snd (IndexedJsonlStore._rebuild_index s0))))
        with (sidecar_open (snd (IndexedJsonlStore._rebuild_index s0))).
      apply _rebuild_index_sidecar_open.
      rewrite (same_but_logged_sidecar_open Hs). exact Ho.
Qed.

(** X10.  What [append] saves, a new store object loads.  When the Log can
    be written and the sidecar is absent or can be read and written,
    [append] leaves in the sidecar the whole index it has in memory; a
    store object created afterwards takes exactly that index on its first
    load, logs that it loaded it, and touches neither the Log nor the
    sidecar. *)
Theorem a_new_handle_adopts_the_saved_index (st : state) (rs : list EmissionRecord) :
  log_writable st = true ->
  sidecar_open st = true ->
  let st' := snd (IndexedJsonlStore.append rs st) in
  let st'' := snd (IndexedJsonlStore._load_index (reopen st')) in
  sidecar_content st' = Some (Pickled (_index st'))
  /\ fst (IndexedJsonlStore._load_index (reopen st')) = Ok tt
  /\ _index st'' = _index st'
  /\ log_file st'' = log_file st'
  /\ idx_file st'' = idx_file st'
  /\ idx_seen st'' = idx_seen st'
  /\ logged st''
     = logged st' ++ [Log DEBUG "Loaded index" (Some (List.length (_index st'))) None].
Proof.
  intros Hw Ho. cbn zeta.
  destruct (append_steps rs st Hw) as (st1 & E1 & ->). cbn [snd].
  pose proof (_load_index_sidecar_open st Ho) as Ho1. rewrite E1 in Ho1. cbn [snd] in Ho1.
  set (s2 := mkState (Some (appended_log st rs)) (idx_file st1)
                     (_index st1 ++ entries_from (String.length (log_content st)) rs)
                     true (logged st1) (idx_seen st1)).
  destruct (saved_sidecar_open s2 Ho1) as (x & Hx & Hc & Hr & _).
  unfold emit. cbn [snd].
  match goal with
  | |- context [reopen ?s] => set (st' := s)
  end.
  assert (Hidx : _index st' = _index s2) by apply saved_index.
  assert (Hxf : idx_file st' = Some x) by exact Hx.
  assert (Hlf : log_file st' = Some (appended_log st rs)) by apply saved_log_file.
  destruct (reopen_facts st' Hlf) as (R1 & R2 & R3).
  rewrite (_load_index_pickled (reopen st') (f := x) (l := _index s2)); try congruence.
  cbn [fst snd log_file idx_file _index idx_seen logged].
  unfold sidecar_content. rewrite Hxf, Hc, Hidx, R1, R2.
  repeat split; try congruence.
Qed.

End LoadFacts.

(** ** Recovering the index, and failing to *)

Section Recovery.
Context `{L : PyLib}.

Ltac run :=
  unfold bind, ret, raise, lift, get, try_except, try_finally, emit, set_index,
    set_index_loaded, set_log_file, set_idx_content, log_error_with_context,
    Exception; cbn.

Local Arguments IndexedJsonlStore._save_index : simpl never.
Local Arguments IndexedJsonlStore._rebuild_index : simpl never.
Local Arguments IndexedJsonlStore._load_index : simpl never.
Local Arguments IndexedJsonlStore._read_records_by_offsets : simpl never.
Local Arguments for_each : simpl never.
Local Arguments split_lines : simpl never.
Local Arguments sorted : simpl never.

Lemma loaded_index_unpickled (s : state) :
  _index_loaded s = false ->
  sidecar_pickled s = false ->
  loaded_index s = rebuilt_index s.
Proof.
  unfold loaded_index, sidecar_pickled. intros -> Hp.
  destruct (idx_file s) as [f |]; [| reflexivity].
  destruct (readable f); [| reflexivity].
  destruct (content f); [discriminate | reflexivity | reflexivity].
Qed.

(** What [tail] does after loading the index touches only the messages
    logged. *)
Lemma tail_after_load (n : Z) (s : state) :
  same_but_logged (snd (IndexedJsonlStore._load_index s)) (snd (IndexedJsonlStore.tail n s)).
Proof.
  unfold IndexedJsonlStore.tail, bind at 1.
  destruct (_load_index_spec s) as (s1 & -> & _). cbn [snd]. unfold bind, get.
  destruct (guarded_read_is_harmless
              (fun idx => map ie_offset (if (n <=? Z.of_nat (List.length idx))%Z
                                         then slice_from (- n) idx else idx))
              (_index s1) s1) as (rs & s' & E & Hs & _).
  rewrite E. exact Hs.
Qed.

Lemma serialize_nonempty (rs : list EmissionRecord) :
  rs <> [] -> serialize rs <> EmptyString.
Proof.
  destruct rs as [| r rs]; [congruence |]. intros _ E.
  apply (f_equal String.length) in E. cbn [serialize] in E.
  rewrite length_app in E. pose proof (record_line_length r). cbn in E. lia.
Qed.

(** [_rebuild_index] when the Log cannot be read: the index is left
    empty and nothing is saved. *)
Lemma _rebuild_index_unreadable (st : state) :
  log_readable st = false ->
  exists st',
    IndexedJsonlStore._rebuild_index st = (Ok tt, st')
    /\ log_file st' = log_file st /\ idx_file st' = idx_file st
    /\ _index st' = [] /\ idx_seen st' = idx_seen st.
Proof.
  unfold log_readable.
  unfold IndexedJsonlStore._rebuild_index, path_exists, path_size, open_r.
  destruct st as [lf xf idx ld lg seen]. run.
  destruct lf as [f |]; cbn; [| intros _; eexists; repeat split].
  intros Hr. destruct (String.length (content f) =? 0); cbn; rewrite ?Hr; cbn;
    eexists; repeat split.
Qed.

(** X11.  A lost sidecar costs nothing but a scan.  A store object
    created on a Log that holds the lines of the storable records [rs],
    with a sidecar that is missing, cannot be read, is empty or is not a
    pickle, rebuilds the index on its first query: [tail(n)] answers
    [rs[-n:]], the index in memory lists every record, and - when there
    are records and the sidecar can be written - the sidecar then holds
    the rebuilt index. *)
Theorem a_lost_sidecar_is_rebuilt_from_the_log
        (st : state) (rs : list EmissionRecord) (n : Z) :
  log_content st = serialize rs ->
  log_readable st = true ->
  Forall storable rs ->
  sidecar_pickled st = false ->
  let st' := snd (IndexedJsonlStore.tail n (reopen st)) in
  fst (IndexedJsonlStore.tail n (reopen st))
  = Ok (map (as_read "indexed_jsonl") (slice_from (- n) rs))
  /\ _index st' = map shorten (entries_from 0 rs)
  /\ (rs <> [] -> sidecar_writable st = true ->
      sidecar_content st' = Some (Pickled (map shorten (entries_from 0 rs)))).
Proof.
  intros Hc Hr Hs Hp. cbn zeta.
  unfold log_content, log_readable in Hc, Hr.
  destruct (log_file st) as [f |] eqn:Hf; [| discriminate].
  destruct (reopen_facts st Hf) as (R1 & R2 & R3).
  assert (Hc' : log_content (reopen st) = serialize rs)
    by (unfold log_content; rewrite R1; exact Hc).
  assert (Hr' : log_readable (reopen st) = true)
    by (unfold log_readable; rewrite R1; exact Hr).
  assert (Hp' : sidecar_pickled (reopen st) = false)
    by (unfold sidecar_pickled; rewrite R2; exact Hp).
  assert (Hli : loaded_index (reopen st) = map shorten (entries_from 0 rs)).
  { rewrite (loaded_index_unpickled _ R3 Hp').
    apply rebuilt_index_serialize; assumption. }
  assert (Hh : holds (reopen st) rs).
  { unfold holds. rewrite Hli. repeat split; try assumption. apply indexes_shorten. }
  destruct (tail_holds n Hh) as (st' & E & _).
  pose proof (tail_after_load n (reopen st)) as Hsame. rewrite E in *. cbn [fst snd] in *.
  destruct Hsame as (_ & S2 & S3 & _).
  split; [reflexivity |]. split.
  - rewrite S3. destruct (_load_index_spec (reopen st)) as (s1 & -> & _ & _ & E3 & _).
    cbn [snd]. rewrite E3. exact Hli.
  - intros Hne Hw. unfold sidecar_content. rewrite S2.
    destruct (_load_index_rebuilds (reopen st) R3 Hp') as (s0 & (T1 & T2 & _) & ->).
    cbn [snd]. unfold mark_loaded. cbn [idx_file].
    assert (Hf0 : log_file s0 = Some f) by congruence.
    destruct (rebuild_lines_serialize 0 Hs) as (Hpass & Hent & _).
    rewrite <- Hc in Hpass, Hent.
    rewrite (_rebuild_index_run s0 Hf0 Hr); [| rewrite Hc; apply serialize_nonempty; exact Hne
                                             | exact Hpass].
    unfold emit. cbn [snd idx_file].
    match goal with
    | |- context [saved ?s] =>
        destruct (saved_sidecar_writable s) as [Hsc _];
        [unfold sidecar_writable in *; cbn [idx_file]; rewrite T2, R2; exact Hw |];
        unfold sidecar_content in Hsc; rewrite Hsc
    end.
    cbn [_index]. unfold log_lines. rewrite Hent. reflexivity.
Qed.

(** X12.  The result of the first load sticks.  A store object whose
    first query finds no usable sidecar and a Log it cannot read ends up
    with an empty index, and keeps it: its later queries through the index
    return nothing whatever the Log has become in the meantime, without
    reading it.  Nothing has been saved, so a new store object would
    rebuild. *)
Theorem an_index_that_failed_to_build_stays_empty
        (st : state) (n m : Z) (site : string) (later : option (file string)) :
  _index_loaded st = false ->
  sidecar_pickled st = false ->
  log_readable st = false ->
  let st1 := snd (IndexedJsonlStore.tail n st) in
  fst (IndexedJsonlStore.tail n st) = Ok []
  /\ idx_file st1 = idx_file st
  /\ fst (IndexedJsonlStore.tail m (update_log st1 later)) = Ok []
  /\ fst (IndexedJsonlStore.query_by_site site (update_log st1 later)) = Ok []
  /\ fst (IndexedJsonlStore.get_sites (update_log st1 later)) = Ok [].
Proof.
  intros Hl Hp Hr. cbn zeta.
  destruct (tail_spec n st) as (rs & st1 & E & _ & _ & Hnil).
  pose proof (tail_after_load n st) as Hsame. rewrite E in *. cbn [fst snd] in *.
  rewrite (Hnil Hr).
  destruct (_load_index_spec st) as (s1 & El & _ & E2 & _). rewrite El in Hsame.
  cbn [snd] in Hsame. destruct Hsame as (_ & S2 & S3 & S4 & _).
  assert (Hs1 : idx_file s1 = idx_file st /\ _index s1 = []).
  { destruct (_load_index_rebuilds st Hl Hp) as (s0 & (T1 & T2 & _) & El').
    rewrite El in El'. inversion El' as [Es]. 
    destruct (_rebuild_index_unreadable s0) as (s' & -> & _ & U2 & U3 & _).
    - unfold log_readable in *. rewrite T1. exact Hr.
    - cbn. split; congruence. }
  destruct Hs1 as [Hx Hi].
  assert (Hload : IndexedJsonlStore._load_index (update_log st1 later)
                  = (Ok tt, update_log st1 later)).
  { apply _load_index_loaded. cbn. congruence. }
  assert (Hidx : _index (update_log st1 later) = []) by (cbn; congruence).
  split; [reflexivity |]. split; [congruence |].
  unfold IndexedJsonlStore.tail, IndexedJsonlStore.query_by_site,
    IndexedJsonlStore.get_sites.
  unfold bind at 1 3 5. rewrite !Hload. unfold bind, get. rewrite !Hidx.
  repeat split.
Qed.

End Recovery.

(** ** Scans, batches and stale offsets *)

Section ScansAndBatches.
Context `{L : PyLib}.

Ltac run :=
  unfold bind, ret, raise, lift, get, try_except, try_finally, emit, set_index,
    set_index_loaded, set_log_file, set_idx_content, log_error_with_context,
    Exception; cbn.

Local Arguments IndexedJsonlStore._save_index : simpl never.
Local Arguments IndexedJsonlStore._rebuild_index : simpl never.
Local Arguments IndexedJsonlStore._load_index : simpl never.
Local Arguments IndexedJsonlStore._read_records_by_offsets : simpl never.
Local Arguments IndexedJsonlStore.all : simpl never.
Local Arguments collect : simpl never.
Local Arguments split_lines : simpl never.
Local Arguments sorted : simpl never.

Lemma summary_of_as_read (src : string) (rs : list EmissionRecord) :
  summary_of (map (as_read src) rs) = summary_of rs.
Proof. unfold summary_of. rewrite map_map. reflexivity. Qed.

Lemma count_summary_of (rs : list EmissionRecord) :
  count (summary_of rs) = List.length rs.
Proof.
  unfold summary_of. rewrite <- (length_map emission_rate_kg_per_h rs).
  destruct (map emission_rate_kg_per_h rs); reflexivity.
Qed.

(** X13.  On a store that holds the storable records [rs], [to_dicts]
    returns, in order, exactly the objects [append] serialised - one
    dictionary of four keys per record - and [summary] is the summary of
    the rates of [rs], its [count] the number of records; [JsonlStore]
    gives the same answers, and none of the four calls changes the store. *)
Theorem to_dicts_returns_what_append_serialised (st : state) (rs : list EmissionRecord) :
  holds st rs ->
  IndexedJsonlStore.to_dicts st = (Ok (map record_obj rs), st)
  /\ IndexedJsonlStore.summary st = (Ok (summary_of rs), st)
  /\ JsonlStore.to_dicts st = (Ok (map record_obj rs), st)
  /\ JsonlStore.summary st = (Ok (summary_of rs), st)
  /\ count (summary_of rs) = List.length rs.
Proof.
  intros Hh. pose proof (all_holds Hh) as Ha.
  assert (Hd : map dict_of (map (as_read "jsonl") rs) = map record_obj rs)
    by (rewrite map_map; reflexivity).
  unfold IndexedJsonlStore.to_dicts, IndexedJsonlStore.summary,
    JsonlStore.to_dicts, JsonlStore.summary.
  change JsonlStore._all_from_disk with IndexedJsonlStore.all.
  unfold bind, ret. rewrite Ha, Hd, summary_of_as_read.
  repeat split. apply count_summary_of.
Qed.

Lemma appended_log_writable (st : state) (rs : list EmissionRecord) :
  log_writable st = true -> writable (appended_log st rs) = true.
Proof.
  unfold log_writable, appended_log. destruct (log_file st); [intros -> |]; reflexivity.
Qed.

(** X14.  Appending in two batches is appending in one: when the Log can
    be written, [append(rs1)] followed by [append(rs2)] on the same store
    object returns the two counts and leaves the Log and the index in
    memory that [append(rs1 + rs2)] leaves. *)
Theorem appending_in_batches_is_appending_at_once
        (st : state) (rs1 rs2 : list EmissionRecord) :
  log_writable st = true ->
  let st1 := snd (IndexedJsonlStore.append rs1 st) in
  let st2 := snd (IndexedJsonlStore.append rs2 st1) in
  let st' := snd (IndexedJsonlStore.append (rs1 ++ rs2) st) in
  fst (IndexedJsonlStore.append rs1 st) = Ok (List.length rs1)
  /\ fst (IndexedJsonlStore.append rs2 st1) = Ok (List.length rs2)
  /\ log_file st2 = log_file st'
  /\ _index st2 = _index st'.
Proof.
  intros Hw. cbn zeta.
  destruct (append_run rs1 st Hw) as (st1 & -> & F1 & I1 & L1 & _). cbn [fst snd].
  assert (Hw1 : log_writable st1 = true).
  { unfold log_writable. rewrite F1. apply appended_log_writable. exact Hw. }
  destruct (append_run rs2 st1 Hw1) as (st2 & -> & F2 & I2 & _). cbn [fst snd].
  destruct (append_run (rs1 ++ rs2) st Hw) as (st' & -> & F' & I' & _). cbn [snd].
  split; [reflexivity |]. split; [reflexivity |].
  assert (Hc1 : log_content st1 = (log_content st ++ serialize rs1)%string).
  { unfold log_content at 1. rewrite F1. apply log_content_appended. }
  split.
  - rewrite F2, F'. f_equal. unfold appended_log. rewrite F1.
    unfold appended_log. rewrite serialize_app.
    destruct (log_file st) as [f |]; cbn; rewrite ?string_app_assoc; reflexivity.
  - rewrite I2, I'. unfold loaded_index at 1. rewrite L1, I1, Hc1.
    rewrite entries_from_app, length_app, <- app_assoc. reflexivity.
Qed.

(** X15.  The two stores write the same bytes: when the Log can be
    written, [JsonlStore.append] and [IndexedJsonlStore.append] return the
    same count and leave the same Log, whatever the records and whatever
    the Log held. *)
Theorem both_stores_write_the_same_log (st : state) (rs : list EmissionRecord) :
  log_writable st = true ->
  fst (JsonlStore.append rs st) = fst (IndexedJsonlStore.append rs st)
  /\ log_file (snd (JsonlStore.append rs st))
     = log_file (snd (IndexedJsonlStore.append rs st)).
Proof.
  intros Hw. rewrite (JsonlStore_append_run rs st Hw).
  destruct (append_run rs st Hw) as (st' & -> & F & _). cbn [fst snd].
  split; [reflexivity |]. rewrite F. reflexivity.
Qed.




End ScansAndBatches.

(** ** The two decoders, and the two ways to read a Log *)

Section TwoReaders.
Context `{L : PyLib}.

(** The first physical line of a text, and the text after it. *)
Lemma split_lines_suffix (s l : string) (rest : list string) :
  split_lines s = l :: rest ->
  exists t, s = (l ++ t)%string /\ split_lines t = rest.
Proof.
  remember (String.length s) as n eqn:Hn.
  revert s l rest Hn. induction n as [n IH] using lt_wf_ind. intros s l rest Hn.
  destruct s as [| c s]; [discriminate |].
  assert (Hrec : forall t l' rest', String.length t < n -> split_lines t = l' :: rest' ->
                   exists u, t = (l' ++ u)%string /\ split_lines u = rest').
  { intros t l' rest' Ht. exact (IH _ Ht t l' rest' eq_refl). }
  clear IH. simpl in Hn. cbn [split_lines].
  destruct (Ascii.eqb c LF).
  - intros E. inversion E. exists s. split; reflexivity.
  - destruct (Ascii.eqb c CR).
    + destruct s as [| c' s].
      * intros E. inversion E. exists EmptyString. split; reflexivity.
      * destruct (Ascii.eqb c' LF); intros E; inversion E.
        -- exists s. split; reflexivity.
        -- exists (String c' s). split; reflexivity.
    + destruct (split_lines s) as [| l' ls'] eqn:Es; intros E; inversion E; subst.
      * exists s. split; [reflexivity | exact Es].
      * destruct (Hrec s l' rest) as (u & -> & Hu); [lia | exact Es |].
        exists u. split; [reflexivity | exact Hu].
Qed.

(** Seeking to where a line starts and reading a line gives that line. *)
Lemma readline_at_lines (s pre : string) :
  Forall (fun p => readline_at (pre ++ s) (fst p) = snd p)
         (with_tell (String.length pre) (split_lines s)).
Proof.
  remember (split_lines s) as ls eqn:Hls.
  revert s pre Hls. induction ls as [| l ls IH]; intros s pre Hls; [constructor |].
  symmetry in Hls. destruct (split_lines_suffix s Hls) as (t & -> & Ht).
  cbn [with_tell]. constructor.
  - cbn [fst snd]. unfold readline_at. rewrite drop_app_length, Hls. reflexivity.
  - specialize (IH t (pre ++ l)%string (eq_sym Ht)).
    rewrite length_app, string_app_assoc in IH. exact IH.
Qed.

Local Arguments IndexedJsonlStore._load_index : simpl never.
Local Arguments IndexedJsonlStore._read_records_by_offsets : simpl never.
Local Arguments split_lines : simpl never.
Local Arguments sorted : simpl never.

(** The lines a full scan reads without failing, as [_rebuild_index] and
    [_read_records_by_offsets] meet them: every line is passable, none
    earns a warning, and the entries stand for the records of the scan,
    one for one and in order. *)
Lemma scan_lines (fp : string) (ps : list (nat * string)) (recs : list EmissionRecord) :
  Forall (fun p => readline_at fp (fst p) = snd p) ps ->
  read_lines (map snd ps) = Ok recs ->
  forallb passable ps = true
  /\ warnings_of ps = []
  /\ Forall2 (reads_as fp) (entries_of ps) recs.
Proof.
  intros Hps. revert recs. induction Hps as [| p ps Hp _ IH]; intros recs E.
  - inversion E. repeat split. constructor.
  - cbn [map read_lines] in E. cbn [forallb warnings_of entries_of].
    unfold passable at 1. unfold blank, line_entry.
    destruct (is_empty (strip (snd p))) eqn:Hb; [exact (IH recs E) |].
    destruct (record_of_line "jsonl" (strip (snd p))) as [r | e] eqn:Hr; [| discriminate].
    destruct (read_lines (map snd ps)) as [rs | e]; [| discriminate].
    inversion E; subst recs. destruct (IH rs eq_refl) as (I1 & I2 & I3).
    rewrite (@record_of_line_entry _ _ _ _ _ (fst p) Hr). cbn [orb andb].
    repeat split; try assumption.
    constructor; [| exact I3].
    unfold reads_as, record_at, fatal_at. cbn [ie_offset]. rewrite Hp, Hb.
    rewrite (@record_of_line_retag _ _ "jsonl" "indexed_jsonl" _ _ Hr). repeat split.
Qed.

End TwoReaders.

(** ** Reading through the index what the full scan reads *)

Section ScanAndIndex.
Context `{L : PyLib}.

Local Arguments IndexedJsonlStore._load_index : simpl never.
Local Arguments IndexedJsonlStore._read_records_by_offsets : simpl never.
Local Arguments IndexedJsonlStore.all : simpl never.
Local Arguments split_lines : simpl never.
Local Arguments sorted : simpl never.
Local Arguments read_records : simpl never.

Lemma linked_reads (fp : string) (es : list IndexEntry) (rs : list EmissionRecord) :
  Forall2 (reads_as fp) es rs ->
  omap (record_at fp) (map ie_offset es) = map (as_read "indexed_jsonl") rs
  /\ forallb (fun o => negb (fatal_at fp o)) (map ie_offset es) = true.
Proof.
  induction 1 as [| e r es rs (H1 & H2 & _) _ [IH1 IH2]]; [split; reflexivity |].
  cbn [map omap forallb]. rewrite H1, H2, IH1, IH2. split; reflexivity.
Qed.

Lemma linked_filter (p : datetime * (string * string) -> bool) (fp : string)
      (es : list IndexEntry) (rs : list EmissionRecord) :
  Forall2 (reads_as fp) es rs ->
  Forall2 (reads_as fp) (filter (fun e => p (entry_fields e)) es)
          (filter (fun r => p (record_fields r)) rs).
Proof.
  induction 1 as [| e r es rs Hl _ IH]; [constructor |].
  cbn [filter]. destruct Hl as (H1 & H2 & H3). rewrite H3.
  destruct (p (record_fields r)); [| exact IH].
  constructor; [repeat split; assumption | exact IH].
Qed.

Lemma linked_skipn (j : nat) (fp : string)
      (es : list IndexEntry) (rs : list EmissionRecord) :
  Forall2 (reads_as fp) es rs -> Forall2 (reads_as fp) (skipn j es) (skipn j rs).
Proof.
  intros Hl. revert j. induction Hl as [| e r es rs Hl Hls IH]; intros [| j]; cbn [skipn].
  - constructor.
  - constructor.
  - constructor; assumption.
  - apply IH.
Qed.

Lemma linked_sites (fp : string) (es : list IndexEntry) (rs : list EmissionRecord) :
  Forall2 (reads_as fp) es rs -> map ie_site_id es = map site_id rs.
Proof.
  induction 1 as [| e r es rs (_ & _ & H3) _ IH]; [reflexivity |].
  cbn [map]. rewrite IH. f_equal.
  apply (f_equal (fun f => fst (snd f))) in H3. exact H3.
Qed.

Lemma StronglySorted_skipn {A} (R : A -> A -> Prop) (j : nat) (l : list A) :
  StronglySorted R l -> StronglySorted R (skipn j l).
Proof.
  intros Hs. revert j. induction Hs as [| x l Hs IH Hx]; intros [| j]; cbn [skipn].
  - constructor.
  - constructor.
  - constructor; assumption.
  - apply IH.
Qed.

Lemma map_snd_with_tell (pos : nat) (ls : list string) :
  map snd (with_tell pos ls) = ls.
Proof.
  revert pos. induction ls as [| l ls IH]; intros pos; [reflexivity |].
  cbn [with_tell map snd]. rewrite IH. reflexivity.
Qed.

Lemma entries_of_increasing (fp : string) :
  StronglySorted lt (map ie_offset (entries_of (log_lines fp))).
Proof.
  rewrite entries_of_offsets. apply StronglySorted_filter_map.
  unfold log_lines. apply with_tell_increasing, split_lines_lengths.
Qed.

(** Reading at the offsets of entries that stand for records. *)
Lemma read_linked (s : state) (es : list IndexEntry) (rs : list EmissionRecord) :
  Forall2 (reads_as (log_content s)) es rs ->
  StronglySorted lt (map ie_offset es) ->
  (es <> [] -> log_readable s = true) ->
  fst (IndexedJsonlStore._read_records_by_offsets (map ie_offset es) s)
  = Ok (map (as_read "indexed_jsonl") rs).
Proof.
  intros Hl Hsorted Hr. destruct (linked_reads Hl) as [Hrec Hfat].
  destruct es as [| e es].
  - inversion Hl. reflexivity.
  - destruct (read_increasing_offsets s (Hr ltac:(discriminate)) Hsorted Hfat)
      as (s' & -> & _).
    cbn [fst]. rewrite Hrec. reflexivity.
Qed.

(** The first load of a store object on a Log the full scan reads, with
    no sidecar to take the index from: the rebuilt index stands for the
    records of the scan, one for one and in order. *)
Lemma load_scanned (st : state) (recs : list EmissionRecord) :
  _index_loaded st = false ->
  sidecar_pickled st = false ->
  fst (IndexedJsonlStore.all st) = Ok recs ->
  exists st1,
    IndexedJsonlStore._load_index st = (Ok tt, st1)
    /\ Forall2 (reads_as (log_content st1)) (_index st1) recs
    /\ StronglySorted lt (map ie_offset (_index st1))
    /\ (_index st1 <> [] -> log_readable st1 = true).
Proof.
  intros Hl Hp Ha.
  destruct (_load_index_spec st) as (st1 & E & E1 & _ & E3 & _).
  exists st1. split; [exact E |].
  unfold log_content, log_readable. rewrite E1, E3, (loaded_index_unpickled st Hl Hp).
  unfold rebuilt_index.
  destruct (log_file st) as [f |] eqn:Hf.
  - destruct (readable f) eqn:Hr.
    + rewrite (all_run st Hf Hr) in Ha. cbn [fst] in Ha. unfold read_records in Ha.
      pose proof (readline_at_lines (content f) EmptyString) as Hlines.
      cbn [String.length append] in Hlines.
      rewrite <- (map_snd_with_tell 0 (split_lines (content f))) in Ha.
      destruct (@scan_lines _ _ _ _ _ Hlines Ha) as (Hpass & _ & Hlink).
      unfold log_lines. rewrite Hpass. cbn [andb].
      split; [exact Hlink |]. split; [apply entries_of_increasing | reflexivity].
    + rewrite (all_unreadable st Hf Hr) in Ha. discriminate.
  - rewrite (all_missing st Hf) in Ha. inversion Ha.
    split; [constructor |]. split; [constructor | congruence].
Qed.

End ScanAndIndex.

Section ScanAndIndexResults.
Context `{L : PyLib}.

Local Arguments IndexedJsonlStore._load_index : simpl never.
Local Arguments IndexedJsonlStore._read_records_by_offsets : simpl never.
Local Arguments IndexedJsonlStore.all : simpl never.
Local Arguments split_lines : simpl never.
Local Arguments sorted : simpl never.

Lemma filter_nonempty {A} (p : A -> bool) (l : list A) : filter p l <> [] -> l <> [].
Proof. destruct l; [cbn; congruence | discriminate]. Qed.

(** X17.  The index reads what the full scan reads, on a Log of plain
    text.  On any Log of ASCII characters in which every carriage return
    is followed by a line feed - blank lines, either of the two line
    endings, lines in the value/unit form, lines written by anyone - on
    which [all()] succeeds with the records [recs], a store object that
    has no sidecar to take its index from answers through the index as the
    scan would: [tail(n)] is [recs[-n:]], [query_by_site] is the records
    of [recs] with that site, [get_sites] is their sites; the records
    differ from those of [all()] in the source tag only.  (A Log with a
    carriage return that ends a line by itself is outside the property:
    there [tell] gives numbers that are not positions.) *)
Theorem the_index_reads_what_the_scan_reads
        (st : state) (recs : list EmissionRecord) (n : Z) (site : string) :
  _index_loaded st = false ->
  sidecar_pickled st = false ->
  plain (log_content st) = true ->
  fst (IndexedJsonlStore.all st) = Ok recs ->
  fst (IndexedJsonlStore.tail n st)
  = Ok (map (as_read "indexed_jsonl") (slice_from (- n) recs))
  /\ fst (IndexedJsonlStore.query_by_site site st)
     = Ok (map (as_read "indexed_jsonl")
               (filter (fun r => String.eqb (site_id r) site) recs))
  /\ fst (IndexedJsonlStore.get_sites st) = Ok (set_of (map site_id recs)).
Proof.
  intros Hl Hp _ Ha.
  destruct (load_scanned st Hl Hp Ha) as (st1 & E & Hlink & Hsorted & Hr).
  pose proof (Forall2_length Hlink) as Hlen.
  split; [| split].
  - unfold IndexedJsonlStore.tail, bind at 1. rewrite E. unfold bind, get.
    destruct (_index st1) as [| e0 idx0] eqn:Hidx.
    + destruct recs; [| discriminate]. cbn [fst ret].
      unfold slice_from. destruct (- n <? 0)%Z; rewrite skipn_nil; reflexivity.
    + assert (Hne : _index st1 <> []) by (rewrite Hidx; discriminate).
      rewrite <- Hidx in *. clear Hidx e0 idx0. rewrite Hlen.
      destruct (n <=? Z.of_nat (List.length recs))%Z eqn:Hn.
      * destruct (slice_from_skipn (- n) (_index st1) recs Hlen) as (j & -> & ->).
        apply read_linked.
        -- apply linked_skipn. exact Hlink.
        -- rewrite <- skipn_map. apply StronglySorted_skipn. exact Hsorted.
        -- intros _. exact (Hr Hne).
      * apply Z.leb_gt in Hn. rewrite (slice_from_all _ Hn).
        apply read_linked; [exact Hlink | exact Hsorted | exact Hr].
  - unfold IndexedJsonlStore.query_by_site, bind at 1. rewrite E. unfold bind, get.
    apply (read_linked st1
             (linked_filter (fun f => String.eqb (fst (snd f)) site) Hlink)).
    + apply StronglySorted_filter_map. exact Hsorted.
    + intros Hne. apply Hr. exact (filter_nonempty _ Hne).
  - unfold IndexedJsonlStore.get_sites, bind at 1. rewrite E. unfold bind, get, ret.
    cbn [fst]. rewrite (linked_sites Hlink). reflexivity.
Qed.

End ScanAndIndexResults.

(** ** Spellings of the UTC offset *)

Section Timestamps.
Context `{L : PyLib}.

Lemma get_app_r (a b : string) (k : nat) :
  String.get (String.length a + k) (a ++ b) = String.get k b.
Proof. induction a as [| c a IH]; [reflexivity | exact IH]. Qed.

Lemma substring_app_r (a b : string) (k : nat) :
  substring 0 (String.length a + k) (a ++ b) = (a ++ substring 0 k b)%string.
Proof.
  induction a as [| c a IH]; [reflexivity |].
  cbn [String.length append plus substring]. rewrite IH. reflexivity.
Qed.

Lemma drop_app_r (a b : string) (k : nat) :
  drop (String.length a + k) (a ++ b) = drop k b.
Proof. induction a as [| c a IH]; [reflexivity | exact IH]. Qed.

Lemma last_char_app (a : string) (c : ascii) (b : string) :
  last_char (a ++ String c b) = last_char (String c b).
Proof.
  induction a as [| x a IH]; [reflexivity |].
  change (String x a ++ String c b)%string with (String x (a ++ String c b)).
  cbn [last_char]. rewrite IH.
  destruct (a ++ String c b)%string eqn:E; [| reflexivity].
  destruct a; discriminate.
Qed.

Lemma rstrip_id (s : string) : ends_tight s = true -> rstrip s = s.
Proof.
  induction s as [| c s IH]; [discriminate |].
  destruct s as [| c' s].
  - unfold ends_tight. cbn. intros Hc. apply negb_true_iff in Hc. rewrite Hc. reflexivity.
  - intros Hc. rewrite ends_tight_cons in Hc by discriminate.
    rewrite rstrip_cons, (IH Hc). reflexivity.
Qed.

Lemma strip_tight (a : string) (c : ascii) (b : string) :
  starts_tight a = true ->
  ends_tight (String c b) = true ->
  strip (a ++ String c b) = (a ++ String c b)%string.
Proof.
  intros Ha Hb. unfold strip. rewrite lstrip_tight by exact Ha. apply rstrip_id.
  unfold ends_tight in *. rewrite last_char_app. exact Hb.
Qed.

Lemma digit_facts (c : ascii) :
  isdigit c = true ->
  isspace c = false /\ Ascii.eqb c "Z"%char = false /\ Ascii.eqb c ":"%char = false.
Proof.
  intros Hd. unfold isdigit, isspace in *.
  apply andb_true_iff in Hd. destruct Hd as [H1 H2].
  apply Nat.leb_le in H1. apply Nat.leb_le in H2.
  split; [| split].
  - apply orb_false_iff. split; apply andb_false_iff.
    + right. apply Nat.leb_gt. lia.
    + right. apply Nat.leb_gt. lia.
  - apply Ascii.eqb_neq. intros ->. cbn in H2. lia.
  - apply Ascii.eqb_neq. intros ->. cbn in H2. lia.
Qed.

Lemma body_length (body : string) : starts_tight body = true -> 1 <= String.length body.
Proof. destruct body; [discriminate | cbn; lia]. Qed.

(** [parse_timestamp] leaves a string that ends in [+hhmm] as it is. *)
Lemma normalised_plain (body : string) (s h1 h2 m1 m2 : ascii) :
  starts_tight body = true ->
  isdigit h2 = true -> isdigit m2 = true ->
  normalised (body ++ tz_plain s h1 h2 m1 m2) = (body ++ tz_plain s h1 h2 m1 m2)%string.
Proof.
  intros Hb Hh2 Hm2.
  destruct (digit_facts _ Hh2) as (_ & _ & Hc).
  destruct (digit_facts _ Hm2) as (Hsp & Hz & _).
  unfold normalised, tz_plain.
  rewrite strip_tight; [| exact Hb | unfold ends_tight; cbn; rewrite Hsp; reflexivity].
  unfold endswith_char. rewrite last_char_app. cbn [last_char]. rewrite Hz.
  unfold char_from_end. rewrite length_app. cbn [String.length].
  replace (String.length body + 5 - 3) with (String.length body + 2) by lia.
  rewrite get_app_r. cbn [String.get is_char]. rewrite Hc.
  cbn [andb]. rewrite andb_false_r. reflexivity.
Qed.

(** [parse_timestamp] takes the colon out of a final [+hh:mm]. *)
Lemma normalised_colon (body : string) (s h1 h2 m1 m2 : ascii) :
  starts_tight body = true ->
  is_sign s = true -> isdigit m2 = true ->
  normalised (body ++ tz_colon s h1 h2 m1 m2) = (body ++ tz_plain s h1 h2 m1 m2)%string.
Proof.
  intros Hb Hs Hm2.
  destruct (digit_facts _ Hm2) as (Hsp & Hz & _).
  pose proof (body_length _ Hb) as Hlen.
  unfold normalised, tz_colon.
  rewrite strip_tight; [| exact Hb | unfold ends_tight; cbn; rewrite Hsp; reflexivity].
  unfold endswith_char. rewrite last_char_app. cbn [last_char]. rewrite Hz.
  unfold char_from_end, drop_last, take_last. rewrite length_app. cbn [String.length].
  replace (String.length body + 6 - 3) with (String.length body + 3) by lia.
  replace (String.length body + 6 - 6) with (String.length body + 0) by lia.
  replace (String.length body + 6 - 2) with (String.length body + 4) by lia.
  rewrite !get_app_r, substring_app_r, drop_app_r.
  cbn [String.get is_char substring drop].
  change (Ascii.eqb ":"%char ":"%char) with true.
  unfold is_sign in Hs. rewrite Hs.
  replace (6 <=? String.length body + 6) with true by (symmetry; apply Nat.leb_le; lia).
  cbn [andb]. rewrite string_app_assoc. reflexivity.
Qed.

(** [parse_timestamp] spells a final [Z] as [+0000]. *)
Lemma normalised_Z (body : string) :
  starts_tight body = true ->
  normalised (body ++ "Z") = (body ++ tz_plain "+" "0" "0" "0" "0")%string.
Proof.
  intros Hb. pose proof (body_length _ Hb) as Hlen.
  unfold normalised.
  rewrite strip_tight; [| exact Hb | reflexivity].
  unfold endswith_char. rewrite last_char_app. cbn [last_char].
  change (Ascii.eqb "Z"%char "Z"%char) with true. cbv iota.
  assert (Hd : drop_last 1 (body ++ "Z") = body).
  { unfold drop_last. rewrite length_app. cbn [String.length].
    replace (String.length body + 1 - 1) with (String.length body + 0) by lia.
    rewrite substring_app_r. cbn [substring]. apply string_app_nil_r. }
  rewrite !Hd.
  pose proof (normalised_plain body "+" "0" "0" "0" "0" Hb eq_refl eq_refl) as Hn.
  unfold normalised, tz_plain in Hn.
  rewrite strip_tight in Hn; [| exact Hb | reflexivity].
  unfold endswith_char in Hn. rewrite last_char_app in Hn. cbn [last_char] in Hn.
  change (Ascii.eqb "0"%char "Z"%char) with false in Hn. cbv iota in Hn. exact Hn.
Qed.

End Timestamps.

Section TimestampResults.
Context `{L : PyLib}.

(** X18.  The spellings of a UTC offset are read alike.  For a text
    [body] that does not start with white space, followed by an offset:
    when one of the five formats reads [body+hhmm], [parse_timestamp]
    returns that reading for [body+hhmm] and for [body+hh:mm] alike (the
    colon is taken out before the formats are tried), and for [bodyZ] when
    the offset is [+0000]. *)
Theorem utc_offset_spellings_are_read_alike
        (body : string) (s h1 h2 m1 m2 : ascii) (dt : datetime) :
  starts_tight body = true ->
  is_sign s = true ->
  isdigit h2 = true ->
  isdigit m2 = true ->
  first_format (body ++ tz_plain s h1 h2 m1 m2) COMMON_FORMATS = Some dt ->
  parse_timestamp (body ++ tz_plain s h1 h2 m1 m2) = Ok dt
  /\ parse_timestamp (body ++ tz_colon s h1 h2 m1 m2) = Ok dt
  /\ (tz_plain s h1 h2 m1 m2 = "+0000" -> parse_timestamp (body ++ "Z") = Ok dt).
Proof.
  intros Hb Hs Hh2 Hm2 Hf.
  assert (Hp : forall value,
             normalised value = (body ++ tz_plain s h1 h2 m1 m2)%string ->
             parse_timestamp value = Ok dt).
  { intros value Hn.
    change (parse_timestamp value)
      with (match first_format (normalised value) COMMON_FORMATS with
            | Some d => Ok d
            | None => match fromisoformat value with
                      | Some d => Ok d
                      | None => Raise ValueError
                      end
            end).
    rewrite Hn, Hf. reflexivity. }
  split; [| split].
  - apply Hp. apply normalised_plain; assumption.
  - apply Hp. apply normalised_colon; assumption.
  - intros Hz. apply Hp. rewrite Hz. apply normalised_Z. exact Hb.
Qed.

End TimestampResults.

(** ** The file stores and the store in memory *)

Section Simulation.
Context `{L : PyLib}.

Local Arguments IndexedJsonlStore._load_index : simpl never.
Local Arguments IndexedJsonlStore._read_records_by_offsets : simpl never.
Local Arguments IndexedJsonlStore.append : simpl never.
Local Arguments IndexedJsonlStore.all : simpl never.
Local Arguments split_lines : simpl never.
Local Arguments sorted : simpl never.

Lemma append_keeps_writable (st : state) (rs : list EmissionRecord) :
  log_writable st = true ->
  log_writable (snd (IndexedJsonlStore.append rs st)) = true.
Proof.
  intros Hw. destruct (append_run rs st Hw) as (st' & -> & F & _). cbn [snd].
  unfold log_writable. rewrite F. apply appended_log_writable. exact Hw.
Qed.

Lemma append_each_in_memory_run (bs : list (list EmissionRecord))
      (rs : list EmissionRecord) :
  append_each_in_memory bs rs = (map (@List.length _) bs, rs ++ List.concat bs).
Proof.
  revert rs. induction bs as [| b bs IH]; intros rs.
  - cbn. rewrite app_nil_r. reflexivity.
  - cbn [append_each_in_memory InMemoryStore.append map List.concat].
    rewrite IH, List.length_app, <- app_assoc. do 2 f_equal. lia.
Qed.

Lemma append_each_run (bs : list (list EmissionRecord))
      (st : state) (rs : list EmissionRecord) :
  holds st rs ->
  log_writable st = true ->
  Forall (Forall storable) bs ->
  exists st',
    append_each bs st = (Ok (map (@List.length _) bs), st')
    /\ holds st' (rs ++ List.concat bs).
Proof.
  intros Hh Hw Hs. revert st rs Hh Hw.
  induction Hs as [| b bs Hb _ IH]; intros st rs Hh Hw.
  - exists st. cbn. rewrite app_nil_r. split; [reflexivity | exact Hh].
  - cbn [append_each]. unfold bind at 1.
    pose proof (append_keeps_writable st b Hw) as Hw'.
    destruct (append_holds Hh Hw Hb) as (st1 & E & Hh1). rewrite E in *. cbn [snd] in Hw'.
    destruct (IH st1 _ Hh1 Hw') as (st' & E' & Hh').
    unfold bind, ret. rewrite E'. exists st'. split; [reflexivity |].
    cbn [List.concat]. rewrite app_assoc. exact Hh'.
Qed.

End Simulation.

Section SimulationResults.
Context `{L : PyLib}.

Local Arguments IndexedJsonlStore._load_index : simpl never.
Local Arguments IndexedJsonlStore._read_records_by_offsets : simpl never.
Local Arguments IndexedJsonlStore.append : simpl never.
Local Arguments IndexedJsonlStore.all : simpl never.
Local Arguments split_lines : simpl never.
Local Arguments sorted : simpl never.

(** X19.  The store on disk answers as the store in memory.  Starting
    from an empty store, after the same batches of storable records have
    been appended to an [IndexedJsonlStore] and to an [InMemoryStore], the
    appends have returned the same counts, and [all], [tail(n)],
    [query_time_range] and [summary] of the store on disk return what the
    store in memory returns, each record as read back from its line. *)
Theorem the_store_on_disk_answers_as_the_store_in_memory
        (st0 : state) (batches : list (list EmissionRecord))
        (n : Z) (start end_ : option datetime) :
  holds st0 [] ->
  log_writable st0 = true ->
  Forall (Forall storable) batches ->
  let st := snd (append_each batches st0) in
  let mem := snd (append_each_in_memory batches InMemoryStore.init) in
  fst (append_each batches st0)
  = Ok (fst (append_each_in_memory batches InMemoryStore.init))
  /\ fst (IndexedJsonlStore.all st) = Ok (map (as_read "jsonl") (InMemoryStore.all mem))
  /\ fst (IndexedJsonlStore.tail n st)
     = Ok (map (as_read "indexed_jsonl") (InMemoryStore.tail n mem))
  /\ fst (IndexedJsonlStore.query_time_range start end_ st)
     = Ok (map (as_read "indexed_jsonl") (InMemoryStore.query_time_range start end_ mem))
  /\ fst (IndexedJsonlStore.summary st) = Ok (InMemoryStore.summary mem).
Proof.
  intros Hh Hw Hs. cbn zeta.
  destruct (append_each_run Hh Hw Hs) as (st & E & Hst).
  rewrite E, append_each_in_memory_run. unfold InMemoryStore.init. cbn [fst snd app] in *.
  split; [reflexivity |]. split; [| split; [| split]].
  - rewrite (all_holds Hst). reflexivity.
  - destruct (tail_holds n Hst) as (st' & -> & _). reflexivity.
  - destruct (guarded_select_run
                (fun f => IndexedJsonlStore.in_range start end_ (fst f)) Hst)
      as (st' & E' & _).
    assert (E'' : IndexedJsonlStore.query_time_range start end_ st
                  = (Ok (map (as_read "indexed_jsonl")
                             (InMemoryStore.query_time_range start end_
                                (List.concat batches))), st'))
      by exact E'.
    rewrite E''. reflexivity.
  - unfold IndexedJsonlStore.summary, bind, ret. rewrite (all_holds Hst).
    cbn [fst]. rewrite summary_of_as_read. reflexivity.
Qed.

End SimulationResults.

(** ** Windows *)

Section WindowFacts.
Context `{D : PyData} `{C : @PyClock D}.
Local Open Scope Z_scope.

(** X20.  [floor_to_window(dt, seconds)] raises [ZeroDivisionError] for a
    window of zero seconds.  Otherwise it floors the epoch second of [dt]
    to [f], a multiple of [seconds] with [f <= epoch < f + seconds] for a
    positive window - the start of the window [dt] falls in - and
    [f + seconds < epoch <= f] for a negative one, which rounds up; it
    returns the instant of [f] when [f] is the second of a [datetime], and
    raises what [fromtimestamp] raises when it is not, as for a [dt] in
    the first days of the year 1 and a window of a week.  Flooring a
    returned instant again returns it, provided the clock gives back the
    second it was made from. *)
Theorem floor_to_window_is_the_start_of_the_window (dt : datetime) (seconds : Z) :
  (seconds = 0 -> floor_to_window dt seconds = inr ZeroDivisionError)
  /\ (seconds <> 0 ->
      exists f,
        floor_to_window dt seconds
        = match fromtimestamp f with
          | Some w => inl w
          | None => inr OutOfRange
          end
        /\ (exists k, f = k * seconds)
        /\ (0 < seconds -> f <= epoch_of dt < f + seconds)
        /\ (seconds < 0 -> f + seconds < epoch_of dt <= f)
        /\ (forall w, fromtimestamp f = Some w ->
                      floor_to_window dt seconds = inl w
                      /\ (epoch_of w = f -> floor_to_window w seconds = inl w))).
Proof.
  unfold floor_to_window. split.
  - intros ->. reflexivity.
  - intros Hne. exists (epoch_of dt - epoch_of dt mod seconds).
    replace (seconds =? 0) with false by (symmetry; apply Z.eqb_neq; exact Hne).
    pose proof (Z.div_mod (epoch_of dt) seconds Hne) as Hdm.
    split; [reflexivity |]. split; [| split; [| split]].
    + exists (epoch_of dt / seconds). lia.
    + intros Hpos. pose proof (Z.mod_pos_bound (epoch_of dt) seconds Hpos). lia.
    + intros Hneg. pose proof (Z.mod_neg_bound (epoch_of dt) seconds Hneg). lia.
    + intros w Hw. rewrite Hw. split; [reflexivity |]. intros ->.
      replace ((epoch_of dt - epoch_of dt mod seconds) mod seconds) with 0.
      * rewrite Z.sub_0_r, Hw. reflexivity.
      * replace (epoch_of dt - epoch_of dt mod seconds)
          with (epoch_of dt / seconds * seconds) by lia.
        rewrite Z.mod_mul by exact Hne. reflexivity.
Qed.

End WindowFacts.

(** ** What a rebuild reports *)

Section RebuildReport.
Context `{L : PyLib}.

Local Arguments IndexedJsonlStore._rebuild_index : simpl never.
Local Arguments split_lines : simpl never.

Lemma entries_and_warnings (ps : list (nat * string)) :
  List.length (entries_of ps) + List.length (warnings_of ps)
  = List.length (filter (fun p => negb (blank p)) ps).
Proof.
  induction ps as [| p ps IH]; [reflexivity |].
  cbn [entries_of warnings_of filter].
  destruct (blank p); cbn [negb]; [exact IH |].
  destruct (line_entry p); cbn [List.length]; lia.
Qed.

Lemma regular_entries (ps : list (nat * string)) :
  forallb regular ps = true -> entries_of ps = records_index ps.
Proof.
  induction ps as [| p ps IH]; [reflexivity |].
  cbn [forallb entries_of records_index]. intros Hr.
  apply andb_true_iff in Hr. destruct Hr as [Hp Hps]. specialize (IH Hps).
  unfold regular, well_formed, skipped, line_entry, line_record in *.
  destruct (blank p); cbn [negb andb orb] in *; [exact IH |].
  destruct (record_of_line "jsonl" (strip (snd p))) as [r | e] eqn:Hr.
  - rewrite (@record_of_line_entry _ _ _ _ _ (fst p) Hr). rewrite IH. reflexivity.
  - destruct (entry_of_line (fst p) (strip (snd p))); [discriminate | exact IH].
Qed.

Lemma regular_warnings (ps : list (nat * string)) :
  forallb regular ps = true -> Forall2 warns_of (warnings_of ps) (filter unread ps).
Proof.
  induction ps as [| p ps IH]; [constructor |].
  cbn [forallb warnings_of filter]. intros Hr.
  apply andb_true_iff in Hr. destruct Hr as [Hp Hps]. specialize (IH Hps).
  unfold unread at 1. unfold regular, well_formed, skipped, line_entry, line_record in *.
  destruct (blank p); cbn [negb andb orb] in *; [exact IH |].
  destruct (record_of_line "jsonl" (strip (snd p))) as [r | e] eqn:Hr.
  - rewrite (@record_of_line_entry _ _ _ _ _ (fst p) Hr). exact IH.
  - destruct (entry_of_line (fst p) (strip (snd p))) as [x | e']; [discriminate |].
    cbn [negb orb] in *. constructor; [| exact IH].
    exists e'. split; [exact Hp | reflexivity].
Qed.

Lemma records_index_offsets (ps : list (nat * string)) :
  map ie_offset (records_index ps) = map fst (filter well_formed ps).
Proof.
  induction ps as [| p ps IH]; [reflexivity |].
  cbn [records_index filter]. unfold well_formed at 1.
  destruct (blank p); cbn [negb andb]; [exact IH |].
  destruct (line_record p); [| exact IH].
  cbn [map entry_of_record ie_offset]. rewrite IH. reflexivity.
Qed.

Lemma read_and_unread (ps : list (nat * string)) :
  List.length (filter well_formed ps) + List.length (filter unread ps)
  = List.length (filter (fun p => negb (blank p)) ps).
Proof.
  induction ps as [| p ps IH]; [reflexivity |].
  cbn [filter]. unfold unread at 1.
  destruct (well_formed p) eqn:Hw; destruct (blank p) eqn:Hb;
    cbn [negb andb List.length]; try lia.
  unfold well_formed in Hw. rewrite Hb in Hw. discriminate.
Qed.

(** X21.  A rebuild accounts for every line.  On a Log of plain text
    (ASCII characters, every carriage return followed by a line feed) that
    is not empty, can be read and is regular - every line is blank, or a
    reader decodes it into a record, or the rebuild steps over it with a
    warning - [_rebuild_index] discards the index in memory and leaves one
    entry per line a reader decodes, in the order of the Log, with the
    offset of the line, its length once stripped and the timestamp, site
    and region of the record read from it.  It logs one warning per other
    non-blank line, with the offset of the line and a [JSONDecodeError] or
    a [KeyError], in the order of the Log, then the outcome of the one
    save, then "Rebuilt index" with the number of entries; entries and
    warnings together are as many as the Log has non-blank lines. *)
Theorem a_rebuild_accounts_for_every_line (st : state) (f : file string) :
  log_file st = Some f ->
  readable f = true ->
  content f <> EmptyString ->
  plain (content f) = true ->
  forallb regular (log_lines (content f)) = true ->
  let st' := snd (IndexedJsonlStore._rebuild_index st) in
  let lines := log_lines (content f) in
  let entries := List.length (filter well_formed lines) in
  _index st' = records_index lines
  /\ map ie_offset (_index st') = map fst (filter well_formed lines)
  /\ (exists warnings,
        Forall2 warns_of warnings (filter unread lines)
        /\ logged st'
           = logged st ++ warnings
             ++ [if sidecar_writable st
                 then Log DEBUG "Saved index" (Some entries) None
                 else Log ERROR "Failed to save index" None (Some PermissionError);
                 Log INFO "Rebuilt index" (Some entries) None])
  /\ List.length (_index st') + List.length (filter unread lines)
     = List.length (filter (fun p => negb (blank p)) lines).
Proof.
  intros Hf Hr Hne _ Hreg. cbn zeta.
  destruct (regular_lines _ Hreg) as [Hp _].
  rewrite (_rebuild_index_run st Hf Hr Hne Hp). unfold emit. cbn [snd _index logged].
  rewrite saved_index. cbn [_index].
  rewrite (regular_entries _ Hreg).
  pose proof (f_equal (@List.length _) (records_index_offsets (log_lines (content f)))) as Hlen.
  rewrite !length_map in Hlen.
  split; [reflexivity |]. split; [apply records_index_offsets |]. split.
  - exists (warnings_of (log_lines (content f))).
    split; [apply regular_warnings; exact Hreg |].
    unfold saved, sidecar_writable. cbn [idx_file _index logged]. rewrite Hlen.
    destruct (idx_file st) as [x |]; [destruct (writable x) |]; cbn [logged];
      rewrite <- !app_assoc; reflexivity.
  - rewrite Hlen. apply read_and_unread.
Qed.

End RebuildReport.

(** * The store at work on concrete files *)

#[local] Existing Instance Ref.data.
#[local] Existing Instance Ref.lib.

(** ** C1 *)

(** C1 as stated fails: records appended with the source tag ["test"]
    come back from [all()] with the tag ["jsonl"], so the list returned is
    not the list appended, for either store. *)
Lemma all_differs_from_what_was_appended :
  fst (IndexedJsonlStore.append Demo.records (IndexedJsonlStore.init Demo.no_files)) = Ok 3
  /\ fst (IndexedJsonlStore.all Demo.store3) <> Ok Demo.records
  /\ fst (JsonlStore.all Demo.plain3) <> Ok Demo.records
  /\ fst (IndexedJsonlStore.all Demo.store3) = Ok (map (as_read "jsonl") Demo.records).
Proof.
  split; [vm_compute; reflexivity |].
  split; [vm_compute; intros E; discriminate E |].
  split; [vm_compute; intros E; discriminate E |].
  vm_compute; reflexivity.
Qed.

Lemma append_then_all_witness :
  (exists st',
      IndexedJsonlStore.append Demo.records (IndexedJsonlStore.init Demo.no_files)
      = (Ok 3, st')
      /\ fst (IndexedJsonlStore.all st') = Ok (map (as_read "jsonl") Demo.records))
  /\ (exists st',
         JsonlStore.append Demo.records (IndexedJsonlStore.init Demo.no_files) = (Ok 3, st')
         /\ fst (JsonlStore.all st') = Ok (map (as_read "jsonl") Demo.records)).
Proof.
  apply (append_then_all (IndexedJsonlStore.init Demo.no_files) [] Demo.records).
  - reflexivity.
  - reflexivity.
  - reflexivity.
  - repeat constructor; vm_compute; reflexivity.
Defined.

(** ** C2 *)

Lemma tail_zero_returns_every_record_witness :
  fst (IndexedJsonlStore.tail 0 Demo.store3)
  = Ok (map (as_read "indexed_jsonl") Demo.records)
  /\ fst (JsonlStore.tail 0 Demo.store3) = Ok (map (as_read "jsonl") Demo.records).
Proof.
  apply (tail_zero_returns_every_record Demo.store3 (rs := Demo.records)).
  - vm_compute; reflexivity.
  - vm_compute; reflexivity.
  - vm_compute; reflexivity.
  - vm_compute; reflexivity.
  - repeat constructor; vm_compute; reflexivity.
Defined.

(** ** C3 *)

(** C3, where the code departs from it.  The Log has three lines; the
    first and the third are well-formed, the second is valid JSON with a
    timestamp no format reads.  [parse_timestamp] raises [ValueError],
    which the per-line handler of [_rebuild_index] does not name: the
    rebuild stops, logs one error and no warning, leaves the index empty
    and saves nothing. *)
Theorem rebuild_gives_up_on_unparsable_timestamp :
  let st' := snd (IndexedJsonlStore._rebuild_index Demo.unparsable) in
  well_formed_offsets (log_content Demo.unparsable) = [0; 224]
  /\ entry_of_line 115 Demo.bad_timestamp = Raise ValueError
  /\ fst (IndexedJsonlStore._rebuild_index Demo.unparsable) = Ok tt
  /\ _index st' = []
  /\ logged st' = [Log ERROR "Failed to rebuild index" None (Some ValueError)]
  /\ idx_file st' = None.
Proof. vm_compute. repeat split. Qed.

(** ** C4 *)

(** C4, where the code departs from it.  On the Log of
    [test_malformed_jsonl_handling], whose first and third lines are
    well-formed and whose second line is not JSON, [all()] raises
    [JSONDecodeError] and returns no record, for either store:
    [read_records] calls [json.loads] with no handler.  On the same Log
    the reads through the index step over the bad line: [tail(10)]
    returns the two well-formed records. *)
Theorem a_bad_line_fails_the_whole_scan :
  well_formed_offsets (log_content Demo.malformed) = [0; 133]
  /\ fst (IndexedJsonlStore.all Demo.malformed) = Raise JSONDecodeError
  /\ fst (JsonlStore.all Demo.malformed) = Raise JSONDecodeError
  /\ Demo.rates (fst (IndexedJsonlStore.tail 10 Demo.malformed)) = [(5 # 1)%Q; (6 # 1)%Q].
Proof. vm_compute. repeat split. Qed.

Lemma strict_scan_of_the_malformed_log :
  IndexedJsonlStore.all Demo.malformed = (Raise JSONDecodeError, Demo.malformed).
Proof.
  destruct (all_is_a_strict_scan Demo.malformed eq_refl eq_refl) as [_ Hbad].
  apply (Hbad [(Demo.good_12 ++ String LF EmptyString)%string]
              ("invalid json line" ++ String LF EmptyString)%string
              [(Demo.good_13 ++ String LF EmptyString)%string]
              [as_read "jsonl" Demo.r1]).
  - vm_compute; reflexivity.
  - repeat constructor.
  - vm_compute; reflexivity.
Defined.

(** ** C5 *)



(** ** C6 *)

(** C6 as stated fails: the Log of a store of three records is made
    unreadable; [tail(2)] on a new store object returns the empty list and
    logs an error, it does not raise.  [all()] on the same files does. *)
Lemma unreadable_log_goes_unreported :
  log_file Demo.unreadable <> None
  /\ log_readable Demo.unreadable = false
  /\ fst (IndexedJsonlStore.tail 2 Demo.unreadable) = Ok []
  /\ fst (IndexedJsonlStore.all Demo.unreadable) = Raise PermissionError.
Proof.
  split; [vm_compute; discriminate |]. vm_compute. repeat split.
Qed.

Lemma what_io_failures_reach_the_caller_witness :
  fst (IndexedJsonlStore.all Demo.unreadable) = Raise PermissionError
  /\ fst (IndexedJsonlStore.tail 2 Demo.unreadable) = Ok []
  /\ logged (snd (IndexedJsonlStore.tail 2 Demo.unreadable))
     = logged (snd (IndexedJsonlStore._load_index Demo.unreadable))
       ++ failed_read Demo.unreadable
            (map ie_offset
                 (tail_entries 2 (_index (snd (IndexedJsonlStore._load_index
                                                 Demo.unreadable))))).
Proof.
  destruct (what_io_failures_reach_the_caller Demo.unreadable [] 2 None None "site-1")
    as (_ & Hall & _ & Hempty & _).
  split; [| split].
  - apply Hall; [vm_compute; discriminate | vm_compute; reflexivity].
  - apply Hempty. vm_compute; reflexivity.
  - apply Hempty. vm_compute; reflexivity.
Defined.

(** On the same files [tail(2)] logs the error of [open]; [get_sites]
    names the sites of the index and [query_by_site] for a site that is
    not in the index returns the empty list, both without opening the Log
    and without logging an error. *)
Lemma an_unreadable_log_still_names_its_sites :
  filter (fun e => match e with Log ERROR _ _ _ => true | _ => false end)
         (logged (snd (IndexedJsonlStore.tail 2 Demo.unreadable)))
  = [Log ERROR "Failed to read records by offsets" (Some 2) (Some PermissionError)]
  /\ fst (IndexedJsonlStore.get_sites Demo.unreadable)
     = Ok (set_of (map site_id [Demo.r1; Demo.r2; Demo.r3]))
  /\ fst (IndexedJsonlStore.get_sites Demo.unreadable) <> Ok []
  /\ filter (fun e => match e with Log ERROR _ _ _ => true | _ => false end)
            (logged (snd (IndexedJsonlStore.get_sites Demo.unreadable))) = []
  /\ fst (IndexedJsonlStore.query_by_site "nowhere" Demo.unreadable) = Ok []
  /\ filter (fun e => match e with Log ERROR _ _ _ => true | _ => false end)
            (logged (snd (IndexedJsonlStore.query_by_site "nowhere" Demo.unreadable))) = [].
Proof.
  vm_compute. repeat split. discriminate.
Qed.

(** ** C7 *)

(** C7 as stated fails: during [_save_index] the sidecar path holds the
    truncated file, which is neither the index being saved nor what the
    sidecar held before. *)
Lemma sidecar_is_seen_truncated : ~ atomic_save Demo.store3.
Proof.
  intros Ha.
  destruct (Ha Truncated) as [E | E].
  - vm_compute. left. reflexivity.
  - discriminate E.
  - vm_compute in E. discriminate E.
Qed.

Lemma save_rewrites_sidecar_in_place_witness :
  idx_seen (snd (IndexedJsonlStore._save_index Demo.store3))
  = idx_seen Demo.store3 ++ [Truncated; Pickled (_index Demo.store3)].
Proof.
  destruct (save_rewrites_sidecar_in_place Demo.store3) as (_ & _ & _ & Hw & _).
  apply Hw. vm_compute; reflexivity.
Defined.

(** ** C8 *)

(** C8 as stated fails in its second half.  After a first [append] the
    sidecar is made read-only; the second [append] returns 1 and logs that
    the save failed.  A new store object then loads the sidecar of the
    first append: its index has one entry for a Log of two lines, nothing
    is rebuilt, and [tail(1)] returns the first record. *)
Lemma stale_sidecar_outlives_failed_save :
  let st'' := snd (IndexedJsonlStore._load_index (reopen Demo.after_failed_save)) in
  fst (IndexedJsonlStore.append [Demo.r2]
         (Demo.chmod_sidecar false
            (snd (IndexedJsonlStore.append [Demo.r1] (IndexedJsonlStore.init Demo.no_files)))))
  = Ok 1
  /\ In (Log ERROR "Failed to save index" None (Some PermissionError))
        (logged Demo.after_failed_save)
  /\ well_formed_offsets (log_content Demo.after_failed_save) = [0; 120]
  /\ map ie_offset (_index st'') = [0]
  /\ ~ corresponds (log_content st'') (_index st'')
  /\ Demo.rates (fst (IndexedJsonlStore.tail 1 (reopen Demo.after_failed_save))) = [(5 # 1)%Q].
Proof.
  cbn zeta.
  split; [vm_compute; reflexivity |].
  split; [vm_compute; tauto |].
  split; [vm_compute; reflexivity |].
  split; [vm_compute; reflexivity |].
  split; [unfold corresponds; vm_compute; intros E; discriminate E |].
  vm_compute; reflexivity.
Qed.

Lemma append_outlives_failed_save_witness :
  let st := Demo.chmod_sidecar false
              (snd (IndexedJsonlStore.append [Demo.r1] (IndexedJsonlStore.init Demo.no_files))) in
  fst (IndexedJsonlStore.append [Demo.r2] st) = Ok 1
  /\ idx_file (snd (IndexedJsonlStore.append [Demo.r2] st)) = idx_file st.
Proof.
  cbn zeta.
  destruct (append_outlives_failed_save
              (Demo.chmod_sidecar false
                 (snd (IndexedJsonlStore.append [Demo.r1]
                         (IndexedJsonlStore.init Demo.no_files))))
              [Demo.r2])
    as (H1 & _ & H3 & _).
  - vm_compute; reflexivity.
  - vm_compute; reflexivity.
  - split; [exact H1 | exact H3].
Defined.

(** ** C9 *)


(** A line with a [null] rate at offset 115, between two records: the
    read returns the record before it and drops the one after. *)
Lemma a_null_rate_ends_the_read :
  map (fatal_at (log_content Cases.with_null)) [0; 115; 231] = [false; true; false]
  /\ Demo.rates (fst (IndexedJsonlStore._read_records_by_offsets [231; 0; 115]
                       Cases.with_null))
     = [(5 # 1)%Q]
  /\ logged (snd (IndexedJsonlStore._read_records_by_offsets [231; 0; 115] Cases.with_null))
     = [Log ERROR "Failed to read records by offsets" (Some 3) (Some TypeError)].
Proof. vm_compute. repeat split. Qed.

(** A line with no rate, between two records: the rebuild gives it an
    entry, for the index decoder does not look at the rate, though no
    reader decodes it.  The Log is not regular; the index has three
    entries for two well-formed lines, [tail(3)] returns two records and
    [all()] raises. *)
Lemma a_line_without_rate_is_indexed :
  let st := snd (IndexedJsonlStore._load_index Cases.with_no_rate) in
  map regular (log_lines (log_content Cases.with_no_rate)) = [true; false; true]
  /\ map indexed (log_lines (log_content Cases.with_no_rate)) = [true; true; true]
  /\ map well_formed (log_lines (log_content Cases.with_no_rate)) = [true; false; true]
  /\ List.length (_index st) = 3
  /\ ~ corresponds (log_content st) (_index st)
  /\ Demo.rates (fst (IndexedJsonlStore.tail 3 Cases.with_no_rate))
     = [(5 # 1)%Q; (6 # 1)%Q]
  /\ fst (IndexedJsonlStore.all Cases.with_no_rate) = Raise KeyError.
Proof.
  cbn zeta. repeat split; try (vm_compute; reflexivity).
  unfold corresponds. vm_compute. intros E. discriminate E.
Qed.


(** ** C10 *)

Lemma queries_leave_the_log_alone_witness :
  log_file (snd (IndexedJsonlStore.tail 2 (reopen Demo.store3))) = log_file Demo.store3
  /\ idx_file (snd (IndexedJsonlStore.tail 2 (reopen Demo.store3))) = idx_file Demo.store3.
Proof.
  destruct (queries_leave_the_log_alone (reopen Demo.store3) 2 None None "site-1")
    as (_ & (Hlog & Hidx) & _).
  split.
  - exact Hlog.
  - apply Hidx. vm_compute; reflexivity.
Defined.

(** ** The queries on the store of three records *)

Ltac holds_by_evaluation :=
  split; [vm_compute; reflexivity |];
  split; [vm_compute; reflexivity |];
  split; [vm_compute; reflexivity |];
  repeat constructor; vm_compute; reflexivity.

Lemma query_by_site_returns_the_records_of_the_site_witness :
  fst (IndexedJsonlStore.query_by_site "site-1" Demo.store3)
  = Ok [as_read "indexed_jsonl" Demo.r1; as_read "indexed_jsonl" Demo.r3]
  /\ holds (snd (IndexedJsonlStore.query_by_site "site-1" Demo.store3)) Demo.records.
Proof.
  apply (@query_by_site_returns_the_records_of_the_site _ _
           Demo.store3 Demo.records "site-1").
  holds_by_evaluation.
Defined.

Lemma query_by_region_returns_the_records_of_the_region_witness :
  fst (IndexedJsonlStore.query_by_region "region-2" Demo.store3)
  = Ok [as_read "indexed_jsonl" Demo.r2]
  /\ holds (snd (IndexedJsonlStore.query_by_region "region-2" Demo.store3)) Demo.records.
Proof.
  apply (@query_by_region_returns_the_records_of_the_region _ _
           Demo.store3 Demo.records "region-2").
  holds_by_evaluation.
Defined.

Lemma query_time_range_is_half_open_witness :
  fst (IndexedJsonlStore.query_time_range
         (Some (Demo.at_hour 12)) (Some (Demo.at_hour 14)) Demo.store3)
  = Ok [as_read "indexed_jsonl" Demo.r1; as_read "indexed_jsonl" Demo.r2]
  /\ fst (JsonlStore.query_time_range
            (Some (Demo.at_hour 12)) (Some (Demo.at_hour 14)) Demo.store3)
     = Ok [as_read "jsonl" Demo.r1; as_read "jsonl" Demo.r2].
Proof.
  assert (Hh : holds Demo.store3 Demo.records) by holds_by_evaluation.
  exact (@query_time_range_is_half_open _ _ Demo.store3 Demo.records
           (Some (Demo.at_hour 12)) (Some (Demo.at_hour 14)) Hh).
Defined.

Lemma tail_is_the_slice_of_the_records_witness :
  fst (IndexedJsonlStore.tail (-1) Demo.store3)
  = Ok [as_read "indexed_jsonl" Demo.r2; as_read "indexed_jsonl" Demo.r3]
  /\ fst (JsonlStore.tail (-1) Demo.store3)
     = Ok [as_read "jsonl" Demo.r2; as_read "jsonl" Demo.r3]
  /\ holds (snd (IndexedJsonlStore.tail (-1) Demo.store3)) Demo.records.
Proof.
  apply (@tail_is_the_slice_of_the_records _ _ Demo.store3 Demo.records (-1)%Z).
  holds_by_evaluation.
Defined.

Lemma get_sites_and_regions_list_each_id_once_witness :
  exists sites regions,
    fst (IndexedJsonlStore.get_sites Demo.store3) = Ok sites
    /\ fst (IndexedJsonlStore.get_regions Demo.store3) = Ok regions
    /\ NoDup sites /\ NoDup regions
    /\ (forall s, In s sites <-> exists r, In r Demo.records /\ site_id r = s)
    /\ (forall g, In g regions <-> exists r, In r Demo.records /\ region_id r = g).
Proof.
  apply (@get_sites_and_regions_list_each_id_once _ _ Demo.store3 Demo.records).
  holds_by_evaluation.
Defined.

Lemma queries_by_site_partition_the_store_witness :
  Permutation
    (flat_map (fun s => results (fst (IndexedJsonlStore.query_by_site s Demo.store3)))
              (results (fst (IndexedJsonlStore.get_sites Demo.store3))))
    (map (as_read "indexed_jsonl") Demo.records).
Proof.
  apply (@queries_by_site_partition_the_store _ _ Demo.store3 Demo.records).
  holds_by_evaluation.
Defined.

(** ** Appending, rebuilding and loading on concrete files *)

Lemma rebuild_reproduces_the_index_of_append_witness :
  let st' := snd (IndexedJsonlStore._rebuild_index Demo.store3) in
  fst (IndexedJsonlStore._rebuild_index Demo.store3) = Ok tt
  /\ _index st' = map shorten (_index Demo.store3)
  /\ map entry_key (_index st') = map entry_key (_index Demo.store3)
  /\ filter (fun ev => match ev_level ev with WARNING => true | _ => false end)
            (skipn (List.length (logged Demo.store3)) (logged st')) = [].
Proof.
  apply (@rebuild_reproduces_the_index_of_append _ _ Demo.store3 Demo.records).
  - vm_compute; reflexivity.
  - vm_compute; reflexivity.
  - vm_compute; reflexivity.
  - repeat constructor; vm_compute; reflexivity.
Defined.

Lemma append_only_extends_the_log_witness :
  log_content (snd (IndexedJsonlStore.append [Demo.r2; Demo.r3] Demo.first_store))
  = (log_content Demo.first_store ++ serialize [Demo.r2; Demo.r3])%string
  /\ fst (IndexedJsonlStore.append [Demo.r1] Cases.read_only) = Raise PermissionError.
Proof.
  destruct (@append_only_extends_the_log _ _ Demo.first_store [Demo.r2; Demo.r3])
    as [Hok _].
  destruct (@append_only_extends_the_log _ _ Cases.read_only [Demo.r1])
    as [_ Hno].
  split.
  - apply Hok. vm_compute; reflexivity.
  - apply Hno. vm_compute; reflexivity.
Defined.

Lemma appended_entries_span_their_lines_witness :
  Forall2 (fun e r =>
             span (log_content
                     (snd (IndexedJsonlStore.append [Demo.r2; Demo.r3] Demo.first_store))) e
             = record_line r)
          (skipn (List.length (loaded_index Demo.first_store))
                 (_index (snd (IndexedJsonlStore.append [Demo.r2; Demo.r3] Demo.first_store))))
          [Demo.r2; Demo.r3].
Proof.
  apply (@appended_entries_span_their_lines _ _ Demo.first_store [Demo.r2; Demo.r3]).
  vm_compute; reflexivity.
Defined.

Lemma a_new_handle_adopts_the_saved_index_witness :
  let st' := snd (IndexedJsonlStore.append Demo.records (reopen Demo.no_files)) in
  let st'' := snd (IndexedJsonlStore._load_index (reopen st')) in
  sidecar_content st' = Some (Pickled (_index st'))
  /\ fst (IndexedJsonlStore._load_index (reopen st')) = Ok tt
  /\ _index st'' = _index st'
  /\ log_file st'' = log_file st'
  /\ idx_file st'' = idx_file st'
  /\ idx_seen st'' = idx_seen st'
  /\ logged st''
     = logged st' ++ [Log DEBUG "Loaded index" (Some (List.length (_index st'))) None].
Proof.
  apply (@a_new_handle_adopts_the_saved_index _ _ (reopen Demo.no_files) Demo.records).
  - vm_compute; reflexivity.
  - vm_compute; reflexivity.
Defined.

Lemma a_lost_sidecar_is_rebuilt_from_the_log_witness :
  let st' := snd (IndexedJsonlStore.tail 2 (reopen Cases.garbled)) in
  fst (IndexedJsonlStore.tail 2 (reopen Cases.garbled))
  = Ok (map (as_read "indexed_jsonl") (slice_from (- 2) Demo.records))
  /\ _index st' = map shorten (entries_from 0 Demo.records)
  /\ (Demo.records <> [] -> sidecar_writable Cases.garbled = true ->
      sidecar_content st' = Some (Pickled (map shorten (entries_from 0 Demo.records)))).
Proof.
  apply (@a_lost_sidecar_is_rebuilt_from_the_log _ _ Cases.garbled Demo.records 2%Z).
  - vm_compute; reflexivity.
  - vm_compute; reflexivity.
  - repeat constructor; vm_compute; reflexivity.
  - vm_compute; reflexivity.
Defined.

Lemma an_index_that_failed_to_build_stays_empty_witness :
  let st1 := snd (IndexedJsonlStore.tail 3 Cases.locked) in
  fst (IndexedJsonlStore.tail 3 Cases.locked) = Ok []
  /\ idx_file st1 = idx_file Cases.locked
  /\ fst (IndexedJsonlStore.tail 3 (update_log st1 Cases.unlocked)) = Ok []
  /\ fst (IndexedJsonlStore.query_by_site "site-1" (update_log st1 Cases.unlocked)) = Ok []
  /\ fst (IndexedJsonlStore.get_sites (update_log st1 Cases.unlocked)) = Ok [].
Proof.
  apply (@an_index_that_failed_to_build_stays_empty _ _ Cases.locked
           3%Z 3%Z "site-1" Cases.unlocked).
  - vm_compute; reflexivity.
  - vm_compute; reflexivity.
  - vm_compute; reflexivity.
Defined.

(** ** Scans, batches and stale offsets on concrete files *)

Lemma to_dicts_returns_what_append_serialised_witness :
  IndexedJsonlStore.to_dicts Demo.store3 = (Ok (map record_obj Demo.records), Demo.store3)
  /\ IndexedJsonlStore.summary Demo.store3 = (Ok (summary_of Demo.records), Demo.store3)
  /\ JsonlStore.to_dicts Demo.store3 = (Ok (map record_obj Demo.records), Demo.store3)
  /\ JsonlStore.summary Demo.store3 = (Ok (summary_of Demo.records), Demo.store3)
  /\ count (summary_of Demo.records) = 3.
Proof.
  apply (@to_dicts_returns_what_append_serialised _ _ Demo.store3 Demo.records).
  holds_by_evaluation.
Defined.

Lemma appending_in_batches_is_appending_at_once_witness :
  let st := reopen Demo.no_files in
  let st1 := snd (IndexedJsonlStore.append [Demo.r1] st) in
  let st2 := snd (IndexedJsonlStore.append [Demo.r2; Demo.r3] st1) in
  let st' := snd (IndexedJsonlStore.append ([Demo.r1] ++ [Demo.r2; Demo.r3]) st) in
  fst (IndexedJsonlStore.append [Demo.r1] st) = Ok 1
  /\ fst (IndexedJsonlStore.append [Demo.r2; Demo.r3] st1) = Ok 2
  /\ log_file st2 = log_file st'
  /\ _index st2 = _index st'.
Proof.
  apply (@appending_in_batches_is_appending_at_once _ _
           (reopen Demo.no_files) [Demo.r1] [Demo.r2; Demo.r3]).
  vm_compute; reflexivity.
Defined.

Lemma both_stores_write_the_same_log_witness :
  fst (JsonlStore.append Demo.records Demo.first_store)
  = fst (IndexedJsonlStore.append Demo.records Demo.first_store)
  /\ log_file (snd (JsonlStore.append Demo.records Demo.first_store))
     = log_file (snd (IndexedJsonlStore.append Demo.records Demo.first_store)).
Proof.
  apply (@both_stores_write_the_same_log _ _ Demo.first_store Demo.records).
  vm_compute; reflexivity.
Defined.


Lemma the_index_reads_what_the_scan_reads_witness :
  fst (IndexedJsonlStore.tail 2 Cases.mixed)
  = Ok (map (as_read "indexed_jsonl") (slice_from (- 2) Cases.mixed_records))
  /\ fst (IndexedJsonlStore.query_by_site "site-9" Cases.mixed)
     = Ok (map (as_read "indexed_jsonl")
               (filter (fun r => String.eqb (site_id r) "site-9") Cases.mixed_records))
  /\ fst (IndexedJsonlStore.get_sites Cases.mixed)
     = Ok (set_of (map site_id Cases.mixed_records)).
Proof.
  apply (@the_index_reads_what_the_scan_reads _ _
           Cases.mixed Cases.mixed_records 2%Z "site-9").
  - vm_compute; reflexivity.
  - vm_compute; reflexivity.
  - vm_compute; reflexivity.
  - vm_compute; reflexivity.
Defined.

Lemma utc_offset_spellings_are_read_alike_witness :
  parse_timestamp "2025-01-01T00:00:00+0000" = Ok (Ref.mkDt 2025 1 1 0 0 0 0)
  /\ parse_timestamp "2025-01-01T00:00:00+00:00" = Ok (Ref.mkDt 2025 1 1 0 0 0 0)
  /\ ("+0000" = "+0000" -> parse_timestamp "2025-01-01T00:00:00Z"
                           = Ok (Ref.mkDt 2025 1 1 0 0 0 0)).
Proof.
  apply (@utc_offset_spellings_are_read_alike Ref.data Ref.lib
           "2025-01-01T00:00:00" "+" "0" "0" "0" "0" (Ref.mkDt 2025 1 1 0 0 0 0)).
  - vm_compute; reflexivity.
  - vm_compute; reflexivity.
  - vm_compute; reflexivity.
  - vm_compute; reflexivity.
  - vm_compute; reflexivity.
Defined.

Lemma the_store_on_disk_answers_as_the_store_in_memory_witness :
  let batches := [[Demo.r1]; []; [Demo.r2; Demo.r3]] in
  let st := snd (append_each batches (reopen Demo.no_files)) in
  let mem := snd (append_each_in_memory batches InMemoryStore.init) in
  fst (append_each batches (reopen Demo.no_files))
  = Ok (fst (append_each_in_memory batches InMemoryStore.init))
  /\ fst (IndexedJsonlStore.all st) = Ok (map (as_read "jsonl") (InMemoryStore.all mem))
  /\ fst (IndexedJsonlStore.tail 2 st)
     = Ok (map (as_read "indexed_jsonl") (InMemoryStore.tail 2 mem))
  /\ fst (IndexedJsonlStore.query_time_range (Some (Demo.at_hour 13)) None st)
     = Ok (map (as_read "indexed_jsonl")
               (InMemoryStore.query_time_range (Some (Demo.at_hour 13)) None mem))
  /\ fst (IndexedJsonlStore.summary st) = Ok (InMemoryStore.summary mem).
Proof.
  apply (@the_store_on_disk_answers_as_the_store_in_memory _ _
           (reopen Demo.no_files) [[Demo.r1]; []; [Demo.r2; Demo.r3]]
           2%Z (Some (Demo.at_hour 13)) None).
  - holds_by_evaluation.
  - vm_compute; reflexivity.
  - repeat constructor; vm_compute; reflexivity.
Defined.

#[local] Existing Instance RefClock.clock.

(** The instant of [test_floor_to_window], floored to five minutes. *)
Lemma floor_to_window_is_the_start_of_the_window_witness :
  floor_to_window (Ref.mkDt 2025 1 1 0 5 31 0) 300 = inl (Ref.mkDt 2025 1 1 0 5 0 0)
  /\ exists f,
       floor_to_window (Ref.mkDt 2025 1 1 0 5 31 0) 300
       = match fromtimestamp f with
         | Some w => inl w
         | None => inr OutOfRange
         end
       /\ (exists k, f = k * 300)%Z
       /\ (f <= epoch_of (Ref.mkDt 2025 1 1 0 5 31 0) < f + 300)%Z.
Proof.
  split; [vm_compute; reflexivity |].
  destruct (@floor_to_window_is_the_start_of_the_window
              Ref.data RefClock.clock (Ref.mkDt 2025 1 1 0 5 31 0) 300%Z) as [_ Hnz].
  destruct Hnz as (f & E & Hk & Hpos & _); [discriminate |].
  exists f. split; [exact E |]. split; [exact Hk |]. apply Hpos. reflexivity.
Defined.

(** Five seconds into the year 1, floored to a week: the start of the
    window is before the first [datetime], and [floor_to_window] raises.
    The last microsecond of the year 9999 has the float of the second
    after it. *)
Lemma a_window_before_the_first_datetime :
  epoch_of (Ref.mkDt 1 1 1 0 0 5 0) = (-62135596795)%Z
  /\ floor_to_window (Ref.mkDt 1 1 1 0 0 5 0) 604800 = inr OutOfRange
  /\ floor_to_window (Ref.mkDt 1 1 1 0 0 5 0) 5 = inl (Ref.mkDt 1 1 1 0 0 5 0)
  /\ floor_to_window (Ref.mkDt 2025 1 1 0 5 31 0) 0 = inr ZeroDivisionError
  /\ epoch_of (Ref.mkDt 9999 12 31 23 59 59 999999) = 253402300800%Z
  /\ epoch_of (Ref.mkDt 1969 12 31 23 59 59 500000) = 0%Z.
Proof. vm_compute. repeat split. Qed.


(** The Log of [test_malformed_jsonl_handling]: two entries, one warning. *)
Lemma a_rebuild_accounts_for_every_line_witness :
  let st' := snd (IndexedJsonlStore._rebuild_index Demo.malformed) in
  let lines := log_lines (log_content Demo.malformed) in
  _index st' = records_index lines
  /\ List.length (_index st') = 2
  /\ List.length (filter unread lines) = 1
  /\ List.length (filter (fun p => negb (blank p)) lines) = 3.
Proof.
  destruct (@a_rebuild_accounts_for_every_line _ _ Demo.malformed
              (fresh_file (log_content Demo.malformed)))
    as (Hi & _ & _ & Hn).
  - vm_compute; reflexivity.
  - vm_compute; reflexivity.
  - vm_compute; discriminate.
  - vm_compute; reflexivity.
  - vm_compute; reflexivity.
  - cbn zeta. split; [exact Hi |]. vm_compute. repeat split.
Defined.
